(** * Tobii ET5 raw IR viewer: frame reconstruction and classification

    A shallow embedding of the pipeline of [src/ir_viewer.c]:
    the UVC bulk frame reader [read_frame], the metadata stripper
    [strip_meta_header], the classifier [neighbor_diff], the filter gates
    of the main loop, and the four decoders of [render_frame].

    Conventions.  A [uint8_t] is a [Byte.byte], read as a number through
    [u8].  A C [int] is a [Z]; where a value can leave the 32-bit range
    (a cast from [uint32_t], a product with a locked size) the wrap-around
    is written with [to_int].  A C [double] is a primitive binary64
    [float].  Buffers are lists; a buffer passed by pointer is passed in
    and returned. *)

From Stdlib Require Import ZArith List Bool Lia Floats Uint63.
From Stdlib.Strings Require Import Byte.
Import ListNotations.
Local Open Scope Z_scope.

(** ** Machine data *)

Module C.

Definition u8 (b : byte) : Z := Z.of_N (Byte.to_N b).

Definition len {A} (l : list A) : Z := Z.of_nat (length l).

(** [p[i]] for a byte buffer; the callers below only use it in range. *)
Definition byte_at (p : list byte) (i : Z) : Z :=
  u8 (nth (Z.to_nat i) p x00).

Definition INT_MAX : Z := 2147483647.

(** Conversion to a 32-bit two's complement [int]. *)
Definition to_int (z : Z) : Z := (z + 2147483648) mod 4294967296 - 2147483648.

(** [memcpy(dst + off, src, n)] on a buffer held as a list. *)
Definition memcpy (dst : list byte) (off : Z) (src : list byte) (n : Z)
  : list byte :=
  firstn (Z.to_nat off) dst ++ firstn (Z.to_nat n) src
    ++ skipn (Z.to_nat (off + n)) dst.

(** The first [n] bytes of a buffer: what a caller that got [n] back
    reads as the frame. *)
Definition prefix (n : Z) (buf : list byte) : list byte :=
  firstn (Z.to_nat n) buf.

(** Integer division, [None] on a zero divisor. *)
Definition cdiv (a b : Z) : option Z :=
  if b =? 0 then None else Some (a ÷ b).

(** [for (i = lo; n iterations; i++) s = body(i, s)]. *)
Fixpoint fold_range {S : Type} (n : nat) (i : Z) (body : Z -> S -> S) (s : S)
  : S :=
  match n with
  | O => s
  | Datatypes.S n' => fold_range n' (i + 1) body (body i s)
  end.

(** The same loop for a body that can fault (a read or write outside a
    buffer, a division by zero): the first fault ends the run. *)
Fixpoint for_upto {S : Type} (n : nat) (i : Z) (body : Z -> S -> option S)
  (s : S) : option S :=
  match n with
  | O => Some s
  | Datatypes.S n' =>
      match body i s with
      | Some s' => for_upto n' (i + 1) body s'
      | None => None
      end
  end.

End C.

Import C.

(** ** Frame reader (UVC bulk) *)

Module Reassembler.

Definition BFH_FID : Z := 0x01.
Definition BFH_EOF : Z := 0x02.
Definition BFH_ERR : Z := 0x40.
Definition MAX_FRAME_SIZE : Z := 1024 * 1024.

(** One pass through the head of the [while] loop as the USB side
    decides it: the keep-running flag read as 0, or the outcome of
    [libusb_bulk_transfer]. *)
Inductive event : Type :=
| Cancel                      (* g_running == 0 at the loop test *)
| Timeout                     (* LIBUSB_ERROR_TIMEOUT *)
| Overflow                    (* LIBUSB_ERROR_OVERFLOW *)
| Failure                     (* any other r < 0 *)
| Data (pkt : list byte).     (* r == 0, xferred == length pkt *)

(** The locals of [read_frame] that live across iterations. *)
Record state : Type := mkState { buf : list byte; off : Z; fid : Z }.

Inductive step : Type :=
| Continue (s : state)
| Return (ret : Z) (s : state).

Definition hlen_of (pkt : list byte) : Z := byte_at pkt 0.
Definition bfh_of (pkt : list byte) : Z := byte_at pkt 1.

(** One iteration: the test of [g_running], the transfer and the loop
    body.  The sums and differences below stay within [int] for the
    budgets and packet sizes of the callers ([reader_sums_fit_int]). *)
Definition on_event (bufsz : Z) (s : state) (ev : event) : step :=
  match ev with
  | Cancel => Return (off s) s
  | Timeout => Continue s
  | Overflow => Continue s
  | Failure => Return (-1) s
  | Data pkt =>
      let xferred := len pkt in
      if xferred <? 2 then Continue s else
      let hlen := hlen_of pkt in
      let bfh := bfh_of pkt in
      if (hlen <? 2) || (hlen >? xferred) then
        let n := if off s + xferred <=? bufsz then xferred else bufsz - off s in
        Continue (mkState (memcpy (buf s) (off s) pkt n) (off s + n) (fid s))
      else if negb (Z.land bfh BFH_ERR =? 0) then
        Continue (mkState (buf s) 0 (-1))
      else
        let cfid := Z.land bfh BFH_FID in
        if (fid s >=? 0) && negb (cfid =? fid s) && (off s >? 0) then
          Return (off s) s
        else
          let plen := xferred - hlen in
          let s' :=
            if plen >? 0 then
              let n := if off s + plen <=? bufsz then plen else bufsz - off s in
              mkState (memcpy (buf s) (off s) (skipn (Z.to_nat hlen) pkt) n)
                      (off s + n) cfid
            else mkState (buf s) (off s) cfid in
          if negb (Z.land bfh BFH_EOF =? 0) then Return (off s') s'
          else Continue s'
  end.

(** The [while (off < bufsz && g_running)] loop over the events the
    USB side delivers.  [None]: the events ran out before the function
    returned (it is still waiting for a transfer).  Otherwise the
    returned [int], the buffer and the events not consumed. *)
Fixpoint read_loop (bufsz : Z) (evs : list event) (s : state)
  : option (Z * list byte * list event) :=
  if off s <? bufsz then
    match evs with
    | [] => None
    | ev :: rest =>
        match on_event bufsz s ev with
        | Continue s' => read_loop bufsz rest s'
        | Return r s' => Some (r, buf s', rest)
        end
    end
  else Some (off s, buf s, evs).

Definition read_frame (bufsz : Z) (evs : list event) (b : list byte)
  : option (Z * list byte * list event) :=
  read_loop bufsz evs (mkState b 0 (-1)).

(** The frame a call hands to its caller: the first [ret] bytes. *)
Definition frame_of (r : option (Z * list byte * list event))
  : option (Z * list byte) :=
  match r with
  | Some (ret, b, _) => Some (ret, prefix ret b)
  | None => None
  end.

(** Header validity and payload, as the reader decides them. *)
Definition valid_header (pkt : list byte) : Prop :=
  2 <= hlen_of pkt <= len pkt.

Definition payload (pkt : list byte) : list byte :=
  skipn (Z.to_nat (hlen_of pkt)) pkt.

Definition flag (mask : Z) (pkt : list byte) : bool :=
  negb (Z.land (bfh_of pkt) mask =? 0).

Definition fid_bit (pkt : list byte) : Z := Z.land (bfh_of pkt) BFH_FID.

(** The [n] of the two copies, and the state after a copy of [d]. *)
Definition room (bufsz off plen : Z) : Z :=
  if off + plen <=? bufsz then plen else bufsz - off.

Definition store_at (bufsz : Z) (s : state) (d : list byte) (c : Z) : state :=
  let n := room bufsz (off s) (len d) in
  mkState (memcpy (buf s) (off s) d n) (off s + n) c.

(** The payload branch: [if (plen > 0) { ... }] and [fid = cfid]. *)
Definition append (bufsz : Z) (s : state) (d : list byte) (c : Z) : state :=
  if len d >? 0 then store_at bufsz s d c else mkState (buf s) (off s) c.

(** The accumulated bytes of a state. *)
Definition acc (s : state) : list byte := prefix (off s) (buf s).

(** States the loop can be in: the offset within the budget and the
    destination at least [bufsz] bytes long. *)
Definition well_formed (bufsz : Z) (s : state) : Prop :=
  0 <= off s <= bufsz /\ bufsz <= len (buf s).

(** Two states that differ only in bytes beyond the accumulation. *)
Definition same_frame (s1 s2 : state) : Prop :=
  off s1 = off s2 /\ fid s1 = fid s2 /\ acc s1 = acc s2.

(** A framed packet of the frame with identity bit [f], no error. *)
Definition framed (f : Z) (eof : bool) (pkt : list byte) : Prop :=
  valid_header pkt /\ flag BFH_ERR pkt = false /\ fid_bit pkt = f
  /\ flag BFH_EOF pkt = eof.

Definition payloads (pkts : list (list byte)) : list byte :=
  concat (map payload pkts).

(** Two outcomes of the loop body that a caller cannot tell apart. *)
Definition step_related (bufsz : Z) (x y : step) : Prop :=
  match x, y with
  | Continue a, Continue b =>
      same_frame a b /\ well_formed bufsz a /\ well_formed bufsz b
  | Return r a, Return r' b => r = r' /\ prefix r (buf a) = prefix r (buf b)
  | _, _ => False
  end.

Definition rest_of (r : option (Z * list byte * list event))
  : option (list event) :=
  match r with
  | Some (_, _, rest) => Some rest
  | None => None
  end.

End Reassembler.


(** ** Metadata stripper *)

Module Meta.

(** The pointer [pix] (an offset into its buffer) and [pixlen]: a
    window into a buffer that the stripper does not own. *)
Record view : Type := mkView { base : list byte; pix : Z; pixlen : Z }.

(** The byte [i] places after the pointer. *)
Definition at_pix (v : view) (i : Z) : Z := byte_at (base v) (pix v + i).

Definition has_meta (v : view) : bool :=
  (pixlen v >? 12) && (at_pix v 1 =? 0x00)
    && (at_pix v 2 =? 0xe8) && (at_pix v 3 =? 0x03).

Definition strip_meta_header (v : view) : Z * view :=
  if has_meta v
  then (1, mkView (base v) (pix v + 10) (pixlen v - 10))
  else (0, v).

(** The buffer from the pointer on, and the bytes the window covers. *)
Definition data (v : view) : list byte := skipn (Z.to_nat (pix v)) (base v).
Definition bytes (v : view) : list byte := firstn (Z.to_nat (pixlen v)) (data v).

(** [pix = fbuf; pixlen = got] with [got] the whole sequence. *)
Definition whole (l : list byte) : view := mkView l 0 (len l).

(** The signature in the words of the specification: longer than 12
    bytes, byte 1 = 0x00, bytes 2-3 = 0xE8 0x03. *)
Definition signature (l : list byte) : Prop :=
  12 < len l /\ byte_at l 1 = 0x00 /\ byte_at l 2 = 0xe8 /\ byte_at l 3 = 0x03.

End Meta.

(** ** Analysis helpers *)

Module Classifier.

(** [(double)z] for a non-negative integer below [2^63]. *)
Definition double_of (z : Z) : float := PrimFloat.of_uint63 (Uint63.of_Z z).

(** The [for (i = 1; i < check; i++)] loop of [neighbor_diff]. *)
Definition neighbor_sum (p : list byte) (check : Z) : Z :=
  fold_range (Z.to_nat (check - 1)) 1
    (fun i sum => sum + Z.abs (byte_at p i - byte_at p (i - 1))) 0.

Definition check_of (n : Z) : Z := if n <? 4000 then n else 4000.

Definition neighbor_diff (p : list byte) (n : Z) : float :=
  if n <? 2 then 0%float
  else
    let check := check_of n in
    (double_of (neighbor_sum p check) / double_of (check - 1))%float.

(** [int is_interleaved = (nd > 25.0);] *)
Definition is_interleaved (nd : float) : bool := (25 <? nd)%float.

(** The quotients [num k / k] for every divisor [k] the function can
    use, [1 <= k <= 3999]. *)
Definition quotients (num : nat -> Z) : list float :=
  map (fun k => (double_of (num k) / double_of (Z.of_nat k))%float)
    (seq 1 3999).

(** Test inputs of the classifier. *)
Fixpoint alternating (a b : byte) (n : nat) : list byte :=
  match n with
  | O => []
  | Datatypes.S n' => a :: alternating b a n'
  end.

End Classifier.

(** ** Rendering *)

Module Render.

Definition MODE_RAW : Z := 0.
Definition MODE_DEINT_EVEN : Z := 1.
Definition MODE_DEINT_ODD : Z := 2.
Definition MODE_16BIT_LE : Z := 3.

(** Checked accesses: [None] is a read or a write outside the buffer,
    or a division by zero. *)
Definition load (src : list byte) (i : Z) : option Z :=
  if (0 <=? i) && (i <? len src) then Some (byte_at src i) else None.

Fixpoint upd {A : Type} (l : list A) (i : nat) (x : A) : list A :=
  match l, i with
  | [], _ => []
  | _ :: t, O => x :: t
  | h :: t, Datatypes.S i' => h :: upd t i' x
  end.

Definition store (dst : list Z) (i : Z) (px : Z) : option (list Z) :=
  if (0 <=? i) && (i <? len dst) then Some (upd dst (Z.to_nat i) px) else None.

(** [memset(dst, 0, npix * 4)] on a buffer of 32-bit pixels; the byte
    count is an [int] converted to [size_t]. *)
Definition memset_px (dst : list Z) (npix : Z) : option (list Z) :=
  let nbytes := to_int (npix * 4) in
  if (0 <=? nbytes) && (nbytes <=? 4 * len dst) then
    Some (repeat 0 (Z.to_nat (nbytes ÷ 4)) ++ skipn (Z.to_nat (nbytes ÷ 4)) dst)
  else None.

(** [0xFF000000u | (v << 16) | (v << 8) | v] *)
Definition argb (v : Z) : Z :=
  Z.lor (Z.lor (Z.lor 0xFF000000 (Z.shiftl v 16)) (Z.shiftl v 8)) v.

(** [(s < 0) ? 0 : (s > 255) ? 255 : (uint8_t)s] *)
Definition clamp (s : Z) : Z :=
  if s <? 0 then 0 else if s >? 255 then 255 else s mod 256.

(** [(mx - mn > 0) ? (mx - mn) : 1] *)
Definition contrast_range (mn mx : Z) : Z :=
  if mx - mn >? 0 then mx - mn else 1.

(** The three [case]s run the same two loops over their own sample
    expression: the first finds [mn] and [mx], the second stretches
    and writes. *)
Definition scan (sample : Z -> option Z) (mn0 : Z) (limit : Z)
  : option (Z * Z) :=
  for_upto (Z.to_nat limit) 0
    (fun i '(mn, mx) =>
       match sample i with
       | Some b => Some (if b <? mn then b else mn, if b >? mx then b else mx)
       | None => None
       end)
    (mn0, 0).

Definition paint (sample : Z -> option Z) (mn range : Z) (limit : Z)
  (dst : list Z) : option (list Z) :=
  for_upto (Z.to_nat limit) 0
    (fun i d =>
       match sample i with
       | Some b =>
           match cdiv ((b - mn) * 255) range with
           | Some s => store d i (argb (clamp s))
           | None => None
           end
       | None => None
       end)
    dst.

Definition stretch (sample : Z -> option Z) (mn0 : Z) (limit : Z)
  (dst : list Z) : option (list Z) :=
  match scan sample mn0 limit with
  | Some (mn, mx) => paint sample mn (contrast_range mn mx) limit dst
  | None => None
  end.

(** [src[i]], [src[start + i * 2]] and the little-endian pair
    [(uint16_t)src[i*2] | ((uint16_t)src[i*2+1] << 8)]. *)
Definition sample_raw (src : list byte) (i : Z) : option Z := load src i.

Definition sample_deint (src : list byte) (start : Z) (i : Z) : option Z :=
  load src (start + i * 2).

Definition sample_16 (src : list byte) (i : Z) : option Z :=
  match load src (i * 2), load src (i * 2 + 1) with
  | Some lo, Some hi => Some (Z.lor lo (Z.shiftl hi 8) mod 65536)
  | _, _ => None
  end.

(** The loop bounds of the cases. *)
Definition limit_raw (srclen npix : Z) : Z :=
  if srclen <? npix then srclen else npix.

Definition limit_deint (start srclen npix : Z) : Z :=
  let halflen := (srclen - start + 1) ÷ 2 in
  if halflen <? npix then halflen else npix.

Definition limit_16 (srclen npix : Z) : Z :=
  let limit16 := srclen ÷ 2 in
  if limit16 >? npix then npix else limit16.

Definition render_frame (src : list byte) (dst : list Z)
  (width height mode : Z) : option (list Z) :=
  let srclen := len src in
  let npix := to_int (width * height) in
  match memset_px dst npix with
  | None => None
  | Some dst =>
      if srclen <? 2 then Some dst
      else if mode =? MODE_RAW then
        stretch (sample_raw src) 255 (limit_raw srclen npix) dst
      else if (mode =? MODE_DEINT_EVEN) || (mode =? MODE_DEINT_ODD) then
        let start := if mode =? MODE_DEINT_ODD then 1 else 0 in
        stretch (sample_deint src start) 255 (limit_deint start srclen npix) dst
      else if mode =? MODE_16BIT_LE then
        stretch (sample_16 src) 65535 (limit_16 srclen npix) dst
      else Some dst
  end.

(** Number of pixels a call decodes. *)
Definition decoded (srclen npix mode : Z) : Z :=
  if srclen <? 2 then 0
  else if mode =? MODE_RAW then limit_raw srclen npix
  else if mode =? MODE_DEINT_EVEN then limit_deint 0 srclen npix
  else if mode =? MODE_DEINT_ODD then limit_deint 1 srclen npix
  else if mode =? MODE_16BIT_LE then limit_16 srclen npix
  else 0.

Definition pixel (dst : list Z) (i : Z) : Z := nth (Z.to_nat i) dst 0.

End Render.

(** ** Filter pipeline of the viewer loop *)

Module Pipeline.

Import Meta Classifier.

Definition size_tolerance : Z := 20.
Definition avg_tolerance : Z := 40.

(** The locals of [main] the gates read and write, grouped by use. *)
Record hold : Type := mkHold {
  frame_hold : bool;
  locked_size : Z;
  last_avg : Z;
  hold_buf : list byte;
  hold_len : Z;
  hold_valid : bool }.

Record accum : Type := mkAccum {
  accumulate : bool;
  accum_buf : list byte;
  accum_off : Z }.

Record counters : Type := mkCounters {
  frames : Z;
  all_frames : Z;
  skip_stripe : Z;
  skip_dark : Z;
  skip_size : Z;
  skip_bright : Z }.

Record stab : Type := mkStab {
  negotiated_frame_size : Z;          (* uint32_t, set by uvc_start *)
  stripe_filter : bool;
  bright_thresh : Z;
  hold_st : hold;
  accum_st : accum;
  cnt : counters }.

Definition default_bright_thresh : Z := 15.

(** The state at the first iteration of the viewer loop. *)
Definition initial (negotiated : Z) : stab :=
  mkStab negotiated true default_bright_thresh
    (mkHold true 0 (-1)
       (repeat x00 (Z.to_nat Reassembler.MAX_FRAME_SIZE)) 0 false)
    (mkAccum false (repeat x00 (Z.to_nat Reassembler.MAX_FRAME_SIZE)) 0)
    (mkCounters 0 0 0 0 0 0).

(** *** Key handlers *)

(** [bright_thresh = (bright_thresh > 2) ? bright_thresh - 5 : 0;] *)
Definition lower_brightness (bright_thresh : Z) : Z :=
  if bright_thresh >? 2 then bright_thresh - 5 else 0.

Definition key_b (st : stab) : stab :=
  mkStab (negotiated_frame_size st) (stripe_filter st)
    (lower_brightness (bright_thresh st)) (hold_st st) (accum_st st) (cnt st).

Definition key_a (st : stab) : stab :=
  mkStab (negotiated_frame_size st) (stripe_filter st) (bright_thresh st)
    (hold_st st)
    (mkAccum (negb (accumulate (accum_st st))) (accum_buf (accum_st st)) 0)
    (cnt st).

(** The floor after [n] presses of B in a session. *)
Definition floor_after (n : nat) : Z :=
  Nat.iter n lower_brightness default_bright_thresh.

(** *** Gates *)

(** Size-band filter: [true] when the frame is skipped. *)
Definition size_band_reject (frame_hold : bool) (locked_size pixlen : Z)
  : bool :=
  if frame_hold && (locked_size >? 0) then
    let lo := to_int (locked_size * (100 - size_tolerance)) ÷ 100 in
    let hi := to_int (locked_size * (100 + size_tolerance)) ÷ 100 in
    (pixlen <? lo) || (pixlen >? hi)
  else false.

(** Accumulation mode: [None] is the [continue] while the target is
    not reached. *)
Definition accumulation_gate (negotiated : Z) (a : accum) (v : view)
  : option view * accum :=
  if accumulate a && (negotiated >? 0) then
    let target := to_int negotiated in
    let space := to_int (target - accum_off a) in
    let copy := if pixlen v <? space then pixlen v else space in
    let a1 :=
      if copy >? 0 then
        mkAccum (accumulate a)
          (memcpy (accum_buf a) (accum_off a) (data v) copy)
          (to_int (accum_off a + copy))
      else a in
    if accum_off a1 <? target then (None, a1)
    else (Some (mkView (accum_buf a1) 0 (accum_off a1)),
          mkAccum (accumulate a1) (accum_buf a1) 0)
  else (Some v, a).

(** Brightness filter: [qn], [qsum] and [qavg = (int)(qsum / qn)]. *)
Definition qn_of (pixlen : Z) : Z := if pixlen <? 4000 then pixlen else 4000.

Definition qsum_of (p : list byte) (qn : Z) : Z :=
  fold_range (Z.to_nat qn) 0 (fun i qsum => qsum + byte_at p i) 0.

Definition qavg_of (v : view) : option Z :=
  let qn := qn_of (pixlen v) in
  match cdiv (qsum_of (data v) qn) qn with
  | Some q => Some (to_int q)
  | None => None
  end.

(** What one iteration does with the frame [read_frame] returned. *)
Inductive verdict : Type :=
| NoFrame                     (* got <= 0 *)
| Fragment                    (* got < 100 *)
| Stitching                   (* accumulation target not reached *)
| Striped
| OffSize
| DivideByZero                (* qsum / qn with qn == 0 *)
| Dark
| Jump
| Display (v : view) (qavg : Z) (nd : float).

Definition with_cnt (st : stab) (a : accum) (c : counters) : stab :=
  mkStab (negotiated_frame_size st) (stripe_filter st) (bright_thresh st)
    (hold_st st) a c.

Definition accept (h : hold) (c : counters) (v : view) (qavg : Z) : hold :=
  if frame_hold h then
    mkHold true
      (if (locked_size h =? 0) && (frames c =? 0) then pixlen v
       else locked_size h)
      qavg
      (memcpy (hold_buf h) 0 (data v) (pixlen v))
      (pixlen v) true
  else h.

Definition filter_frame (st : stab) (fbuf : list byte) (got : Z)
  : verdict * stab :=
  if got <=? 0 then (NoFrame, st)
  else if got <? 100 then (Fragment, st)
  else
    let c := cnt st in
    let c := mkCounters (frames c) (all_frames c + 1) (skip_stripe c)
               (skip_dark c) (skip_size c) (skip_bright c) in
    let v := snd (strip_meta_header (mkView fbuf 0 got)) in
    match accumulation_gate (negotiated_frame_size st) (accum_st st) v with
    | (None, a) => (Stitching, with_cnt st a c)
    | (Some v, a) =>
        let h := hold_st st in
        let nd := neighbor_diff (data v) (pixlen v) in
        if stripe_filter st && is_interleaved nd then
          (Striped,
           with_cnt st a
             (mkCounters (frames c) (all_frames c) (skip_stripe c + 1)
                (skip_dark c) (skip_size c) (skip_bright c)))
        else if size_band_reject (frame_hold h) (locked_size h) (pixlen v) then
          (OffSize,
           with_cnt st a
             (mkCounters (frames c) (all_frames c) (skip_stripe c)
                (skip_dark c) (skip_size c + 1) (skip_bright c)))
        else
          match qavg_of v with
          | None => (DivideByZero, with_cnt st a c)
          | Some qavg =>
              if qavg <? bright_thresh st then
                (Dark,
                 with_cnt st a
                   (mkCounters (frames c) (all_frames c) (skip_stripe c)
                      (skip_dark c + 1) (skip_size c) (skip_bright c)))
              else if frame_hold h && (last_avg h >=? 0)
                      && (Z.abs (qavg - last_avg h) >? avg_tolerance) then
                (Jump,
                 with_cnt st a
                   (mkCounters (frames c) (all_frames c) (skip_stripe c)
                      (skip_dark c) (skip_size c) (skip_bright c + 1)))
              else
                (Display v qavg nd,
                 mkStab (negotiated_frame_size st) (stripe_filter st)
                   (bright_thresh st) (accept h c v qavg) a
                   (mkCounters (frames c + 1) (all_frames c) (skip_stripe c)
                      (skip_dark c) (skip_size c) (skip_bright c)))
          end
    end.

End Pipeline.


(** ** Further parts of the viewer *)

(** *** Packet streams seen by the frame reader *)

Module Stream.

Import Reassembler.

(** Events the loop body passes over with [continue] and no change of
    state: a timeout, an overflow, a transfer of fewer than 2 bytes. *)
Definition idle (ev : event) : bool :=
  match ev with
  | Timeout => true
  | Overflow => true
  | Data pkt => len pkt <? 2
  | _ => false
  end.

(** What a packet without error bit adds to the accumulation: nothing
    when shorter than 2 bytes, the whole packet when its header is not
    valid, the bytes after the header otherwise. *)
Definition contribution (pkt : list byte) : list byte :=
  if len pkt <? 2 then []
  else if (hlen_of pkt <? 2) || (hlen_of pkt >? len pkt) then pkt
  else payload pkt.

Definition contributions (pkts : list (list byte)) : list byte :=
  concat (map contribution pkts).

(** Packets that neither seal the frame nor reset it: too short,
    headerless, or framed for the identity [f] without end-of-frame. *)
Definition quiet (f : Z) (pkt : list byte) : Prop :=
  len pkt < 2 \/ (2 <= len pkt /\ ~ valid_header pkt) \/ framed f false pkt.

(** Reader states that will not take a packet of identity [f] for the
    start of another frame. *)
Definition tracks (f : Z) (s : state) : Prop := fid s < 0 \/ fid s = f.

End Stream.

(** *** Two-level inputs of the classifier *)

Module Levels.

Import Classifier.

(** The quotients [c k / k] for the divisors [k, k + 1, ...] and the
    level differences [c, c + 1, ...], and the values they are compared
    with. *)
Fixpoint level_row (c : Z) (n : nat) (k : Z) : list float :=
  match n with
  | O => []
  | Datatypes.S n' =>
      (double_of (c * k) / double_of k)%float :: level_row c n' (k + 1)
  end.

Fixpoint level_rows (m : nat) (c : Z) : list (list float) :=
  match m with
  | O => []
  | Datatypes.S m' => level_row c 3999 1 :: level_rows m' (c + 1)
  end.

Fixpoint level_consts (m : nat) (c : Z) : list (list float) :=
  match m with
  | O => []
  | Datatypes.S m' => repeat (double_of c) 3999 :: level_consts m' (c + 1)
  end.

Fixpoint level_labels (m : nat) (c : Z) : list bool :=
  match m with
  | O => []
  | Datatypes.S m' => is_interleaved (double_of c) :: level_labels m' (c + 1)
  end.

Fixpoint level_tests (m : nat) (c : Z) : list bool :=
  match m with
  | O => []
  | Datatypes.S m' => (25 <? c) :: level_tests m' (c + 1)
  end.

End Levels.

(** *** Key handlers of the viewer *)

Module Controls.

Import Pipeline.

Definition FRAME_W_DEFAULT : Z := 642.
Definition FRAME_H_DEFAULT : Z := 480.
Definition tex_w : Z := 1284.
Definition tex_h : Z := 480.
Definition MODE_COUNT : Z := 4.

(** The display settings the keys change: [dw] and [display_mode]. *)
Record display : Type := mkDisplay { dw : Z; display_mode : Z }.

Definition display0 : display := mkDisplay FRAME_W_DEFAULT Render.MODE_RAW.

Inductive key : Type :=
| KeyM
| KeyPlus (shift : bool)
| KeyMinus (shift : bool)
| KeyR.

Definition press (k : key) (d : display) : display :=
  match k with
  | KeyM =>
      mkDisplay (dw d) (Z.rem (to_int (display_mode d + 1)) MODE_COUNT)
  | KeyPlus shift =>
      let w := to_int (dw d + (if shift then 10 else 1)) in
      mkDisplay (if w >? tex_w then tex_w else w) (display_mode d)
  | KeyMinus shift =>
      let w := to_int (dw d - (if shift then 10 else 1)) in
      mkDisplay (if w <? 10 then 10 else w) (display_mode d)
  | KeyR => mkDisplay FRAME_W_DEFAULT (display_mode d)
  end.

Definition presses (ks : list key) (d : display) : display :=
  fold_left (fun d k => press k d) ks d.

(** [case SDLK_h:] toggle frame-hold; switching it off clears the lock,
    the brightness baseline and the validity of the hold buffer. *)
Definition key_h (st : stab) : stab :=
  let h := hold_st st in
  let on := negb (frame_hold h) in
  mkStab (negotiated_frame_size st) (stripe_filter st) (bright_thresh st)
    (if on
     then mkHold on (locked_size h) (last_avg h) (hold_buf h) (hold_len h)
            (hold_valid h)
     else mkHold on 0 (-1) (hold_buf h) (hold_len h) false)
    (accum_st st) (cnt st).

(** [case SDLK_l:] lock onto the length of the held frame, or clear. *)
Definition key_l (st : stab) : stab :=
  let h := hold_st st in
  mkStab (negotiated_frame_size st) (stripe_filter st) (bright_thresh st)
    (mkHold (frame_hold h)
       (if hold_valid h && (hold_len h >? 0) then hold_len h else 0)
       (last_avg h) (hold_buf h) (hold_len h) (hold_valid h))
    (accum_st st) (cnt st).

(** [case SDLK_s:] *)
Definition key_s (st : stab) : stab :=
  mkStab (negotiated_frame_size st) (negb (stripe_filter st)) (bright_thresh st)
    (hold_st st) (accum_st st) (cnt st).

End Controls.

(** *** A run of the viewer loop over the frames it reads *)

Module Session.

Import Pipeline.



(** What an iteration takes in: a key from the event queue, or the
    result [got] of [read_frame] with the buffer it filled. *)
Inductive input : Type :=
| Key_a
| Key_b
| Key_h
| Key_l
| Key_s
| Frame (fbuf : list byte) (got : Z).

Definition react (st : stab) (i : input) : stab :=
  match i with
  | Key_a => key_a st
  | Key_b => key_b st
  | Key_h => Controls.key_h st
  | Key_l => Controls.key_l st
  | Key_s => Controls.key_s st
  | Frame fbuf got => snd (filter_frame st fbuf got)
  end.

Definition viewer_run (st : stab) (inputs : list input) : stab :=
  fold_left react inputs st.

(** [read_frame] returns no more than the buffer holds. *)
Definition in_buffer (i : input) : Prop :=
  match i with
  | Frame fbuf got => got <= len fbuf
  | _ => True
  end.

(** What every iteration finds and leaves when the negotiated size is
    [T]: the accumulation buffer at its full length and the offset
    below the target. *)
Definition accum_ok (T : Z) (st : stab) : Prop :=
  negotiated_frame_size st = T
  /\ len (accum_buf (accum_st st)) = Reassembler.MAX_FRAME_SIZE
  /\ 0 <= accum_off (accum_st st) < T.

(** [copy] of the accumulation mode: the number of bytes of
    [memcpy(accum_buf + accum_off, pix, copy)]. *)
Definition accum_copy (negotiated : Z) (a : accum) (pixlen : Z) : Z :=
  let space := to_int (to_int negotiated - accum_off a) in
  if pixlen <? space then pixlen else space.

End Session.

(** *** Text dump and raw dump modes *)

Module Dump.

Import Reassembler.

(** The statistics loop of the text dump:
    [mn = 255, mx = 0, sum = 0] and one pass over [fbuf[0 .. got)]. *)
Definition frame_stats (fbuf : list byte) (got : Z) : Z * Z * Z :=
  fold_range (Z.to_nat got) 0
    (fun i '(mn, mx, sum) =>
       let b := byte_at fbuf i in
       (if b <? mn then b else mn, if b >? mx then b else mx, sum + b))
    (255, 0, 0).

(** One byte of a number, and [fwrite(&sz, 4, 1, f)] for a [uint32_t] on
    a little-endian machine. *)
Definition byte_of (z : Z) : byte :=
  match Byte.of_N (Z.to_N (z mod 256)) with
  | Some b => b
  | None => x00
  end.

Definition le32 (z : Z) : list byte :=
  [byte_of z; byte_of (z / 256); byte_of (z / 65536); byte_of (z / 16777216)].

(** The number four size bytes hold. *)
Definition le32_value (l : list byte) : Z :=
  u8 (nth 0 l x00) + 256 * u8 (nth 1 l x00) + 65536 * u8 (nth 2 l x00)
  + 16777216 * u8 (nth 3 l x00).

(** One record of the raw dump file: [size 4B LE] [data]. *)
Definition record (pkt : list byte) : list byte :=
  le32 (len pkt mod 4294967296) ++ pkt.

Definition RAWDUMP_LIMIT : Z := 2 * 1024 * 1024.

(** The capture loop of the raw dump:
    [while (g_running && total < 2 * 1024 * 1024)].  The result is the
    file written, [total], [npkts] and the events not consumed; [None]
    when the events run out while the loop still waits. *)
Fixpoint rawdump_loop (evs : list event) (file : list byte) (total npkts : Z)
  : option (list byte * Z * Z * list event) :=
  if total <? RAWDUMP_LIMIT then
    match evs with
    | [] => None
    | ev :: rest =>
        match ev with
        | Cancel => Some (file, total, npkts, rest)
        | Timeout => rawdump_loop rest file total npkts
        | Overflow => Some (file, total, npkts, rest)
        | Failure => Some (file, total, npkts, rest)
        | Data pkt =>
            if len pkt <? 1 then rawdump_loop rest file total npkts
            else
              rawdump_loop rest (file ++ record pkt)
                (to_int (total + (4 + len pkt))) (to_int (npkts + 1))
        end
    end
  else Some (file, total, npkts, evs).

Definition rawdump (evs : list event)
  : option (list byte * Z * Z * list event) :=
  rawdump_loop evs [] 0 0.

(** The transfers among [evs] that delivered at least one byte. *)
Fixpoint packets_of (evs : list event) : list (list byte) :=
  match evs with
  | [] => []
  | Data pkt :: rest =>
      if len pkt <? 1 then packets_of rest else pkt :: packets_of rest
  | _ :: rest => packets_of rest
  end.

(** No transfer delivers more than the 65536 bytes of [pkt]. *)
Definition sized (ev : event) : Prop :=
  match ev with
  | Data pkt => len pkt <= 65536
  | _ => True
  end.

Definition records (pkts : list (list byte)) : list byte :=
  concat (map record pkts).

(** [hexdump(p, n)]: the bytes it prints, [p[0 .. n)]. *)
Definition hexdump (v : Meta.view) (n : Z) : list byte :=
  firstn (Z.to_nat n) (Meta.data v).

(** The line of the text dump for a frame of [got] bytes in [fbuf]:
    [pix = fbuf; pixlen = got; strip_meta_header(&pix, &pixlen);
     hexdump(pix, got < 32 ? got : 32)]. *)
Definition dump_preview (fbuf : list byte) (got : Z) : list byte :=
  let v := snd (Meta.strip_meta_header (Meta.mkView fbuf 0 got)) in
  hexdump v (if got <? 32 then got else 32).

(** The line of the viewer for its first frames:
    [hexdump(pix, pixlen < 20 ? pixlen : 20)]. *)
Definition viewer_preview (v : Meta.view) : list byte :=
  hexdump v (if Meta.pixlen v <? 20 then Meta.pixlen v else 20).

End Dump.

(** *** Samples of the decoders *)

Module Decoded.

Import Render.

(** The value the case of [mode] reads for pixel [k]. *)
Definition sample_value (src : list byte) (mode k : Z) : Z :=
  if mode =? MODE_RAW then byte_at src k
  else if mode =? MODE_DEINT_EVEN then byte_at src (0 + k * 2)
  else if mode =? MODE_DEINT_ODD then byte_at src (1 + k * 2)
  else Z.lor (byte_at src (k * 2)) (Z.shiftl (byte_at src (k * 2 + 1)) 8)
       mod 65536.

(** [(b - mn) * 255 / range] *)
Definition stretched (mn mx b : Z) : Z :=
  (b - mn) * 255 ÷ contrast_range mn mx.

End Decoded.

(** * Properties *)

(** Closes a side condition on concrete data by evaluation. *)
Ltac by_evaluation := vm_compute; intuition congruence.

(** ** Machine data *)

Section MachineFacts.

Lemma u8_range (b : byte) : 0 <= u8 b <= 255.
Proof.
  unfold u8. pose proof (Byte.to_N_bounded b). lia.
Qed.

Lemma byte_at_range (p : list byte) (i : Z) : 0 <= byte_at p i <= 255.
Proof. apply u8_range. Qed.

Lemma to_int_small (z : Z) : -2147483648 <= z <= INT_MAX -> to_int z = z.
Proof.
  unfold to_int, INT_MAX. intros H.
  rewrite Z.mod_small by lia. lia.
Qed.

Lemma len_nonneg {A} (l : list A) : 0 <= len l.
Proof. unfold len. lia. Qed.

Lemma len_app {A} (l1 l2 : list A) : len (l1 ++ l2) = len l1 + len l2.
Proof. unfold len. rewrite length_app. lia. Qed.

Lemma len_skipn {A} (l : list A) (k : Z) :
  0 <= k <= len l -> len (skipn (Z.to_nat k) l) = len l - k.
Proof. unfold len. intros H. rewrite length_skipn. lia. Qed.

Lemma length_memcpy (dst src : list byte) (off n : Z) :
  0 <= off -> 0 <= n -> off + n <= len dst -> n <= len src ->
  length (memcpy dst off src n) = length dst.
Proof.
  unfold memcpy, len. intros Ho Hn Hd Hs.
  rewrite !length_app, !length_firstn, length_skipn. lia.
Qed.

Lemma prefix_memcpy (dst src : list byte) (off n : Z) :
  0 <= off -> 0 <= n -> off <= len dst -> n <= len src ->
  prefix (off + n) (memcpy dst off src n) = prefix off dst ++ prefix n src.
Proof.
  unfold memcpy, prefix, len. intros Ho Hn Hd Hs.
  rewrite app_assoc.
  rewrite firstn_app.
  rewrite length_app, !length_firstn.
  replace (Z.to_nat (off + n) - _)%nat with 0%nat by lia.
  rewrite firstn_O, app_nil_r.
  apply firstn_all2. rewrite length_app, !length_firstn. lia.
Qed.

End MachineFacts.

(** ** Frame reader *)

Section ReassemblerFacts.

Import Reassembler.

Variable bufsz : Z.

Lemma room_bounds (s : state) (d : list byte) :
  well_formed bufsz s -> off s < bufsz ->
  0 <= room bufsz (off s) (len d) <= len d
  /\ off s + room bufsz (off s) (len d) = Z.min bufsz (off s + len d).
Proof.
  unfold well_formed, room. intros [Ho Hb] Hlt.
  pose proof (len_nonneg d).
  destruct (off s + len d <=? bufsz) eqn:E; lia.
Qed.

Lemma store_at_spec (s : state) (d : list byte) (c : Z) :
  well_formed bufsz s -> off s < bufsz ->
  well_formed bufsz (store_at bufsz s d c)
  /\ fid (store_at bufsz s d c) = c
  /\ off (store_at bufsz s d c) = Z.min bufsz (off s + len d)
  /\ acc (store_at bufsz s d c) = firstn (Z.to_nat bufsz) (acc s ++ d).
Proof.
  intros Hwf Hlt.
  destruct (room_bounds s d Hwf Hlt) as [Hn Hmin].
  destruct Hwf as [Ho Hb].
  unfold well_formed, store_at, acc; cbn [buf off fid].
  set (n := room bufsz (off s) (len d)) in *.
  assert (Hlen : length (memcpy (buf s) (off s) d n) = length (buf s))
    by (apply length_memcpy; lia).
  repeat split; try lia.
  - unfold len in *. rewrite Hlen. lia.
  - rewrite prefix_memcpy by lia.
    assert (Hp : length (prefix (off s) (buf s)) = Z.to_nat (off s)).
    { unfold prefix, len in *. rewrite length_firstn. lia. }
    rewrite firstn_app, Hp.
    rewrite (firstn_all2 (n := Z.to_nat bufsz)) by lia.
    f_equal. unfold prefix.
    unfold room in n. subst n.
    destruct (off s + len d <=? bufsz) eqn:E.
    + rewrite !firstn_all2; unfold len in *; try lia. reflexivity.
    + f_equal. lia.
Qed.

(** With a budget of at most [MAX_FRAME_SIZE] and transfers of at most
    65536 bytes, the [int] expressions of the loop body do not wrap. *)
Lemma reader_sums_fit_int (s : state) (pkt : list byte) :
  well_formed bufsz s -> bufsz <= MAX_FRAME_SIZE -> len pkt <= 65536 ->
  to_int (off s + len pkt) = off s + len pkt
  /\ to_int (len pkt - hlen_of pkt) = len pkt - hlen_of pkt
  /\ to_int (off s + (len pkt - hlen_of pkt)) = off s + (len pkt - hlen_of pkt)
  /\ to_int (bufsz - off s) = bufsz - off s.
Proof.
  unfold well_formed, MAX_FRAME_SIZE. intros [Ho _] Hb Hp.
  pose proof (len_nonneg pkt). pose proof (byte_at_range pkt 0) as Hh.
  fold (hlen_of pkt) in Hh.
  repeat split; apply to_int_small; unfold INT_MAX; lia.
Qed.

Lemma len_payload (pkt : list byte) :
  valid_header pkt -> len (payload pkt) = len pkt - hlen_of pkt.
Proof.
  unfold valid_header, payload. intros H. apply len_skipn. lia.
Qed.

(** The four ways the loop body treats a transfer that delivered data. *)

Lemma on_event_short (s : state) (pkt : list byte) :
  len pkt < 2 -> on_event bufsz s (Data pkt) = Continue s.
Proof.
  intros H. cbn [on_event].
  destruct (len pkt <? 2) eqn:E; [reflexivity | lia].
Qed.

Lemma on_event_raw (s : state) (pkt : list byte) :
  2 <= len pkt -> ~ valid_header pkt ->
  on_event bufsz s (Data pkt) = Continue (store_at bufsz s pkt (fid s)).
Proof.
  unfold valid_header. intros H2 Hv. cbn [on_event].
  destruct (len pkt <? 2) eqn:E; [lia |].
  destruct ((hlen_of pkt <? 2) || (hlen_of pkt >? len pkt)) eqn:E1.
  - reflexivity.
  - apply orb_false_iff in E1. lia.
Qed.

Lemma on_event_error (s : state) (pkt : list byte) :
  valid_header pkt -> flag BFH_ERR pkt = true ->
  on_event bufsz s (Data pkt) = Continue (mkState (buf s) 0 (-1)).
Proof.
  unfold valid_header, flag. intros Hv He. cbn [on_event].
  destruct (len pkt <? 2) eqn:E; [lia |].
  destruct ((hlen_of pkt <? 2) || (hlen_of pkt >? len pkt)) eqn:E1.
  - apply orb_true_iff in E1. lia.
  - rewrite He. reflexivity.
Qed.

Lemma on_event_flip (s : state) (pkt : list byte) :
  valid_header pkt -> flag BFH_ERR pkt = false ->
  0 <= fid s -> fid_bit pkt <> fid s -> 0 < off s ->
  on_event bufsz s (Data pkt) = Return (off s) s.
Proof.
  unfold valid_header, flag, fid_bit. intros Hv He Hf Hne Ho. cbn [on_event].
  destruct (len pkt <? 2) eqn:E; [lia |].
  destruct ((hlen_of pkt <? 2) || (hlen_of pkt >? len pkt)) eqn:E1.
  - apply orb_true_iff in E1. lia.
  - rewrite He.
    destruct ((fid s >=? 0) && negb (Z.land (bfh_of pkt) BFH_FID =? fid s)
              && (off s >? 0)) eqn:E2; [reflexivity |].
    apply andb_false_iff in E2. destruct E2 as [E2 | E2].
    + apply andb_false_iff in E2. destruct E2 as [E2 | E2].
      * lia.
      * apply negb_false_iff in E2. lia.
    + lia.
Qed.

Lemma on_event_payload (s : state) (pkt : list byte) :
  valid_header pkt -> flag BFH_ERR pkt = false ->
  (fid s < 0 \/ fid_bit pkt = fid s \/ off s <= 0) ->
  let s' := append bufsz s (payload pkt) (fid_bit pkt) in
  on_event bufsz s (Data pkt)
  = if flag BFH_EOF pkt then Return (off s') s' else Continue s'.
Proof.
  intros Hv He Hf. pose proof (len_payload pkt Hv) as Hp.
  unfold valid_header, flag, fid_bit in *. cbn [on_event].
  destruct (len pkt <? 2) eqn:E; [lia |].
  destruct ((hlen_of pkt <? 2) || (hlen_of pkt >? len pkt)) eqn:E1.
  { apply orb_true_iff in E1. lia. }
  rewrite He.
  destruct ((fid s >=? 0) && negb (Z.land (bfh_of pkt) BFH_FID =? fid s)
            && (off s >? 0)) eqn:E2.
  { apply andb_true_iff in E2. destruct E2 as [E2 E3].
    apply andb_true_iff in E2. destruct E2 as [E2 E4].
    apply negb_true_iff in E4. lia. }
  unfold append, store_at, payload in *. rewrite Hp. reflexivity.
Qed.

Lemma acc_length (s : state) :
  well_formed bufsz s -> length (acc s) = Z.to_nat (off s).
Proof.
  unfold well_formed, acc, prefix, len. intros [Ho Hb].
  rewrite length_firstn. lia.
Qed.

Lemma append_spec (s : state) (d : list byte) (c : Z) :
  well_formed bufsz s -> off s < bufsz ->
  well_formed bufsz (append bufsz s d c)
  /\ fid (append bufsz s d c) = c
  /\ off (append bufsz s d c) = Z.min bufsz (off s + len d)
  /\ acc (append bufsz s d c) = firstn (Z.to_nat bufsz) (acc s ++ d).
Proof.
  intros Hwf Hlt. unfold append.
  destruct (Z.gtb_spec (len d) 0) as [E | E].
  - apply store_at_spec; assumption.
  - assert (d = []) as ->.
    { destruct d; [reflexivity |]. unfold len in E. cbn [length] in E.
      exfalso. lia. }
    pose proof (acc_length s Hwf) as Hl.
    unfold well_formed in *. unfold acc in *. cbn [buf off fid].
    unfold len at 2. cbn [length].
    rewrite app_nil_r, firstn_all2 by lia.
    repeat split; lia.
Qed.

Lemma read_loop_done (evs : list event) (s : state) :
  bufsz <= off s -> read_loop bufsz evs s = Some (off s, buf s, evs).
Proof.
  intros H. destruct evs; cbn [read_loop];
    destruct (off s <? bufsz) eqn:E; try lia; reflexivity.
Qed.

Lemma read_loop_cons (ev : event) (rest : list event) (s : state) :
  off s < bufsz ->
  read_loop bufsz (ev :: rest) s
  = match on_event bufsz s ev with
    | Continue s' => read_loop bufsz rest s'
    | Return r s' => Some (r, buf s', rest)
    end.
Proof.
  intros H. cbn [read_loop].
  destruct (off s <? bufsz) eqn:E; [reflexivity | lia].
Qed.

(** A transfer that delivered data falls in exactly one of five cases. *)
Lemma data_cases (s : state) (pkt : list byte) :
  len pkt < 2
  \/ (2 <= len pkt /\ ~ valid_header pkt)
  \/ (valid_header pkt /\ flag BFH_ERR pkt = true)
  \/ (valid_header pkt /\ flag BFH_ERR pkt = false
      /\ 0 <= fid s /\ fid_bit pkt <> fid s /\ 0 < off s)
  \/ (valid_header pkt /\ flag BFH_ERR pkt = false
      /\ (fid s < 0 \/ fid_bit pkt = fid s \/ off s <= 0)).
Proof.
  unfold valid_header.
  destruct (flag BFH_ERR pkt) eqn:E.
  - assert (len pkt < 2 \/ 2 <= len pkt /\ ~ 2 <= hlen_of pkt <= len pkt
            \/ 2 <= hlen_of pkt <= len pkt) by lia.
    intuition.
  - assert (len pkt < 2 \/ 2 <= len pkt /\ ~ 2 <= hlen_of pkt <= len pkt
            \/ 2 <= hlen_of pkt <= len pkt) as [H | [H | H]] by lia;
      [ tauto | tauto | ].
    assert ((0 <= fid s /\ fid_bit pkt <> fid s /\ 0 < off s)
            \/ (fid s < 0 \/ fid_bit pkt = fid s \/ off s <= 0)) by lia.
    intuition.
Qed.

Lemma same_frame_prefix (s1 s2 : state) :
  same_frame s1 s2 ->
  prefix (off s1) (buf s1) = prefix (off s1) (buf s2).
Proof.
  intros (Ho & _ & Ha). unfold acc in Ha. rewrite Ha, Ho. reflexivity.
Qed.

(** The loop body keeps the state well formed. *)
Lemma on_event_well_formed (s : state) (ev : event) :
  well_formed bufsz s -> off s < bufsz ->
  match on_event bufsz s ev with
  | Continue s' => well_formed bufsz s'
  | Return _ s' => well_formed bufsz s'
  end.
Proof.
  intros Hwf Hlt. destruct ev as [ | | | | pkt]; try exact Hwf.
  destruct (data_cases s pkt) as [H | [[H1 H2] | [[H1 H2] | [H | H]]]].
  - rewrite on_event_short by assumption. exact Hwf.
  - rewrite on_event_raw by assumption. now apply store_at_spec.
  - rewrite on_event_error by assumption.
    unfold well_formed in *. cbn [buf off]. lia.
  - destruct H as (H1 & H2 & H3 & H4 & H5).
    rewrite on_event_flip by assumption. exact Hwf.
  - destruct H as (H1 & H2 & H3).
    rewrite on_event_payload by assumption. cbv zeta.
    destruct (flag BFH_EOF pkt); now apply append_spec.
Qed.

(** The loop body decides by the offset, the identity and the packet
    alone, and writes only at the offset: bytes of the destination
    beyond the accumulation have no influence on the frame. *)
Lemma on_event_related (s1 s2 : state) (ev : event) :
  same_frame s1 s2 -> well_formed bufsz s1 -> well_formed bufsz s2 ->
  off s1 < bufsz ->
  step_related bufsz (on_event bufsz s1 ev) (on_event bufsz s2 ev).
Proof.
  intros Hs Hw1 Hw2 Hlt.
  pose proof (same_frame_prefix s1 s2 Hs) as Hpre.
  destruct Hs as (Ho & Hf & Ha).
  assert (Hlt2 : off s2 < bufsz) by lia.
  destruct ev as [ | | | | pkt]; [cbn [on_event step_related] .. | ].
  - split; assumption.
  - split; [unfold same_frame; auto | split; assumption].
  - split; [unfold same_frame; auto | split; assumption].
  - split; reflexivity.
  - destruct (data_cases s1 pkt) as [H | [[H1 H2] | [[H1 H2] | [H | H]]]].
    + rewrite !on_event_short by assumption. cbn [step_related].
      split; [unfold same_frame; auto | split; assumption].
    + rewrite !on_event_raw by assumption. cbn [step_related].
      destruct (store_at_spec s1 pkt (fid s1) Hw1 Hlt) as (A1 & A2 & A3 & A4).
      destruct (store_at_spec s2 pkt (fid s2) Hw2 Hlt2) as (B1 & B2 & B3 & B4).
      split; [unfold same_frame; repeat split; congruence | split; assumption].
    + rewrite !on_event_error by assumption. cbn [step_related].
      unfold same_frame, well_formed, acc in *. cbn [buf off fid].
      repeat split; auto; lia.
    + destruct H as (H1 & H2 & H3 & H4 & H5).
      rewrite on_event_flip by assumption.
      rewrite on_event_flip by (try assumption; congruence || lia).
      cbn [step_related]. split; assumption.
    + destruct H as (H1 & H2 & H3).
      rewrite on_event_payload by assumption.
      rewrite on_event_payload by (try assumption; rewrite <- Hf, <- Ho; exact H3).
      cbv zeta.
      destruct (append_spec s1 (payload pkt) (fid_bit pkt) Hw1 Hlt)
        as (A1 & A2 & A3 & A4).
      destruct (append_spec s2 (payload pkt) (fid_bit pkt) Hw2 Hlt2)
        as (B1 & B2 & B3 & B4).
      assert (Hsame : same_frame (append bufsz s1 (payload pkt) (fid_bit pkt))
                        (append bufsz s2 (payload pkt) (fid_bit pkt))).
      { unfold same_frame. split; [| split]; congruence. }
      destruct (flag BFH_EOF pkt); cbn [step_related].
      * split; [apply Hsame | apply same_frame_prefix, Hsame].
      * auto.
Qed.

Lemma read_loop_related (evs : list event) :
  forall s1 s2,
    same_frame s1 s2 -> well_formed bufsz s1 -> well_formed bufsz s2 ->
    frame_of (read_loop bufsz evs s1) = frame_of (read_loop bufsz evs s2)
    /\ rest_of (read_loop bufsz evs s1) = rest_of (read_loop bufsz evs s2).
Proof.
  induction evs as [| ev rest IH]; intros s1 s2 Hs Hw1 Hw2.
  - pose proof (same_frame_prefix s1 s2 Hs) as Hpre.
    destruct Hs as (Ho & Hf & Ha). cbn [read_loop]. rewrite <- Ho.
    destruct (off s1 <? bufsz); cbn [frame_of rest_of]; [auto |].
    rewrite Hpre. auto.
  - destruct (Z_lt_dec (off s1) bufsz) as [Hlt | Hge].
    + pose proof (on_event_related s1 s2 ev Hs Hw1 Hw2 Hlt) as Hrel.
      destruct Hs as (Ho & Hf & Ha).
      rewrite !read_loop_cons by lia.
      destruct (on_event bufsz s1 ev) as [a | r a],
               (on_event bufsz s2 ev) as [b | r' b];
        cbn [step_related] in Hrel; try contradiction.
      * destruct Hrel as (R1 & R2 & R3). now apply IH.
      * destruct Hrel as [-> R2]. cbn [frame_of rest_of].
        rewrite R2. auto.
    + pose proof (same_frame_prefix s1 s2 Hs) as Hpre.
      destruct Hs as (Ho & Hf & Ha).
      rewrite !read_loop_done by lia. cbn [frame_of rest_of].
      rewrite <- Ho, Hpre. auto.
Qed.

Lemma firstn_fits {A} (l : list A) (n : Z) :
  len l <= n -> firstn (Z.to_nat n) l = l.
Proof. unfold len. intros H. apply firstn_all2. lia. Qed.

Lemma len_zero_nil {A} (l : list A) : len l <= 0 -> l = [].
Proof.
  destruct l; [reflexivity |]. unfold len. cbn [length]. intros H.
  exfalso. lia.
Qed.

(** One framed packet of the current frame, with room for its payload. *)
Lemma read_loop_framed (f : Z) (eof : bool) (p : list byte)
  (rest : list event) (s : state) :
  well_formed bufsz s -> off s < bufsz -> framed f eof p ->
  (fid s < 0 \/ fid s = f) -> off s + len (payload p) <= bufsz ->
  let s' := append bufsz s (payload p) f in
  well_formed bufsz s' /\ fid s' = f
  /\ off s' = off s + len (payload p)
  /\ acc s' = acc s ++ payload p
  /\ read_loop bufsz (Data p :: rest) s
     = if eof then Some (off s', buf s', rest) else read_loop bufsz rest s'.
Proof.
  intros Hwf Hlt (Hv & He & Hf & Heof) Hfid Hroom s'.
  destruct (append_spec s (payload p) f Hwf Hlt) as (A1 & A2 & A3 & A4).
  fold s' in A1, A2, A3, A4.
  split; [assumption | split; [assumption | split; [| split]]].
  - lia.
  - rewrite A4. apply firstn_fits. rewrite len_app.
    unfold len at 1. rewrite (acc_length s Hwf).
    destruct Hwf. lia.
  - rewrite read_loop_cons by assumption.
    rewrite on_event_payload by (try assumption; lia).
    cbv zeta. rewrite Hf, Heof. fold s'. destruct eof; reflexivity.
Qed.

(** Packets of one frame, the last one flagged end-of-frame, whose
    payloads fit: the call returns after the last one with the
    payloads appended to what it had. *)
Lemma read_loop_concat (f : Z) (last : list byte) (rest : list event) :
  framed f true last ->
  forall pkts s,
    well_formed bufsz s -> (fid s < 0 \/ fid s = f) ->
    Forall (framed f false) pkts ->
    off s + len (payloads (pkts ++ [last])) <= bufsz ->
    exists b rest',
      read_loop bufsz (map Data (pkts ++ [last]) ++ rest) s
      = Some (off s + len (payloads (pkts ++ [last])), b, rest')
      /\ prefix (off s + len (payloads (pkts ++ [last]))) b
         = acc s ++ payloads (pkts ++ [last])
      /\ (off s + len (payloads (pkts ++ [last])) < bufsz -> rest' = rest).
Proof.
  intros Hlast pkts.
  assert (Hfull : forall s d evs,
             well_formed bufsz s -> bufsz <= off s -> off s + len d <= bufsz ->
             exists b rest',
               read_loop bufsz evs s = Some (off s + len d, b, rest')
               /\ prefix (off s + len d) b = acc s ++ d
               /\ (off s + len d < bufsz -> rest' = rest)).
  { intros s d evs Hwf Hge Hroom. pose proof (len_nonneg d).
    assert (d = []) as -> by (apply len_zero_nil; lia).
    exists (buf s), evs. rewrite read_loop_done by assumption.
    unfold len. cbn [length]. rewrite Z.add_0_r, app_nil_r.
    repeat split. lia. }
  induction pkts as [| p pkts IH]; intros s Hwf Hfid Hall Hroom.
  - cbn [app map] in *. unfold payloads in *. cbn [map concat] in *.
    rewrite app_nil_r in *.
    destruct (Z_lt_dec (off s) bufsz) as [Hlt | Hge].
    + destruct (read_loop_framed f true last rest s Hwf Hlt Hlast Hfid Hroom)
        as (A1 & A2 & A3 & A4 & A5).
      eexists _, rest. rewrite A5, <- A3. repeat split.
      exact A4.
    + apply Hfull; [assumption | lia | assumption].
  - cbn [app map] in *. unfold payloads in *. cbn [map concat] in *.
    rewrite len_app in *.
    destruct (Z_lt_dec (off s) bufsz) as [Hlt | Hge].
    + inversion Hall as [| ? ? Hp Hrest]; subst.
      pose proof (len_nonneg (concat (map payload (pkts ++ [last])))) as Hnn.
      destruct (read_loop_framed f false p
                  (map Data (pkts ++ [last]) ++ rest) s Hwf Hlt Hp Hfid)
        as (A1 & A2 & A3 & A4 & A5); [lia |].
      destruct (IH _ A1 (or_intror A2) Hrest) as (b & rest' & B1 & B2 & B3).
      { rewrite A3. lia. }
      exists b, rest'. rewrite A5, B1. rewrite A3, A4 in *.
      rewrite <- Z.add_assoc, <- app_assoc in *.
      repeat split; assumption.
    + rewrite <- len_app in *. apply Hfull; [assumption | lia | assumption].
Qed.

End ReassemblerFacts.

Import Reassembler.

(** C1.  Packets with valid headers, no error bit and one identity bit,
    only the last of them flagged end-of-frame, whose payloads together
    fit the byte budget (1 MiB at the call sites): [read_frame] returns
    the total payload length and the frame is exactly the payloads in
    order.  When the payloads do not fill the budget the call stops right
    after the flagged packet.  In particular three packets with header
    length 2, identity bit 0 and 50 payload bytes each, the third flagged
    end-of-frame, give one frame of 150 bytes, with a budget of 1 MiB. *)
Theorem read_frame_concatenates_payloads :
  (forall (bufsz f : Z) (pkts : list (list byte)) (last : list byte)
          (rest : list event) (b : list byte),
      bufsz <= len b ->
      Forall (framed f false) pkts -> framed f true last ->
      len (payloads (pkts ++ [last])) <= bufsz ->
      exists b' rest',
        read_frame bufsz (map Data (pkts ++ [last]) ++ rest) b
        = Some (len (payloads (pkts ++ [last])), b', rest')
        /\ prefix (len (payloads (pkts ++ [last]))) b'
           = payloads (pkts ++ [last])
        /\ (len (payloads (pkts ++ [last])) < bufsz -> rest' = rest))
  /\ (forall (d1 d2 d3 : list byte) (rest : list event) (b : list byte),
         MAX_FRAME_SIZE <= len b ->
         len d1 = 50 -> len d2 = 50 -> len d3 = 50 ->
         exists b',
           read_frame MAX_FRAME_SIZE
             (Data (x02 :: x00 :: d1) :: Data (x02 :: x00 :: d2)
                :: Data (x02 :: x02 :: d3) :: rest) b
           = Some (150, b', rest)
           /\ prefix 150 b' = d1 ++ d2 ++ d3).
Proof.
  assert (General :
    forall (bufsz f : Z) (pkts : list (list byte)) (last : list byte)
           (rest : list event) (b : list byte),
      bufsz <= len b ->
      Forall (framed f false) pkts -> framed f true last ->
      len (payloads (pkts ++ [last])) <= bufsz ->
      exists b' rest',
        read_frame bufsz (map Data (pkts ++ [last]) ++ rest) b
        = Some (len (payloads (pkts ++ [last])), b', rest')
        /\ prefix (len (payloads (pkts ++ [last]))) b'
           = payloads (pkts ++ [last])
        /\ (len (payloads (pkts ++ [last])) < bufsz -> rest' = rest)).
  { intros bufsz f pkts last rest b Hb Hall Hlast Hfit.
    pose proof (len_nonneg (payloads (pkts ++ [last]))) as Hnn.
    destruct (read_loop_concat bufsz f last rest Hlast pkts (mkState b 0 (-1)))
      as (b' & rest' & R1 & R2 & R3); cbn [off fid buf]; try assumption.
    - unfold well_formed. cbn [off buf]. lia.
    - left. lia.
    - exists b', rest'. unfold read_frame.
      cbn [off] in *. rewrite Z.add_0_l in *. repeat split; assumption. }
  split; [exact General |].
  intros d1 d2 d3 rest b Hb H1 H2 H3.
  assert (Hpk : forall (fl : byte) (d : list byte) (eof : bool),
             len d = 50 -> (fl = x00 /\ eof = false \/ fl = x02 /\ eof = true) ->
             framed 0 eof (x02 :: fl :: d) /\ payload (x02 :: fl :: d) = d).
  { intros fl d eof Hd Hfl. unfold framed, valid_header, payload, flag, fid_bit.
    unfold hlen_of, bfh_of, byte_at, len in *. cbn [nth Z.to_nat length].
    change (Pos.to_nat 1) with 1%nat. cbn [nth].
    change (u8 x02) with 2. change (Z.to_nat 2) with 2%nat. cbn [skipn].
    destruct Hfl as [[-> ->] | [-> ->]]; repeat split; try reflexivity; lia. }
  destruct (Hpk x00 d1 false H1) as [F1 P1]; [auto |].
  destruct (Hpk x00 d2 false H2) as [F2 P2]; [auto |].
  destruct (Hpk x02 d3 true H3) as [F3 P3]; [auto |].
  assert (Htot : payloads ([x02 :: x00 :: d1; x02 :: x00 :: d2] ++ [x02 :: x02 :: d3])
                 = d1 ++ d2 ++ d3).
  { unfold payloads. cbn [app map concat]. rewrite P1, P2, P3, app_nil_r.
    reflexivity. }
  assert (Hlen : len (d1 ++ d2 ++ d3) = 150) by (rewrite !len_app; lia).
  destruct (General MAX_FRAME_SIZE 0
              [x02 :: x00 :: d1; x02 :: x00 :: d2] (x02 :: x02 :: d3) rest b)
    as (b' & rest' & R1 & R2 & R3); try assumption.
  - constructor; [assumption | constructor; [assumption | constructor]].
  - rewrite Htot, Hlen. unfold MAX_FRAME_SIZE. lia.
  - rewrite Htot, Hlen in *. exists b'.
    rewrite R3 in R1 by (unfold MAX_FRAME_SIZE; lia).
    split; assumption.
Qed.

Lemma read_frame_concatenates_payloads_witness :
  16 <= len (repeat x00 16)
  /\ Forall (framed 0 false) [[x02; x00; xaa]]
  /\ framed 0 true [x02; x02; xbb]
  /\ len (payloads ([[x02; x00; xaa]] ++ [[x02; x02; xbb]])) <= 16
  /\ exists b' rest',
       read_frame 16 (map Data ([[x02; x00; xaa]] ++ [[x02; x02; xbb]]) ++ [])
         (repeat x00 16)
       = Some (len (payloads ([[x02; x00; xaa]] ++ [[x02; x02; xbb]])), b', rest')
       /\ prefix (len (payloads ([[x02; x00; xaa]] ++ [[x02; x02; xbb]]))) b'
          = payloads ([[x02; x00; xaa]] ++ [[x02; x02; xbb]])
       /\ (len (payloads ([[x02; x00; xaa]] ++ [[x02; x02; xbb]])) < 16
           -> rest' = []).
Proof.
  assert (H1 : 16 <= len (repeat x00 16)) by reflexivity.
  assert (H2 : Forall (framed 0 false) [[x02; x00; xaa]]).
  { constructor; [| constructor].
    unfold framed, valid_header. by_evaluation. }
  assert (H3 : framed 0 true [x02; x02; xbb]).
  { unfold framed, valid_header. by_evaluation. }
  assert (H4 : len (payloads ([[x02; x00; xaa]] ++ [[x02; x02; xbb]])) <= 16).
  { vm_compute. congruence. }
  split; [exact H1 | split; [exact H2 | split; [exact H3 | split; [exact H4 |]]]].
  exact (proj1 read_frame_concatenates_payloads 16 0 [[x02; x00; xaa]]
           [x02; x02; xbb] [] (repeat x00 16) H1 H2 H3 H4).
Defined.

(** C2 (as the code has it).  While bytes are accumulated and an identity
    is tracked, a valid-header packet without error bit whose identity bit
    differs ends the call: it returns the previous accumulation, buffer
    and length unchanged.  The packet itself is consumed by that call and
    none of its bytes is stored; the events left for the next call are
    those after it. *)
Theorem identity_flip_seals_previous :
  forall (bufsz : Z) (s : state) (pkt : list byte) (rest : list event),
    off s < bufsz ->
    valid_header pkt -> flag BFH_ERR pkt = false ->
    0 <= fid s -> fid_bit pkt <> fid s -> 0 < off s ->
    on_event bufsz s (Data pkt) = Return (off s) s
    /\ read_loop bufsz (Data pkt :: rest) s = Some (off s, buf s, rest)
    /\ frame_of (read_loop bufsz (Data pkt :: rest) s) = Some (off s, acc s).
Proof.
  intros bufsz s pkt rest Hlt Hv He Hf Hne Ho.
  pose proof (on_event_flip bufsz s pkt Hv He Hf Hne Ho) as Hstep.
  assert (Hloop : read_loop bufsz (Data pkt :: rest) s = Some (off s, buf s, rest)).
  { rewrite read_loop_cons by assumption. rewrite Hstep. reflexivity. }
  split; [exact Hstep | split; [exact Hloop |]].
  rewrite Hloop. reflexivity.
Qed.

Lemma identity_flip_seals_previous_witness :
  let s := mkState (xaa :: repeat x00 7) 1 0 in
  let pkt := [x02; x01; xbb] in
  on_event 8 s (Data pkt) = Return (off s) s
  /\ read_loop 8 (Data pkt :: []) s = Some (off s, buf s, [])
  /\ frame_of (read_loop 8 (Data pkt :: []) s) = Some (off s, acc s).
Proof.
  intros s pkt.
  apply (identity_flip_seals_previous 8 s pkt []).
  - reflexivity.
  - unfold valid_header. by_evaluation.
  - reflexivity.
  - vm_compute. congruence.
  - vm_compute. congruence.
  - reflexivity.
Defined.

(** C2 as stated does not hold: the payload of the packet whose identity
    bit flipped is in neither frame.  Three packets with one payload byte
    each, identity bits 0, 1, 1, the last flagged end-of-frame: the first
    call returns the frame [aa], the second the frame [cc]; the byte [bb]
    of the flipping packet is lost. *)
Lemma identity_flip_drops_payload :
  let evs := [Data [x02; x00; xaa]; Data [x02; x01; xbb]; Data [x02; x03; xcc]] in
  exists b1 b2,
    read_frame 8 evs (repeat x00 8) = Some (1, b1, [Data [x02; x03; xcc]])
    /\ prefix 1 b1 = [xaa]
    /\ read_frame 8 [Data [x02; x03; xcc]] b1 = Some (1, b2, [])
    /\ prefix 1 b2 = [xcc]
    /\ payload [x02; x01; xbb] = [xbb]
    /\ ~ In xbb (prefix 1 b1 ++ prefix 1 b2).
Proof.
  intros evs.
  exists (xaa :: repeat x00 7), (xcc :: repeat x00 7).
  repeat split; try reflexivity.
  cbn. intros [H | [H | []]]; discriminate H.
Qed.

(** C3.  A valid-header packet with the error bit set resets the offset to
    0 and the identity to -1.  What the call returns afterwards is what a
    fresh call on any buffer returns from the packets after the error
    packet alone: the frame has no byte received before it. *)
Theorem error_packet_discards_accumulation :
  forall (bufsz : Z) (s : state) (pkt : list byte) (rest : list event)
         (b0 : list byte),
    well_formed bufsz s -> off s < bufsz ->
    valid_header pkt -> flag BFH_ERR pkt = true ->
    bufsz <= len b0 ->
    on_event bufsz s (Data pkt) = Continue (mkState (buf s) 0 (-1))
    /\ frame_of (read_loop bufsz (Data pkt :: rest) s)
       = frame_of (read_frame bufsz rest b0)
    /\ rest_of (read_loop bufsz (Data pkt :: rest) s)
       = rest_of (read_frame bufsz rest b0).
Proof.
  intros bufsz s pkt rest b0 Hwf Hlt Hv He Hb0.
  pose proof (on_event_error bufsz s pkt Hv He) as Hstep.
  split; [exact Hstep |].
  rewrite read_loop_cons by assumption. rewrite Hstep.
  unfold read_frame. apply read_loop_related.
  - unfold same_frame, acc. cbn [off fid buf]. auto.
  - unfold well_formed in *. cbn [off buf]. lia.
  - unfold well_formed in *. cbn [off buf]. lia.
Qed.

Lemma error_packet_discards_accumulation_witness :
  let s := mkState (xaa :: repeat x00 7) 1 0 in
  let pkt := [x02; x40; xbb] in
  let rest := [Data [x02; x03; xcc]] in
  on_event 8 s (Data pkt) = Continue (mkState (buf s) 0 (-1))
  /\ frame_of (read_loop 8 (Data pkt :: rest) s)
     = frame_of (read_frame 8 rest (repeat xff 8))
  /\ rest_of (read_loop 8 (Data pkt :: rest) s)
     = rest_of (read_frame 8 rest (repeat xff 8)).
Proof.
  intros s pkt rest.
  apply (error_packet_discards_accumulation 8 s pkt rest (repeat xff 8)).
  - unfold well_formed. by_evaluation.
  - reflexivity.
  - unfold valid_header. by_evaluation.
  - reflexivity.
  - vm_compute. congruence.
Defined.

(** C4 (as the code has it).  For a packet with a valid header the
    payload is the [length - header_length] bytes after the header, and a
    packet that is appended (no error bit, no identity flip that seals
    the frame) extends the accumulation by exactly these bytes, cut at
    the byte budget.  A packet of at least 2 bytes whose header is not
    valid is appended whole, header bytes included, cut at the budget,
    and leaves the identity as it was.  A packet shorter than 2 bytes is
    skipped. *)
Theorem packet_contribution :
  forall (bufsz : Z) (s : state) (pkt : list byte),
    well_formed bufsz s -> off s < bufsz ->
    (valid_header pkt ->
       len (payload pkt) = len pkt - hlen_of pkt
       /\ len (payload pkt) <= len pkt
       /\ (flag BFH_ERR pkt = false ->
           (fid s < 0 \/ fid_bit pkt = fid s \/ off s <= 0) ->
           exists s',
             (on_event bufsz s (Data pkt) = Continue s'
              \/ on_event bufsz s (Data pkt) = Return (off s') s')
             /\ acc s' = firstn (Z.to_nat bufsz) (acc s ++ payload pkt)
             /\ (off s + len (payload pkt) <= bufsz
                 -> acc s' = acc s ++ payload pkt)))
    /\ (2 <= len pkt -> ~ valid_header pkt ->
        exists s',
          on_event bufsz s (Data pkt) = Continue s'
          /\ fid s' = fid s
          /\ acc s' = firstn (Z.to_nat bufsz) (acc s ++ pkt)
          /\ (off s + len pkt <= bufsz -> acc s' = acc s ++ pkt))
    /\ (len pkt < 2 -> on_event bufsz s (Data pkt) = Continue s).
Proof.
  intros bufsz s pkt Hwf Hlt.
  assert (Hfit : forall d, off s + len d <= bufsz ->
                           firstn (Z.to_nat bufsz) (acc s ++ d) = acc s ++ d).
  { intros d Hd. apply firstn_fits. rewrite len_app. unfold len at 1.
    rewrite (acc_length bufsz s Hwf). destruct Hwf. lia. }
  split; [| split].
  - intros Hv. pose proof (len_payload pkt Hv) as Hp.
    split; [exact Hp |]. split; [unfold valid_header in Hv; lia |].
    intros He Hf.
    destruct (append_spec bufsz s (payload pkt) (fid_bit pkt) Hwf Hlt)
      as (A1 & A2 & A3 & A4).
    exists (append bufsz s (payload pkt) (fid_bit pkt)).
    split; [| split].
    + rewrite (on_event_payload bufsz s pkt Hv He Hf). cbv zeta.
      destruct (flag BFH_EOF pkt); auto.
    + exact A4.
    + intros Hroom. rewrite A4. apply Hfit, Hroom.
  - intros H2 Hnv.
    destruct (store_at_spec bufsz s pkt (fid s) Hwf Hlt) as (A1 & A2 & A3 & A4).
    exists (store_at bufsz s pkt (fid s)).
    split; [apply on_event_raw; assumption |].
    split; [exact A2 |]. split; [exact A4 |].
    intros Hroom. rewrite A4. apply Hfit, Hroom.
  - apply on_event_short.
Qed.

Lemma packet_contribution_witness :
  let s := mkState (xaa :: repeat x00 7) 1 0 in
  let pkt := [x02; x00; xbb] in
  (valid_header pkt ->
     len (payload pkt) = len pkt - hlen_of pkt
     /\ len (payload pkt) <= len pkt
     /\ (flag BFH_ERR pkt = false ->
         (fid s < 0 \/ fid_bit pkt = fid s \/ off s <= 0) ->
         exists s',
           (on_event 8 s (Data pkt) = Continue s'
            \/ on_event 8 s (Data pkt) = Return (off s') s')
           /\ acc s' = firstn (Z.to_nat 8) (acc s ++ payload pkt)
           /\ (off s + len (payload pkt) <= 8
               -> acc s' = acc s ++ payload pkt)))
  /\ (2 <= len pkt -> ~ valid_header pkt ->
      exists s',
        on_event 8 s (Data pkt) = Continue s'
        /\ fid s' = fid s
        /\ acc s' = firstn (Z.to_nat 8) (acc s ++ pkt)
        /\ (off s + len pkt <= 8 -> acc s' = acc s ++ pkt))
  /\ (len pkt < 2 -> on_event 8 s (Data pkt) = Continue s).
Proof.
  intros s pkt.
  apply (packet_contribution 8 s pkt).
  - unfold well_formed. by_evaluation.
  - reflexivity.
Defined.

(** C4 as stated does not hold for a packet of one byte: its header fails
    the validity rule, and the packet is skipped, not copied. *)
Lemma one_byte_packet_is_skipped :
  let s := mkState (repeat x00 8) 0 (-1) in
  ~ valid_header [x05]
  /\ on_event 8 s (Data [x05]) = Continue s
  /\ acc s = []
  /\ acc s <> acc s ++ [x05].
Proof.
  intros s. split; [| split; [| split]].
  - unfold valid_header. vm_compute. intros [H1 H2]. apply H2. reflexivity.
  - reflexivity.
  - reflexivity.
  - cbn. discriminate.
Qed.

(** ** Metadata stripper *)

Section MetaFacts.

Import Meta.

Lemma has_meta_iff (v : view) :
  has_meta v = true
  <-> 12 < pixlen v /\ at_pix v 1 = 0x00 /\ at_pix v 2 = 0xe8
      /\ at_pix v 3 = 0x03.
Proof.
  unfold has_meta. rewrite !andb_true_iff, !Z.eqb_eq.
  rewrite Z.gtb_ltb, Z.ltb_lt. tauto.
Qed.

Lemma has_meta_whole (l : list byte) :
  has_meta (whole l) = true <-> signature l.
Proof.
  rewrite has_meta_iff. unfold signature, whole, at_pix. cbn [base pix pixlen].
  reflexivity.
Qed.

Lemma bytes_whole (l : list byte) : bytes (whole l) = l.
Proof.
  unfold bytes, data, whole. cbn [base pix pixlen]. cbn [Z.to_nat skipn].
  apply firstn_all2. unfold len. lia.
Qed.

End MetaFacts.

Import Meta.

(** C5.  On every view the stripper leaves the buffer as it is and either
    reports 1 and moves the window 10 bytes forward (start + 10,
    length - 10), exactly when the length exceeds 12 and the bytes 1, 2, 3
    of the window are 0x00, 0xE8, 0x03, or reports 0 and leaves the view
    unchanged; the lengths differ by 0 or by 10.  On a byte sequence taken
    whole, the bytes of the result are the sequence without its first 10
    bytes in the first case, the sequence itself in the second. *)
Theorem strip_meta_header_strips_0_or_10 :
  (forall v : view,
      base (snd (strip_meta_header v)) = base v
      /\ ((12 < pixlen v /\ at_pix v 1 = 0x00 /\ at_pix v 2 = 0xe8
           /\ at_pix v 3 = 0x03)
          /\ fst (strip_meta_header v) = 1
          /\ pix (snd (strip_meta_header v)) = pix v + 10
          /\ pixlen (snd (strip_meta_header v)) = pixlen v - 10
          \/
          ~ (12 < pixlen v /\ at_pix v 1 = 0x00 /\ at_pix v 2 = 0xe8
             /\ at_pix v 3 = 0x03)
          /\ fst (strip_meta_header v) = 0
          /\ snd (strip_meta_header v) = v)
      /\ (pixlen v - pixlen (snd (strip_meta_header v)) = 0
          \/ pixlen v - pixlen (snd (strip_meta_header v)) = 10))
  /\ (forall l : list byte,
         (signature l
          /\ fst (strip_meta_header (whole l)) = 1
          /\ bytes (snd (strip_meta_header (whole l))) = skipn 10 l
          /\ len (bytes (snd (strip_meta_header (whole l)))) = len l - 10)
         \/
         (~ signature l
          /\ fst (strip_meta_header (whole l)) = 0
          /\ bytes (snd (strip_meta_header (whole l))) = l)).
Proof.
  split.
  - intros v. pose proof (has_meta_iff v) as Hm.
    unfold strip_meta_header. destruct (has_meta v); cbn [fst snd base pix pixlen].
    + split; [reflexivity |]. split; [| right; lia].
      left. split; [apply Hm; reflexivity |]. auto.
    + split; [reflexivity |]. split; [| left; lia].
      right. split; [| auto]. intros H. apply Hm in H. discriminate H.
  - intros l. pose proof (has_meta_whole l) as Hm.
    unfold strip_meta_header. destruct (has_meta (whole l)); cbn [fst snd].
    + left. assert (Hs : signature l) by (apply Hm; reflexivity).
      split; [exact Hs |]. split; [reflexivity |].
      assert (Hb : bytes (mkView (base (whole l)) (pix (whole l) + 10)
                            (pixlen (whole l) - 10)) = skipn 10 l).
      { unfold bytes, data, whole. cbn [base pix pixlen].
        change (Z.to_nat (0 + 10)) with 10%nat.
        apply firstn_all2. rewrite length_skipn. unfold len. lia. }
      split; [exact Hb |]. rewrite Hb.
      destruct Hs as [Hl _]. unfold len in *. rewrite length_skipn. lia.
    + right. split; [| split; [reflexivity | apply bytes_whole]].
      intros H. apply Hm in H. discriminate H.
Qed.

(** ** Gates of the viewer loop *)

Import Pipeline.

Lemma size_band_reject_off (hold_on : bool) (L pixlen : Z) :
  hold_on = false \/ L <= 0 -> size_band_reject hold_on L pixlen = false.
Proof.
  intros [-> | H]; unfold size_band_reject; [reflexivity |].
  destruct (Z.gtb_spec L 0) as [H' | _]; [lia |].
  rewrite andb_false_r. reflexivity.
Qed.

(** C6.  With frame-hold on and a size lock of 1000 the gate lets 800 and
    1200 through and skips 799 and 1201.  For every locked size [L > 0]
    that an [int] product with 120 can hold, a frame is skipped exactly
    when its length is below [L * (100 - 20) / 100] or above
    [L * (100 + 20) / 100], both in integer arithmetic.  Without
    frame-hold or without a lock the gate skips nothing. *)
Theorem size_band_gate :
  (size_band_reject true 1000 800 = false
   /\ size_band_reject true 1000 1200 = false
   /\ size_band_reject true 1000 799 = true
   /\ size_band_reject true 1000 1201 = true)
  /\ (forall L pixlen : Z,
         0 < L -> L * 120 <= INT_MAX ->
         (size_band_reject true L pixlen = true
          <-> (pixlen < L * (100 - 20) ÷ 100 \/ L * (100 + 20) ÷ 100 < pixlen)))
  /\ (forall (hold_on : bool) (L pixlen : Z),
         hold_on = false \/ L <= 0 -> size_band_reject hold_on L pixlen = false).
Proof.
  split; [repeat split; reflexivity |]. split.
  - intros L pixlen HL Hmax. unfold size_band_reject, size_tolerance.
    cbn [andb]. destruct (Z.gtb_spec L 0) as [_ | H]; [| lia].
    unfold INT_MAX in Hmax.
    rewrite !to_int_small by (unfold INT_MAX; lia).
    rewrite orb_true_iff, Z.ltb_lt, Z.gtb_ltb, Z.ltb_lt. reflexivity.
  - apply size_band_reject_off.
Qed.

Lemma size_band_gate_witness :
  (0 < 1000 /\ 1000 * 120 <= INT_MAX)
  /\ (size_band_reject true 1000 1300 = true
      <-> (1300 < 1000 * (100 - 20) ÷ 100 \/ 1000 * (100 + 20) ÷ 100 < 1300)).
Proof.
  assert (H1 : 0 < 1000) by reflexivity.
  assert (H2 : 1000 * 120 <= INT_MAX) by (vm_compute; congruence).
  split; [split; assumption |].
  exact (proj1 (proj2 size_band_gate) 1000 1300 H1 H2).
Defined.

Lemma lower_brightness_values (x : Z) :
  In x [15; 10; 5; 0] ->
  In (lower_brightness x) [15; 10; 5; 0]
  /\ lower_brightness x = Z.max (x - 5) 0
  /\ 0 <= lower_brightness x.
Proof.
  cbn [In]. intros [H | [H | [H | [H | []]]]]; subst x; vm_compute;
    (split; [auto 8 | split; [reflexivity | congruence]]).
Qed.

Lemma floor_after_values (n : nat) : In (floor_after n) [15; 10; 5; 0].
Proof.
  induction n as [| n IH].
  - left. reflexivity.
  - change (floor_after (S n)) with (lower_brightness (floor_after n)).
    apply lower_brightness_values, IH.
Qed.

(** C9.  The brightness floor starts at 15 and only the B key changes it.
    Whatever number of presses led to the current floor, one more press
    replaces it by [max (old - 5) 0], which is never below 0; the floor
    is always one of 15, 10, 5, 0. *)
Theorem lower_brightness_floor :
  forall n : nat,
    floor_after (S n) = lower_brightness (floor_after n)
    /\ lower_brightness (floor_after n) = Z.max (floor_after n - 5) 0
    /\ 0 <= lower_brightness (floor_after n)
    /\ In (floor_after n) [15; 10; 5; 0].
Proof.
  intros n. pose proof (floor_after_values n) as H.
  destruct (lower_brightness_values _ H) as (_ & H1 & H2).
  split; [reflexivity |]. split; [exact H1 |]. split; [exact H2 | exact H].
Qed.

(** ** Classifier *)

Section ClassifierFacts.

Import Classifier.

Lemma fold_range_sum_const (f : Z -> Z) (c : Z) :
  forall (n : nat) (i a : Z),
    (forall j, i <= j < i + Z.of_nat n -> f j = c) ->
    fold_range n i (fun j s => s + f j) a = a + c * Z.of_nat n.
Proof.
  induction n as [| n IH]; intros i a H; cbn [fold_range].
  - cbn. lia.
  - rewrite IH by (intros j Hj; apply H; lia).
    rewrite (H i) by lia. lia.
Qed.

Lemma fold_range_ext {S : Type} (f g : Z -> S -> S) :
  forall (n : nat) (i : Z) (a : S),
    (forall j s, i <= j < i + Z.of_nat n -> f j s = g j s) ->
    fold_range n i f a = fold_range n i g a.
Proof.
  induction n as [| n IH]; intros i a H; cbn [fold_range]; [reflexivity |].
  rewrite (H i) by lia. apply IH. intros j s Hj. apply H. lia.
Qed.

Lemma nth_repeat_in (b d : byte) :
  forall (n k : nat), (k < n)%nat -> nth k (repeat b n) d = b.
Proof.
  induction n as [| n IH]; intros k Hk; [lia |].
  destruct k; cbn [repeat nth]; [reflexivity | apply IH; lia].
Qed.

Lemma nth_alternating (d : byte) :
  forall (n : nat) (a b : byte) (k : nat),
    (S k < n)%nat ->
    (nth k (alternating a b n) d = a /\ nth (S k) (alternating a b n) d = b)
    \/ (nth k (alternating a b n) d = b /\ nth (S k) (alternating a b n) d = a).
Proof.
  induction n as [| n IH]; intros a b k Hk; [lia |].
  destruct k as [| k].
  - left. destruct n as [| n]; [lia |]. cbn. auto.
  - cbn [alternating].
    change (nth (S k) (a :: alternating b a n) d)
      with (nth k (alternating b a n) d).
    change (nth (S (S k)) (a :: alternating b a n) d)
      with (nth (S k) (alternating b a n) d).
    destruct (IH b a k) as [H | H]; [lia | right; exact H | left; exact H].
Qed.

Lemma length_alternating :
  forall (n : nat) (a b : byte), length (alternating a b n) = n.
Proof.
  induction n as [| n IH]; intros a b; cbn [alternating length];
    [reflexivity | rewrite IH; reflexivity].
Qed.

(** Binary64 division on the two families of sums the test inputs
    produce, by evaluation of all 3999 quotients. *)
Lemma quotients_zero : quotients (fun _ => 0) = repeat 0%float 3999.
Proof. vm_compute. reflexivity. Qed.

Lemma quotients_255 :
  quotients (fun k => 255 * Z.of_nat k) = repeat 255%float 3999.
Proof. vm_compute. reflexivity. Qed.

Lemma quotients_nth (num : nat -> Z) (d : Z) :
  1 <= d <= 3999 ->
  nth (Z.to_nat (d - 1)) (quotients num) 0%float
  = (double_of (num (Z.to_nat d)) / double_of d)%float.
Proof.
  intros Hd. unfold quotients.
  set (f := fun k => (double_of (num k) / double_of (Z.of_nat k))%float).
  rewrite (nth_indep _ 0%float (f O))
    by (rewrite length_map, length_seq; lia).
  rewrite map_nth, seq_nth by lia.
  replace (1 + Z.to_nat (d - 1))%nat with (Z.to_nat d) by lia.
  unfold f. rewrite Z2Nat.id by lia. reflexivity.
Qed.

Lemma ratio_facts (d : Z) :
  1 <= d <= 3999 ->
  (double_of 0 / double_of d = 0)%float
  /\ (double_of (255 * d) / double_of d = 255)%float
  /\ is_interleaved (double_of 0 / double_of d) = false
  /\ is_interleaved (double_of (255 * d) / double_of d) = true.
Proof.
  intros Hd.
  assert (H0 : (double_of 0 / double_of d = 0)%float).
  { rewrite <- (quotients_nth (fun _ => 0) d Hd), quotients_zero.
    apply nth_repeat. }
  assert (H255 : (double_of (255 * d) / double_of d = 255)%float).
  { pose proof (quotients_nth (fun k => 255 * Z.of_nat k) d Hd) as H.
    cbv beta in H. rewrite Z2Nat.id in H by lia.
    rewrite <- H, quotients_255.
    rewrite (nth_indep _ 0%float 255%float) by (rewrite repeat_length; lia).
    apply nth_repeat. }
  rewrite H0, H255. repeat split; reflexivity.
Qed.

Lemma check_of_range (n : Z) : 2 <= n -> 2 <= check_of n <= 4000 /\ check_of n <= n.
Proof.
  intros H. unfold check_of. destruct (Z.ltb_spec n 4000); lia.
Qed.

Lemma neighbor_sum_repeat (b : byte) (n : nat) (check : Z) :
  check <= Z.of_nat n -> neighbor_sum (repeat b n) check = 0.
Proof.
  intros H. unfold neighbor_sum.
  rewrite (fold_range_sum_const
             (fun i => Z.abs (byte_at (repeat b n) i - byte_at (repeat b n) (i - 1)))
             0).
  - lia.
  - intros j Hj. unfold byte_at.
    rewrite !nth_repeat_in by lia. lia.
Qed.

Lemma neighbor_sum_alternating (n : nat) (check : Z) :
  1 <= check <= Z.of_nat n ->
  neighbor_sum (alternating x00 xff n) check = 255 * (check - 1).
Proof.
  intros H. unfold neighbor_sum.
  rewrite (fold_range_sum_const
             (fun i => Z.abs (byte_at (alternating x00 xff n) i
                              - byte_at (alternating x00 xff n) (i - 1)))
             255).
  - lia.
  - intros j Hj. unfold byte_at.
    replace (Z.to_nat j) with (S (Z.to_nat (j - 1))) by lia.
    destruct (nth_alternating x00 n x00 xff (Z.to_nat (j - 1))) as [[-> ->] | [-> ->]];
      [lia | reflexivity | reflexivity].
Qed.

Lemma neighbor_sum_firstn (p : list byte) (check : Z) :
  check <= 4000 -> neighbor_sum (firstn 4000 p) check = neighbor_sum p check.
Proof.
  intros H. unfold neighbor_sum. apply fold_range_ext.
  intros j s Hj. unfold byte_at.
  assert (Hn : forall k, (k < 4000)%nat -> nth k (firstn 4000 p) x00 = nth k p x00).
  { intros k Hk. rewrite <- (firstn_skipn 4000 p) at 2.
    destruct (Nat.lt_ge_cases k (length (firstn 4000 p))) as [Hlt | Hge].
    - rewrite app_nth1 by assumption. reflexivity.
    - rewrite (nth_overflow (firstn 4000 p)) by assumption.
      rewrite length_firstn in Hge.
      assert (Hp : (length p <= k)%nat) by lia.
      rewrite firstn_skipn. rewrite nth_overflow by assumption. reflexivity. }
  rewrite !Hn by lia. reflexivity.
Qed.

End ClassifierFacts.

Import Classifier.

(** C7.  [neighbor_diff] of a buffer is [neighbor_diff] of its first 4000
    bytes.  On every constant input it is 0 and the frame is not labeled
    interleaved.  On every input of length at least 2 that alternates
    0x00, 0xFF it is 255 and the frame is labeled interleaved.  The label
    is the comparison [25.0 < neighbor_diff]. *)
Theorem neighbor_diff_classifies :
  (forall p : list byte,
      neighbor_diff p (len p) = neighbor_diff (firstn 4000 p) (len (firstn 4000 p)))
  /\ (forall (b : byte) (n : nat),
         neighbor_diff (repeat b n) (len (repeat b n)) = 0%float
         /\ is_interleaved (neighbor_diff (repeat b n) (len (repeat b n))) = false)
  /\ (forall n : nat,
         (2 <= n)%nat ->
         neighbor_diff (alternating x00 xff n) (len (alternating x00 xff n))
         = 255%float
         /\ is_interleaved
              (neighbor_diff (alternating x00 xff n) (len (alternating x00 xff n)))
            = true)
  /\ (forall (p : list byte) (n : Z),
         is_interleaved (neighbor_diff p n) = true
         <-> (25 <? neighbor_diff p n)%float = true).
Proof.
  split; [| split; [| split]].
  - intros p. unfold neighbor_diff, len.
    rewrite length_firstn.
    destruct (Nat.le_ge_cases (length p) 4000) as [Hle | Hge].
    + rewrite firstn_all2 by assumption.
      replace (Nat.min 4000 (length p)) with (length p) by lia. reflexivity.
    + replace (Nat.min 4000 (length p)) with 4000%nat by lia.
      destruct (Z.ltb_spec (Z.of_nat (length p)) 2) as [H | H]; [lia |].
      change (Z.of_nat 4000 <? 2) with false. cbv iota.
      unfold check_of. change (Z.of_nat 4000 <? 4000) with false. cbv iota.
      destruct (Z.ltb_spec (Z.of_nat (length p)) 4000) as [H' | H']; [lia |].
      rewrite neighbor_sum_firstn by lia. reflexivity.
  - intros b n. unfold neighbor_diff, len. rewrite repeat_length.
    destruct (Z.ltb_spec (Z.of_nat n) 2) as [H | H]; [split; reflexivity |].
    destruct (check_of_range (Z.of_nat n) H) as [Hc Hn].
    rewrite neighbor_sum_repeat by assumption.
    destruct (ratio_facts (check_of (Z.of_nat n) - 1)) as (R1 & _ & R3 & _); [lia |].
    rewrite R1. split; reflexivity.
  - intros n Hn. unfold neighbor_diff, len. rewrite length_alternating.
    destruct (Z.ltb_spec (Z.of_nat n) 2) as [H | H]; [lia |].
    destruct (check_of_range (Z.of_nat n) H) as [Hc Hn'].
    rewrite neighbor_sum_alternating by lia.
    destruct (ratio_facts (check_of (Z.of_nat n) - 1)) as (_ & R2 & _ & R4); [lia |].
    rewrite R2. split; reflexivity.
  - intros p n. unfold is_interleaved. reflexivity.
Qed.

Lemma neighbor_diff_classifies_witness :
  (2 <= 6)%nat
  /\ neighbor_diff (alternating x00 xff 6) (len (alternating x00 xff 6)) = 255%float
  /\ is_interleaved
       (neighbor_diff (alternating x00 xff 6) (len (alternating x00 xff 6))) = true.
Proof.
  assert (H : (2 <= 6)%nat) by lia.
  split; [exact H |].
  exact (proj1 (proj2 (proj2 neighbor_diff_classifies)) 6%nat H).
Defined.

(** ** Divisions on the classification and brightness path *)

Section DivisionFacts.

(** [neighbor_diff] does not divide below 2 bytes, and divides by
    [check - 1 >= 1] from 2 bytes on. *)
Lemma neighbor_diff_guarded (p : list byte) (n : Z) :
  (n < 2 -> neighbor_diff p n = 0%float)
  /\ (2 <= n ->
      neighbor_diff p n
      = (double_of (neighbor_sum p (check_of n)) / double_of (check_of n - 1))%float
      /\ 1 <= check_of n - 1 <= 3999).
Proof.
  unfold neighbor_diff. split; intros H.
  - destruct (Z.ltb_spec n 2); [reflexivity | lia].
  - destruct (Z.ltb_spec n 2); [lia |]. split; [reflexivity |].
    pose proof (check_of_range n H). lia.
Qed.

Lemma strip_pixlen (fbuf : list byte) (got : Z) :
  100 <= got -> 90 <= pixlen (snd (strip_meta_header (mkView fbuf 0 got))).
Proof.
  intros H. unfold strip_meta_header.
  destruct (has_meta (mkView fbuf 0 got)); cbn [snd pixlen]; lia.
Qed.




(** With a negotiated size of [2^31] or more the cast to [int] is
    negative: nothing is copied, the target counts as reached at once,
    and the frame handed on has length 0. *)
Lemma accumulation_gate_negative (negotiated : Z) (a : accum) (v : view) :
  accumulate a = true -> accum_off a = 0 ->
  INT_MAX < negotiated < 4294967296 -> 0 <= pixlen v ->
  accumulation_gate negotiated a v
  = (Some (mkView (accum_buf a) 0 0), mkAccum true (accum_buf a) 0).
Proof.
  intros Ha Ho Hn Hv. unfold accumulation_gate, INT_MAX in *.
  rewrite Ha, Ho. cbn [andb].
  destruct (Z.gtb_spec negotiated 0) as [_ | H]; [| lia].
  assert (Ht : to_int negotiated = negotiated - 4294967296).
  { unfold to_int.
    replace (negotiated + 2147483648)
      with (negotiated - 2147483648 + 1 * 4294967296) by lia.
    rewrite Z.mod_add by lia. rewrite Z.mod_small by lia. lia. }
  rewrite Ht, Z.sub_0_r.
  rewrite (to_int_small (negotiated - 4294967296)) by (unfold INT_MAX; lia).
  destruct (Z.ltb_spec (pixlen v) (negotiated - 4294967296)) as [H | H]; [lia |].
  destruct (Z.gtb_spec (negotiated - 4294967296) 0) as [H' | H']; [lia |].
  rewrite Ha, Ho.
  destruct (Z.ltb_spec 0 (negotiated - 4294967296)) as [H'' | H'']; [lia |].
  reflexivity.
Qed.

Lemma filter_frame_zero_divisor (st : stab) (fbuf : list byte) (got : Z) :
  100 <= got ->
  accumulate (accum_st st) = true -> accum_off (accum_st st) = 0 ->
  INT_MAX < negotiated_frame_size st < 4294967296 ->
  frame_hold (hold_st st) = false \/ locked_size (hold_st st) <= 0 ->
  fst (filter_frame st fbuf got) = DivideByZero.
Proof.
  intros Hg Ha Ho Hn Hl. unfold filter_frame.
  destruct (Z.leb_spec got 0) as [H | H]; [lia |].
  destruct (Z.ltb_spec got 100) as [H' | H']; [lia |].
  pose proof (strip_pixlen fbuf got Hg) as Hp.
  rewrite accumulation_gate_negative by (try assumption; lia).
  cbn [pixlen].
  change (neighbor_diff _ 0) with 0%float.
  change (is_interleaved 0) with false. rewrite andb_false_r.
  rewrite size_band_reject_off by assumption.
  reflexivity.
Qed.

End DivisionFacts.

(** C10, at the input where it fails.  The device reports a maximum
    frame size of [0xFFFFFFFF], the user has switched accumulation on,
    no size lock is set yet: for a frame of 100 bytes the accumulation
    gate hands on a frame of length 0, so that [qn] is 0 and the
    brightness filter divides by zero. *)
Theorem brightness_divisor_can_be_zero :
  let st := key_a (initial 4294967295) in
  let v := snd (strip_meta_header (mkView (repeat x00 100) 0 100)) in
  pixlen v = 100
  /\ fst (accumulation_gate 4294967295 (accum_st st) v)
     = Some (mkView (accum_buf (accum_st st)) 0 0)
  /\ qn_of 0 = 0
  /\ fst (filter_frame st (repeat x00 100) 100) = DivideByZero.
Proof.
  intros st v.
  split; [reflexivity |]. split; [| split; [reflexivity |]].
  - rewrite accumulation_gate_negative; try reflexivity.
    + unfold INT_MAX. lia.
    + unfold v. pose proof (strip_pixlen (repeat x00 100) 100). lia.
  - apply filter_frame_zero_divisor; try reflexivity.
    + unfold st, key_a, initial, INT_MAX. cbn [negotiated_frame_size]. lia.
    + right. unfold st, key_a, initial. cbn [hold_st locked_size]. lia.
Qed.

(** ** Rendering *)

Section RenderFacts.

Import Render.

(** Invariant rule for the faulting loop. *)
Lemma for_upto_inv {S : Type} (I : Z -> S -> Prop) (body : Z -> S -> option S) :
  forall (n : nat) (i : Z) (s : S),
    I i s ->
    (forall j t, i <= j < i + Z.of_nat n -> I j t ->
                 exists t', body j t = Some t' /\ I (j + 1) t') ->
    exists s', for_upto n i body s = Some s' /\ I (i + Z.of_nat n) s'.
Proof.
  induction n as [| n IH]; intros i s Hi Hstep; cbn [for_upto].
  - exists s. rewrite Z.add_0_r. auto.
  - destruct (Hstep i s) as (t' & Hb & Ht'); [lia | assumption |].
    rewrite Hb.
    destruct (IH (i + 1) t' Ht') as (s' & Hs' & HI).
    + intros j t Hj. apply Hstep. lia.
    + exists s'. split; [exact Hs' |].
      replace (i + Z.of_nat (Datatypes.S n)) with (i + 1 + Z.of_nat n) by lia.
      exact HI.
Qed.

Lemma length_upd {A} (x : A) :
  forall (l : list A) (i : nat), length (upd l i x) = length l.
Proof.
  induction l as [| h t IH]; intros i; [reflexivity |].
  destruct i; cbn [upd length]; [reflexivity | rewrite IH; reflexivity].
Qed.

Lemma nth_upd_eq {A} (x d : A) :
  forall (l : list A) (i : nat), (i < length l)%nat -> nth i (upd l i x) d = x.
Proof.
  induction l as [| h t IH]; intros i Hi; cbn [length] in Hi; [lia |].
  destruct i; cbn [upd nth]; [reflexivity | apply IH; lia].
Qed.

Lemma nth_upd_neq {A} (x d : A) :
  forall (l : list A) (i j : nat), i <> j -> nth j (upd l i x) d = nth j l d.
Proof.
  induction l as [| h t IH]; intros i j Hij; [reflexivity |].
  destruct i, j; cbn [upd nth]; try reflexivity; [lia | apply IH; lia].
Qed.

Lemma store_spec (dst : list Z) (i px : Z) :
  0 <= i < len dst ->
  exists dst',
    store dst i px = Some dst' /\ len dst' = len dst
    /\ pixel dst' i = px
    /\ (forall k, 0 <= k -> k <> i -> pixel dst' k = pixel dst k).
Proof.
  intros Hi. unfold store.
  destruct (Z.leb_spec 0 i); [| lia].
  destruct (Z.ltb_spec i (len dst)); [| lia]. cbn [andb].
  exists (upd dst (Z.to_nat i) px). unfold len, pixel in *.
  split; [reflexivity |]. split; [rewrite length_upd; reflexivity |].
  split; [apply nth_upd_eq; lia |].
  intros k Hk Hne. apply nth_upd_neq. lia.
Qed.

Lemma clamp_range (s : Z) : 0 <= clamp s <= 255.
Proof.
  unfold clamp. destruct (Z.ltb_spec s 0); [lia |].
  destruct (Z.gtb_spec s 255); [lia |].
  pose proof (Z.mod_pos_bound s 256). lia.
Qed.

(** A pixel [argb v] is opaque and has [v] in each of its three colour
    channels. *)
Lemma argb_channels (v : Z) :
  0 <= v <= 255 ->
  Z.shiftr (argb v) 24 = 255
  /\ Z.land (Z.shiftr (argb v) 16) 255 = v
  /\ Z.land (Z.shiftr (argb v) 8) 255 = v
  /\ Z.land (argb v) 255 = v.
Proof.
  intros Hv.
  assert (Hall : forallb
                   (fun k =>
                      let w := Z.of_nat k in
                      (Z.shiftr (argb w) 24 =? 255)
                      && (Z.land (Z.shiftr (argb w) 16) 255 =? w)
                      && (Z.land (Z.shiftr (argb w) 8) 255 =? w)
                      && (Z.land (argb w) 255 =? w))
                   (seq 0 256) = true) by (vm_compute; reflexivity).
  rewrite forallb_forall in Hall.
  specialize (Hall (Z.to_nat v)). cbv zeta in Hall.
  rewrite Z2Nat.id in Hall by lia.
  rewrite !andb_true_iff, !Z.eqb_eq in Hall.
  assert (Hin : In (Z.to_nat v) (seq 0 256)) by (apply in_seq; lia).
  specialize (Hall Hin). tauto.
Qed.

Lemma contrast_range_pos (mn mx : Z) : 1 <= contrast_range mn mx.
Proof. unfold contrast_range. destruct (Z.gtb_spec (mx - mn) 0); lia. Qed.

Lemma memset_px_spec (dst : list Z) (npix : Z) :
  0 <= npix -> npix * 4 <= INT_MAX -> npix <= len dst ->
  exists d0,
    memset_px dst npix = Some d0 /\ len d0 = len dst
    /\ (forall k, 0 <= k < npix -> pixel d0 k = 0)
    /\ (forall k, npix <= k -> pixel d0 k = pixel dst k).
Proof.
  intros H0 Hmax Hlen. unfold memset_px.
  rewrite to_int_small by (unfold INT_MAX in *; lia).
  destruct (Z.leb_spec 0 (npix * 4)); [| lia].
  destruct (Z.leb_spec (npix * 4) (4 * len dst)); [| lia]. cbn [andb].
  rewrite Z.quot_mul by lia.
  eexists. split; [reflexivity |]. unfold len, pixel in *.
  split; [| split].
  - rewrite length_app, repeat_length, length_skipn. lia.
  - intros k Hk. rewrite app_nth1 by (rewrite repeat_length; lia).
    apply nth_repeat.
  - intros k Hk. rewrite app_nth2 by (rewrite repeat_length; lia).
    rewrite repeat_length, nth_skipn. f_equal. lia.
Qed.

(** The second loop, for a sample expression that is in range. *)
Lemma paint_spec (sample : Z -> option Z) (mn range limit : Z) (dst : list Z) :
  (forall i, 0 <= i < limit -> sample i <> None) ->
  range <> 0 -> 0 <= limit <= len dst ->
  exists dst',
    paint sample mn range limit dst = Some dst'
    /\ len dst' = len dst
    /\ (forall k, 0 <= k < limit ->
                  exists b, sample k = Some b
                            /\ pixel dst' k = argb (clamp ((b - mn) * 255 ÷ range)))
    /\ (forall k, limit <= k -> pixel dst' k = pixel dst k).
Proof.
  intros Hs Hr Hl. unfold paint.
  destruct (for_upto_inv
              (fun j d =>
                 len d = len dst
                 /\ (forall k, 0 <= k < j ->
                               exists b, sample k = Some b
                                         /\ pixel d k
                                            = argb (clamp ((b - mn) * 255 ÷ range)))
                 /\ (forall k, j <= k -> pixel d k = pixel dst k))
              (fun i d =>
                 match sample i with
                 | Some b =>
                     match cdiv ((b - mn) * 255) range with
                     | Some s => store d i (argb (clamp s))
                     | None => None
                     end
                 | None => None
                 end)
              (Z.to_nat limit) 0 dst) as (dst' & Hrun & Hinv).
  - split; [reflexivity |]. split; [intros k Hk; lia | auto].
  - intros j d Hj (Hlen & Hdone & Hrest).
    destruct (sample j) as [b |] eqn:Hb; [| exfalso; apply (Hs j); [lia | exact Hb]].
    unfold cdiv. destruct (Z.eqb_spec range 0) as [Hz | _]; [contradiction |].
    destruct (store_spec d j (argb (clamp ((b - mn) * 255 ÷ range))))
      as (d' & Hst & Hlen' & Hj' & Hother); [lia |].
    exists d'. split; [exact Hst |]. split; [congruence |]. split.
    + intros k Hk. destruct (Z.eq_dec k j) as [-> | Hne].
      * exists b. auto.
      * destruct (Hdone k) as (b' & Hb' & Hpx); [lia |].
        exists b'. split; [exact Hb' |]. rewrite Hother by lia. exact Hpx.
    + intros k Hk. rewrite Hother by lia. apply Hrest. lia.
  - exists dst'. split; [exact Hrun |].
    rewrite Z.add_0_l, Z2Nat.id in Hinv by lia. exact Hinv.
Qed.

(** The first loop. *)
Lemma scan_spec (sample : Z -> option Z) (mn0 limit : Z) :
  (forall i, 0 <= i < limit -> sample i <> None) ->
  exists mn mx, scan sample mn0 limit = Some (mn, mx).
Proof.
  intros Hs. unfold scan.
  destruct (for_upto_inv (fun _ (_ : Z * Z) => True)
              (fun i '(mn, mx) =>
                 match sample i with
                 | Some b => Some (if b <? mn then b else mn,
                                   if b >? mx then b else mx)
                 | None => None
                 end)
              (Z.to_nat limit) 0 (mn0, 0)) as ([mn mx] & Hrun & _).
  - exact I.
  - intros j [mn mx] Hj _.
    destruct (sample j) as [b |] eqn:Hb; [| exfalso; apply (Hs j); [lia | exact Hb]].
    eexists. split; [reflexivity | exact I].
  - exists mn, mx. exact Hrun.
Qed.

(** The first loop on samples that all have the value [c]: the range is
    forced to 1. *)
Lemma scan_uniform (sample : Z -> option Z) (mn0 limit c : Z) :
  (forall i, 0 <= i < limit -> sample i = Some c) ->
  0 <= c <= mn0 -> 0 < mn0 ->
  exists mn mx,
    scan sample mn0 limit = Some (mn, mx)
    /\ contrast_range mn mx = 1
    /\ (0 < limit -> mn = c).
Proof.
  intros Hs Hc Hm. unfold scan.
  destruct (for_upto_inv
              (fun j (s : Z * Z) =>
                 (j = 0 /\ s = (mn0, 0)) \/ (0 < j /\ s = (c, c)))
              (fun i '(mn, mx) =>
                 match sample i with
                 | Some b => Some (if b <? mn then b else mn,
                                   if b >? mx then b else mx)
                 | None => None
                 end)
              (Z.to_nat limit) 0 (mn0, 0)) as ([mn mx] & Hrun & Hinv).
  - left. auto.
  - intros j [mn mx] Hj Hinv. rewrite (Hs j) by lia.
    eexists. split; [reflexivity |]. right. split; [lia |].
    destruct Hinv as [[_ Heq] | [_ Heq]]; inversion Heq; subst.
    + destruct (Z.ltb_spec c mn0), (Z.gtb_spec c 0); f_equal; lia.
    + rewrite Z.ltb_irrefl. destruct (Z.gtb_spec c c); [lia | reflexivity].
  - exists mn, mx. split; [exact Hrun |].
    unfold contrast_range.
    destruct Hinv as [[Hz Heq] | [Hp Heq]]; inversion Heq; subst.
    + destruct (Z.gtb_spec (0 - mn0) 0); [lia |]. split; [reflexivity | lia].
    + destruct (Z.gtb_spec (c - c) 0); [lia |]. split; [reflexivity | auto].
Qed.

(** Both loops together, on a destination cleared up to [npix]. *)
Lemma stretch_spec (sample : Z -> option Z) (mn0 limit npix : Z)
  (dst d0 : list Z) :
  (forall i, 0 <= i < limit -> sample i <> None) ->
  0 <= limit <= npix -> npix <= len d0 -> len d0 = len dst ->
  (forall k, 0 <= k < npix -> pixel d0 k = 0) ->
  (forall k, npix <= k -> pixel d0 k = pixel dst k) ->
  exists dst',
    stretch sample mn0 limit d0 = Some dst'
    /\ len dst' = len dst
    /\ (forall k, 0 <= k < limit ->
                  exists v, 0 <= v <= 255 /\ pixel dst' k = argb v)
    /\ (forall k, limit <= k < npix -> pixel dst' k = 0)
    /\ (forall k, npix <= k -> pixel dst' k = pixel dst k)
    /\ (forall c, (forall i, 0 <= i < limit -> sample i = Some c) ->
                  0 <= c <= mn0 -> 0 < mn0 ->
                  (forall k, 0 <= k < limit -> pixel dst' k = argb 0)
                  /\ exists mn mx,
                       scan sample mn0 limit = Some (mn, mx)
                       /\ contrast_range mn mx = 1).
Proof.
  intros Hs Hl Hn Hlen Hzero Hrest. unfold stretch.
  destruct (scan_spec sample mn0 limit Hs) as (mn & mx & Hscan).
  rewrite Hscan.
  pose proof (contrast_range_pos mn mx) as Hr.
  destruct (paint_spec sample mn (contrast_range mn mx) limit d0)
    as (dst' & Hp & Hlen' & Hpx & Hkeep); [assumption | lia | lia |].
  exists dst'. split; [exact Hp |]. split; [congruence |].
  split; [| split; [| split]].
  - intros k Hk. destruct (Hpx k Hk) as (b & _ & Hb).
    eexists. split; [apply clamp_range | exact Hb].
  - intros k Hk. rewrite Hkeep by lia. apply Hzero. lia.
  - intros k Hk. rewrite Hkeep by lia. apply Hrest. lia.
  - intros c Hc Hc0 Hm0.
    destruct (scan_uniform sample mn0 limit c Hc Hc0 Hm0)
      as (mn' & mx' & Hscan' & Hone & Hmn).
    rewrite Hscan in Hscan'. inversion Hscan'; subst mn' mx'.
    split; [| exists mn, mx; auto].
    intros k Hk. destruct (Hpx k Hk) as (b & Hb & Hval).
    rewrite Hc in Hb by assumption. inversion Hb; subst b.
    rewrite Hval, Hone, Hmn by lia.
    rewrite Z.sub_diag. reflexivity.
Qed.

Lemma load_in (src : list byte) (i : Z) :
  0 <= i < len src -> load src i = Some (byte_at src i).
Proof.
  intros H. unfold load.
  destruct (Z.leb_spec 0 i); [| lia].
  destruct (Z.ltb_spec i (len src)); [| lia]. reflexivity.
Qed.

(** The loop bounds stay within the source and the destination. *)
Lemma limit_raw_bounds (srclen npix : Z) :
  0 <= srclen -> 0 <= npix ->
  0 <= limit_raw srclen npix <= npix /\ limit_raw srclen npix <= srclen.
Proof.
  intros Hs Hn. unfold limit_raw. destruct (Z.ltb_spec srclen npix); lia.
Qed.

Lemma limit_deint_bounds (start srclen npix : Z) :
  0 <= start <= 1 -> 0 <= srclen -> 0 <= npix ->
  0 <= limit_deint start srclen npix <= npix
  /\ (forall i, 0 <= i < limit_deint start srclen npix ->
                0 <= start + i * 2 < srclen).
Proof.
  intros Hst Hs Hn. unfold limit_deint.
  rewrite Z.quot_div_nonneg by lia.
  pose proof (Z.div_pos (srclen - start + 1) 2) as Hpos.
  pose proof (Z.mul_div_le (srclen - start + 1) 2) as Hle.
  destruct (Z.ltb_spec ((srclen - start + 1) / 2) npix); split; try lia;
    intros i Hi; lia.
Qed.

Lemma limit_16_bounds (srclen npix : Z) :
  0 <= srclen -> 0 <= npix ->
  0 <= limit_16 srclen npix <= npix
  /\ (forall i, 0 <= i < limit_16 srclen npix -> 0 <= i * 2 /\ i * 2 + 1 < srclen).
Proof.
  intros Hs Hn. unfold limit_16.
  rewrite Z.quot_div_nonneg by lia.
  pose proof (Z.div_pos srclen 2) as Hpos.
  pose proof (Z.mul_div_le srclen 2) as Hle.
  destruct (Z.gtb_spec (srclen / 2) npix); split; try lia;
    intros i Hi; lia.
Qed.

Lemma sample_16_in (src : list byte) (i : Z) :
  0 <= i * 2 -> i * 2 + 1 < len src ->
  sample_16 src i
  = Some (Z.lor (byte_at src (i * 2)) (Z.shiftl (byte_at src (i * 2 + 1)) 8)
          mod 65536).
Proof.
  intros H0 H1. unfold sample_16. rewrite !load_in by lia. reflexivity.
Qed.

End RenderFacts.

Import Render.

(** C8.  For every source and every mode, with non-negative dimensions
    whose pixel area fits the destination (and whose byte count
    [width * height * 4] fits an [int]), [render_frame] runs without a
    read outside the source, a write outside the destination or a
    division by zero.  The pixels below the decoded count are
    [argb v] with [0 <= v <= 255]; those from the decoded count up to
    [width * height] are black (0); nothing at or beyond
    [width * height] is changed.  On a source whose bytes all have one
    value, each of the cases computes a contrast range of 1 and every
    decoded pixel has intensity 0. *)
Theorem render_frame_safe :
  forall (src : list byte) (dst : list Z) (width height mode : Z),
    0 <= width -> 0 <= height ->
    width * height * 4 <= INT_MAX -> width * height <= len dst ->
    let npix := width * height in
    let n := decoded (len src) npix mode in
    exists dst',
      render_frame src dst width height mode = Some dst'
      /\ len dst' = len dst
      /\ 0 <= n <= npix
      /\ (forall k, 0 <= k < n -> exists v, 0 <= v <= 255 /\ pixel dst' k = argb v)
      /\ (forall k, n <= k < npix -> pixel dst' k = 0)
      /\ (forall k, npix <= k -> pixel dst' k = pixel dst k)
      /\ (forall c,
             (forall i, 0 <= i < len src -> byte_at src i = c) ->
             (forall k, 0 <= k < n -> pixel dst' k = argb 0)
             /\ (exists mn mx,
                    scan (sample_raw src) 255 (limit_raw (len src) npix)
                    = Some (mn, mx)
                    /\ contrast_range mn mx = 1)
             /\ (forall start, 0 <= start <= 1 ->
                   exists mn mx,
                     scan (sample_deint src start) 255
                       (limit_deint start (len src) npix)
                     = Some (mn, mx)
                     /\ contrast_range mn mx = 1)
             /\ (exists mn mx,
                    scan (sample_16 src) 65535 (limit_16 (len src) npix)
                    = Some (mn, mx)
                    /\ contrast_range mn mx = 1)).
Proof.
  intros src dst width height mode Hw Hh Hmax Hlen npix n.
  assert (Hnp : 0 <= npix) by (apply Z.mul_nonneg_nonneg; assumption).
  fold npix in Hmax, Hlen.
  destruct (memset_px_spec dst npix Hnp Hmax Hlen) as (d0 & Hm & Hl0 & Hz & Hr).
  pose proof (len_nonneg src) as Hsrc.
  pose proof (limit_raw_bounds (len src) npix Hsrc Hnp) as Braw.
  pose proof (fun start H => limit_deint_bounds start (len src) npix H Hsrc Hnp)
    as Bde.
  pose proof (limit_16_bounds (len src) npix Hsrc Hnp) as [B16 B16'].
  assert (Traw : forall i, 0 <= i < limit_raw (len src) npix ->
                           sample_raw src i = Some (byte_at src i)).
  { intros i Hi. apply load_in. lia. }
  assert (Tde : forall start, 0 <= start <= 1 ->
                forall i, 0 <= i < limit_deint start (len src) npix ->
                          sample_deint src start i
                          = Some (byte_at src (start + i * 2))).
  { intros start Hst i Hi. apply load_in. apply (Bde start Hst). exact Hi. }
  assert (T16 : forall i, 0 <= i < limit_16 (len src) npix ->
                          sample_16 src i
                          = Some (Z.lor (byte_at src (i * 2))
                                    (Z.shiftl (byte_at src (i * 2 + 1)) 8)
                                  mod 65536)).
  { intros i Hi. destruct (B16' i Hi). apply sample_16_in; assumption. }
  (* what a source of one value gives to each sample expression *)
  set (c0 := byte_at src 0).
  set (c16 := Z.lor c0 (Z.shiftl c0 8) mod 65536).
  pose proof (byte_at_range src 0) as Hc0. fold c0 in Hc0.
  assert (Hc16 : 0 <= c16 <= 65535)
    by (unfold c16; pose proof (Z.mod_pos_bound (Z.lor c0 (Z.shiftl c0 8)) 65536); lia).
  assert (Uni : forall c, (forall i, 0 <= i < len src -> byte_at src i = c) ->
                          forall i, 0 <= i < len src -> byte_at src i = c0).
  { intros c Hu i Hi. unfold c0. rewrite (Hu i Hi), (Hu 0) by lia. reflexivity. }
  assert (Uraw : forall c, (forall i, 0 <= i < len src -> byte_at src i = c) ->
                 forall i, 0 <= i < limit_raw (len src) npix ->
                           sample_raw src i = Some c0).
  { intros c Hu i Hi. rewrite Traw by assumption. f_equal.
    apply (Uni c Hu). lia. }
  assert (Ude : forall c, (forall i, 0 <= i < len src -> byte_at src i = c) ->
                forall start, 0 <= start <= 1 ->
                forall i, 0 <= i < limit_deint start (len src) npix ->
                          sample_deint src start i = Some c0).
  { intros c Hu start Hst i Hi. rewrite Tde by assumption. f_equal.
    apply (Uni c Hu). apply (Bde start Hst). exact Hi. }
  assert (U16 : forall c, (forall i, 0 <= i < len src -> byte_at src i = c) ->
                forall i, 0 <= i < limit_16 (len src) npix ->
                          sample_16 src i = Some c16).
  { intros c Hu i Hi. rewrite T16 by assumption. destruct (B16' i Hi).
    rewrite !(Uni c Hu) by lia. reflexivity. }
  assert (Ranges :
    forall c, (forall i, 0 <= i < len src -> byte_at src i = c) ->
      (exists mn mx,
          scan (sample_raw src) 255 (limit_raw (len src) npix) = Some (mn, mx)
          /\ contrast_range mn mx = 1)
      /\ (forall start, 0 <= start <= 1 ->
            exists mn mx,
              scan (sample_deint src start) 255 (limit_deint start (len src) npix)
              = Some (mn, mx)
              /\ contrast_range mn mx = 1)
      /\ (exists mn mx,
             scan (sample_16 src) 65535 (limit_16 (len src) npix) = Some (mn, mx)
             /\ contrast_range mn mx = 1)).
  { intros c Hu. split; [| split].
    - destruct (scan_uniform (sample_raw src) 255 (limit_raw (len src) npix) c0
                  (Uraw c Hu)) as (mn & mx & A & B & _); [lia | lia |].
      exists mn, mx. auto.
    - intros start Hst.
      destruct (scan_uniform (sample_deint src start) 255
                  (limit_deint start (len src) npix) c0 (Ude c Hu start Hst))
        as (mn & mx & A & B & _); [lia | lia |].
      exists mn, mx. auto.
    - destruct (scan_uniform (sample_16 src) 65535 (limit_16 (len src) npix) c16
                  (U16 c Hu)) as (mn & mx & A & B & _); [lia | lia |].
      exists mn, mx. auto. }
  (* the three cases of the switch *)
  assert (Case :
    forall (sample : Z -> option Z) (mn0 limit cu : Z),
      (forall i, 0 <= i < limit -> sample i <> None) ->
      0 <= limit <= npix -> 0 <= cu <= mn0 -> 0 < mn0 ->
      (forall c, (forall i, 0 <= i < len src -> byte_at src i = c) ->
                 forall i, 0 <= i < limit -> sample i = Some cu) ->
      exists dst',
        stretch sample mn0 limit d0 = Some dst'
        /\ len dst' = len dst
        /\ 0 <= limit <= npix
        /\ (forall k, 0 <= k < limit ->
                      exists v, 0 <= v <= 255 /\ pixel dst' k = argb v)
        /\ (forall k, limit <= k < npix -> pixel dst' k = 0)
        /\ (forall k, npix <= k -> pixel dst' k = pixel dst k)
        /\ (forall c, (forall i, 0 <= i < len src -> byte_at src i = c) ->
                      forall k, 0 <= k < limit -> pixel dst' k = argb 0)).
  { intros sample mn0 limit cu Ht Hl Hcu Hmn0 Hu.
    destruct (stretch_spec sample mn0 limit npix dst d0 Ht Hl)
      as (dst' & S1 & S2 & S3 & S4 & S5 & S6); try assumption; [lia |].
    exists dst'. repeat (split; [assumption |]).
    intros c Hc. apply (S6 cu (Hu c Hc) Hcu Hmn0). }
  assert (Fin : forall (r : option (list Z)) (limit : Z),
    (exists dst',
        r = Some dst'
        /\ len dst' = len dst
        /\ 0 <= limit <= npix
        /\ (forall k, 0 <= k < limit ->
                      exists v, 0 <= v <= 255 /\ pixel dst' k = argb v)
        /\ (forall k, limit <= k < npix -> pixel dst' k = 0)
        /\ (forall k, npix <= k -> pixel dst' k = pixel dst k)
        /\ (forall c, (forall i, 0 <= i < len src -> byte_at src i = c) ->
                      forall k, 0 <= k < limit -> pixel dst' k = argb 0)) ->
    exists dst',
      r = Some dst'
      /\ len dst' = len dst
      /\ 0 <= limit <= npix
      /\ (forall k, 0 <= k < limit ->
                    exists v, 0 <= v <= 255 /\ pixel dst' k = argb v)
      /\ (forall k, limit <= k < npix -> pixel dst' k = 0)
      /\ (forall k, npix <= k -> pixel dst' k = pixel dst k)
      /\ (forall c,
             (forall i, 0 <= i < len src -> byte_at src i = c) ->
             (forall k, 0 <= k < limit -> pixel dst' k = argb 0)
             /\ (exists mn mx,
                    scan (sample_raw src) 255 (limit_raw (len src) npix)
                    = Some (mn, mx)
                    /\ contrast_range mn mx = 1)
             /\ (forall start, 0 <= start <= 1 ->
                   exists mn mx,
                     scan (sample_deint src start) 255
                       (limit_deint start (len src) npix)
                     = Some (mn, mx)
                     /\ contrast_range mn mx = 1)
             /\ (exists mn mx,
                    scan (sample_16 src) 65535 (limit_16 (len src) npix)
                    = Some (mn, mx)
                    /\ contrast_range mn mx = 1))).
  { intros r limit (dst' & R1 & R2 & R3 & R4 & R5 & R6 & R7).
    exists dst'. repeat (split; [assumption |]).
    intros c Hc. split; [apply (R7 c Hc) | apply (Ranges c Hc)]. }
  assert (Black : forall dst',
    len dst' = len dst ->
    (forall k, 0 <= k < npix -> pixel dst' k = 0) ->
    (forall k, npix <= k -> pixel dst' k = pixel dst k) ->
    exists d,
      Some dst' = Some d
      /\ len d = len dst
      /\ 0 <= 0 <= npix
      /\ (forall k, 0 <= k < 0 ->
                    exists v, 0 <= v <= 255 /\ pixel d k = argb v)
      /\ (forall k, 0 <= k < npix -> pixel d k = 0)
      /\ (forall k, npix <= k -> pixel d k = pixel dst k)
      /\ (forall c, (forall i, 0 <= i < len src -> byte_at src i = c) ->
                    forall k, 0 <= k < 0 -> pixel d k = argb 0)).
  { intros dst' B1 B2 B3. exists dst'. split; [reflexivity |].
    split; [assumption |]. split; [lia |]. split; [intros k Hk; lia |].
    split; [assumption |]. split; [assumption |]. intros c Hc k Hk. lia. }
  unfold n, decoded, render_frame. fold npix.
  rewrite to_int_small by (unfold INT_MAX in *; lia).
  rewrite Hm.
  destruct (Z.ltb_spec (len src) 2) as [Hshort | Hlong].
  { apply Fin, Black; assumption. }
  destruct (Z.eqb_spec mode MODE_RAW) as [Hraw | Hnraw].
  { apply Fin.
    apply (Case (sample_raw src) 255 _ c0); try lia.
    - intros i Hi. rewrite Traw by assumption. discriminate.
    - exact Uraw. }
  destruct (Z.eqb_spec mode MODE_DEINT_EVEN) as [Hev | Hnev].
  { cbn [orb]. subst mode. change (MODE_DEINT_EVEN =? MODE_DEINT_ODD) with false.
    cbv iota. apply Fin.
    apply (Case (sample_deint src 0) 255 _ c0); try lia.
    - intros i Hi. rewrite Tde by (assumption || lia). discriminate.
    - apply (Bde 0). lia.
    - intros c Hc. apply (Ude c Hc). lia. }
  destruct (Z.eqb_spec mode MODE_DEINT_ODD) as [Hodd | Hnodd].
  { cbn [orb]. apply Fin.
    apply (Case (sample_deint src 1) 255 _ c0); try lia.
    - intros i Hi. rewrite Tde by (assumption || lia). discriminate.
    - apply (Bde 1). lia.
    - intros c Hc. apply (Ude c Hc). lia. }
  cbn [orb].
  destruct (Z.eqb_spec mode MODE_16BIT_LE) as [H16 | Hn16].
  { apply Fin.
    apply (Case (sample_16 src) 65535 _ c16); try lia.
    - intros i Hi. rewrite T16 by assumption. discriminate.
    - exact U16. }
  apply Fin, Black; assumption.
Qed.

Lemma render_frame_safe_witness :
  (0 <= 3 /\ 0 <= 2 /\ 3 * 2 * 4 <= INT_MAX /\ 3 * 2 <= len (repeat 7 8))
  /\ exists dst',
       render_frame [x01; x02; x03; xff; x00] (repeat 7 8) 3 2 MODE_RAW = Some dst'
       /\ len dst' = len (repeat 7 8)
       /\ (forall k, 0 <= k < decoded 5 (3 * 2) MODE_RAW ->
                     exists v, 0 <= v <= 255 /\ pixel dst' k = argb v)
       /\ (forall k, decoded 5 (3 * 2) MODE_RAW <= k < 3 * 2 -> pixel dst' k = 0).
Proof.
  assert (H1 : 0 <= 3) by lia.
  assert (H2 : 0 <= 2) by lia.
  assert (H3 : 3 * 2 * 4 <= INT_MAX) by (vm_compute; congruence).
  assert (H4 : 3 * 2 <= len (repeat 7 8)) by (vm_compute; congruence).
  split; [tauto |].
  destruct (render_frame_safe [x01; x02; x03; xff; x00] (repeat 7 8) 3 2 MODE_RAW
              H1 H2 H3 H4) as (dst' & A & B & _ & C & D & _).
  exists dst'. auto.
Defined.

(** * Further properties *)

(** ** Frame reader: budget, idle events, mixed streams *)

Section StreamFacts.

Import Stream.

Variable bufsz : Z.

Lemma skipn_memcpy (dst src : list byte) (off n : Z) :
  0 <= off -> 0 <= n -> off + n <= bufsz -> bufsz <= len dst -> n <= len src ->
  skipn (Z.to_nat bufsz) (memcpy dst off src n) = skipn (Z.to_nat bufsz) dst.
Proof.
  unfold memcpy, len. intros Ho Hn Hb Hd Hs.
  rewrite app_assoc, skipn_app.
  rewrite skipn_all2 by (rewrite length_app, !length_firstn; lia).
  rewrite length_app, !length_firstn, skipn_skipn. cbn [app].
  f_equal. lia.
Qed.

Lemma store_at_tail (s : state) (d : list byte) (c : Z) :
  well_formed bufsz s -> off s < bufsz ->
  length (buf (store_at bufsz s d c)) = length (buf s)
  /\ skipn (Z.to_nat bufsz) (buf (store_at bufsz s d c))
     = skipn (Z.to_nat bufsz) (buf s).
Proof.
  intros Hwf Hlt. destruct (room_bounds bufsz s d Hwf Hlt) as [Hn Hmin].
  destruct Hwf as [Ho Hb]. unfold store_at. cbn [buf]. split.
  - apply length_memcpy; lia.
  - apply skipn_memcpy; lia.
Qed.

Lemma append_tail (s : state) (d : list byte) (c : Z) :
  well_formed bufsz s -> off s < bufsz ->
  length (buf (append bufsz s d c)) = length (buf s)
  /\ skipn (Z.to_nat bufsz) (buf (append bufsz s d c))
     = skipn (Z.to_nat bufsz) (buf s).
Proof.
  intros Hwf Hlt. unfold append. destruct (len d >? 0).
  - apply store_at_tail; assumption.
  - cbn [buf]. auto.
Qed.

(** One pass of the loop body writes below [bufsz] only, and what it
    returns is -1 or the offset. *)
Lemma on_event_tail (s : state) (ev : event) :
  well_formed bufsz s -> off s < bufsz ->
  match on_event bufsz s ev with
  | Continue s' =>
      length (buf s') = length (buf s)
      /\ skipn (Z.to_nat bufsz) (buf s') = skipn (Z.to_nat bufsz) (buf s)
  | Return r s' =>
      length (buf s') = length (buf s)
      /\ skipn (Z.to_nat bufsz) (buf s') = skipn (Z.to_nat bufsz) (buf s)
      /\ (r = -1 \/ r = off s')
  end.
Proof.
  intros Hwf Hlt. destruct ev as [ | | | | pkt]; cbn [on_event]; auto.
  change (match on_event bufsz s (Data pkt) with
          | Continue s' =>
              length (buf s') = length (buf s)
              /\ skipn (Z.to_nat bufsz) (buf s') = skipn (Z.to_nat bufsz) (buf s)
          | Return r s' =>
              length (buf s') = length (buf s)
              /\ skipn (Z.to_nat bufsz) (buf s') = skipn (Z.to_nat bufsz) (buf s)
              /\ (r = -1 \/ r = off s')
          end).
  destruct (data_cases s pkt) as [H | [[H1 H2] | [[H1 H2] | [H | H]]]].
  - rewrite on_event_short by assumption. auto.
  - rewrite on_event_raw by assumption. now apply store_at_tail.
  - rewrite on_event_error by assumption. cbn [buf]. auto.
  - destruct H as (H1 & H2 & H3 & H4 & H5).
    rewrite on_event_flip by assumption. auto.
  - destruct H as (H1 & H2 & H3).
    rewrite on_event_payload by assumption. cbv zeta.
    destruct (append_tail s (payload pkt) (fid_bit pkt) Hwf Hlt) as [A B].
    destruct (flag BFH_EOF pkt); auto.
Qed.

Lemma read_loop_tail (b0 : list byte) :
  forall (evs : list event) (s : state) (r : Z) (b' : list byte)
         (rest : list event),
    well_formed bufsz s ->
    length (buf s) = length b0 ->
    skipn (Z.to_nat bufsz) (buf s) = skipn (Z.to_nat bufsz) b0 ->
    read_loop bufsz evs s = Some (r, b', rest) ->
    (r = -1 \/ 0 <= r <= bufsz)
    /\ length b' = length b0
    /\ skipn (Z.to_nat bufsz) b' = skipn (Z.to_nat bufsz) b0
    /\ exists used, evs = used ++ rest.
Proof.
  induction evs as [| ev evs IH]; intros s r b' rest Hwf Hl Hs Hrun.
  - cbn [read_loop] in Hrun. destruct (off s <? bufsz); [discriminate |].
    inversion Hrun; subst. destruct Hwf as [Ho _].
    repeat split; auto. exists []. reflexivity.
  - destruct (Z_lt_dec (off s) bufsz) as [Hlt | Hge].
    + rewrite read_loop_cons in Hrun by assumption.
      pose proof (on_event_tail s ev Hwf Hlt) as Ht.
      pose proof (on_event_well_formed bufsz s ev Hwf Hlt) as Hw.
      destruct (on_event bufsz s ev) as [s' | r' s'].
      * destruct Ht as [T1 T2].
        destruct (IH s' r b' rest Hw) as (A & B & C & used & D);
          try congruence.
        repeat split; auto. exists (ev :: used). rewrite D. reflexivity.
      * destruct Ht as (T1 & T2 & T3). inversion Hrun; subst.
        destruct Hw as [Ho _].
        split; [destruct T3; [left; assumption | right; lia] |].
        split; [congruence |]. split; [congruence |].
        exists [ev]. reflexivity.
    + rewrite read_loop_done in Hrun by lia. inversion Hrun; subst.
      destruct Hwf as [Ho _].
      repeat split; auto. exists []. reflexivity.
Qed.

(** Idle events leave the state as it is. *)
Lemma on_event_idle (s : state) (ev : event) :
  idle ev = true -> on_event bufsz s ev = Continue s.
Proof.
  destruct ev as [ | | | | pkt]; cbn [idle]; try discriminate; try reflexivity.
  intros H. apply on_event_short. lia.
Qed.

Lemma read_loop_skip_idle :
  forall (evs : list event) (s : state),
    frame_of (read_loop bufsz evs s)
    = frame_of (read_loop bufsz (filter (fun e => negb (idle e)) evs) s).
Proof.
  induction evs as [| ev evs IH]; intros s; [reflexivity |].
  cbn [filter]. destruct (Z_lt_dec (off s) bufsz) as [Hlt | Hge].
  - destruct (idle ev) eqn:Hi; cbn [negb].
    + rewrite read_loop_cons, (on_event_idle s ev Hi) by assumption. apply IH.
    + rewrite !read_loop_cons by assumption.
      destruct (on_event bufsz s ev) as [s' | r s']; [apply IH | reflexivity].
  - rewrite !read_loop_done by lia. reflexivity.
Qed.

Lemma contribution_short (pkt : list byte) :
  len pkt < 2 -> contribution pkt = [].
Proof.
  intros H. unfold contribution. destruct (Z.ltb_spec (len pkt) 2); [reflexivity | lia].
Qed.

Lemma contribution_raw (pkt : list byte) :
  2 <= len pkt -> ~ valid_header pkt -> contribution pkt = pkt.
Proof.
  unfold valid_header, contribution. intros H Hv.
  destruct (Z.ltb_spec (len pkt) 2); [lia |].
  destruct (Z.ltb_spec (hlen_of pkt) 2); [reflexivity |].
  destruct (Z.gtb_spec (hlen_of pkt) (len pkt)); [reflexivity | lia].
Qed.

Lemma contribution_valid (pkt : list byte) :
  valid_header pkt -> contribution pkt = payload pkt.
Proof.
  unfold valid_header, contribution. intros Hv.
  destruct (Z.ltb_spec (len pkt) 2); [lia |].
  destruct (Z.ltb_spec (hlen_of pkt) 2); [lia |].
  destruct (Z.gtb_spec (hlen_of pkt) (len pkt)); [lia | reflexivity].
Qed.

(** A quiet packet is absorbed: the accumulation grows by its
    contribution, cut at the budget, and the loop goes on. *)
Lemma quiet_step (f : Z) (s : state) (pkt : list byte) :
  well_formed bufsz s -> off s < bufsz -> tracks f s -> quiet f pkt ->
  exists s',
    on_event bufsz s (Data pkt) = Continue s'
    /\ well_formed bufsz s' /\ tracks f s'
    /\ off s' = Z.min bufsz (off s + len (contribution pkt))
    /\ acc s' = firstn (Z.to_nat bufsz) (acc s ++ contribution pkt).
Proof.
  intros Hwf Hlt Htr [Hq | [[Hq1 Hq2] | Hq]].
  - exists s. rewrite contribution_short by assumption.
    pose proof (acc_length bufsz s Hwf) as Hl. destruct Hwf as [Ho Hb].
    split; [apply on_event_short; assumption |].
    split; [split; assumption |]. split; [assumption |].
    unfold len at 1. cbn [length]. split; [lia |].
    rewrite app_nil_r, firstn_all2 by lia. reflexivity.
  - rewrite contribution_raw by assumption.
    destruct (store_at_spec bufsz s pkt (fid s) Hwf Hlt) as (A1 & A2 & A3 & A4).
    exists (store_at bufsz s pkt (fid s)).
    split; [apply on_event_raw; assumption |].
    split; [assumption |]. split; [| split; assumption].
    unfold tracks in *. rewrite A2. assumption.
  - destruct Hq as (Hv & He & Hf & Heof).
    rewrite contribution_valid by assumption.
    destruct (append_spec bufsz s (payload pkt) f Hwf Hlt) as (A1 & A2 & A3 & A4).
    exists (append bufsz s (payload pkt) f).
    split.
    + rewrite on_event_payload by (try assumption; unfold tracks in Htr; lia).
      cbv zeta. rewrite Hf, Heof. reflexivity.
    + split; [assumption |]. split; [right; assumption | split; assumption].
Qed.

Lemma firstn_firstn_app {A} (n : nat) (l m : list A) :
  firstn n (firstn n l ++ m) = firstn n (l ++ m).
Proof.
  destruct (Nat.le_gt_cases (length l) n) as [H | H].
  - assert (E : firstn n l = l) by (apply firstn_all2; assumption).
    rewrite E. reflexivity.
  - rewrite !firstn_app, length_firstn.
    replace (n - Nat.min n (length l))%nat with 0%nat by lia.
    replace (n - length l)%nat with 0%nat by lia.
    rewrite !firstn_O, !app_nil_r.
    rewrite firstn_firstn. f_equal. lia.
Qed.

(** Quiet packets that stay below the budget are all absorbed, in
    order; the loop then goes on with the events after them. *)
Lemma read_loop_absorbs (f : Z) (rest : list event) :
  forall (pkts : list (list byte)) (s : state),
    well_formed bufsz s -> tracks f s -> Forall (quiet f) pkts ->
    off s + len (contributions pkts) < bufsz ->
    exists s',
      read_loop bufsz (map Data pkts ++ rest) s = read_loop bufsz rest s'
      /\ well_formed bufsz s' /\ tracks f s'
      /\ off s' = off s + len (contributions pkts)
      /\ acc s' = acc s ++ contributions pkts.
Proof.
  induction pkts as [| p pkts IH]; intros s Hwf Htr Hall Hroom.
  - exists s. unfold contributions, len. cbn [map concat app length].
    rewrite app_nil_r. repeat split; try assumption; try apply Hwf. lia.
  - inversion Hall as [| ? ? Hp Hps]; subst.
    unfold contributions in *. cbn [map concat app] in *.
    rewrite len_app in Hroom.
    pose proof (len_nonneg (contribution p)).
    pose proof (len_nonneg (concat (map contribution pkts))).
    assert (Hlt : off s < bufsz) by lia.
    destruct (quiet_step f s p Hwf Hlt Htr Hp) as (s1 & E & W & T & O & A).
    rewrite Z.min_r in O by lia.
    destruct (IH s1 W T Hps) as (s' & E' & W' & T' & O' & A'); [lia |].
    exists s'. rewrite read_loop_cons, E by assumption.
    split; [exact E' |]. split; [assumption |]. split; [assumption |].
    rewrite len_app. split; [lia |].
    rewrite A', A. rewrite firstn_fits, app_assoc; [reflexivity |].
    rewrite len_app. unfold len at 1. rewrite (acc_length bufsz s Hwf).
    destruct Hwf. lia.
Qed.

(** Quiet packets that fill the budget: the call returns [bufsz] and the
    frame is the first [bufsz] bytes of what the packets would add. *)
Lemma read_loop_truncates (f : Z) (rest : list event) :
  forall (pkts : list (list byte)) (s : state),
    well_formed bufsz s -> tracks f s -> Forall (quiet f) pkts ->
    bufsz <= off s + len (contributions pkts) ->
    exists b' rest',
      read_loop bufsz (map Data pkts ++ rest) s = Some (bufsz, b', rest')
      /\ prefix bufsz b' = firstn (Z.to_nat bufsz) (acc s ++ contributions pkts).
Proof.
  assert (Hfull : forall s d evs,
             well_formed bufsz s -> bufsz <= off s ->
             exists b' rest',
               read_loop bufsz evs s = Some (bufsz, b', rest')
               /\ prefix bufsz b' = firstn (Z.to_nat bufsz) (acc s ++ d)).
  { intros s d evs Hwf Hge. exists (buf s), evs.
    pose proof (acc_length bufsz s Hwf) as Hl. destruct Hwf as [Ho Hb].
    assert (Heq : off s = bufsz) by lia.
    rewrite read_loop_done by lia. rewrite Heq. split; [reflexivity |].
    rewrite firstn_app. rewrite Hl, Heq, Nat.sub_diag, firstn_O, app_nil_r.
    unfold acc. rewrite Heq. unfold prefix.
    rewrite firstn_firstn. f_equal. lia. }
  induction pkts as [| p pkts IH]; intros s Hwf Htr Hall Hroom.
  - unfold contributions, len in Hroom. cbn [map concat length] in Hroom.
    apply Hfull; [assumption | lia].
  - destruct (Z_lt_dec (off s) bufsz) as [Hlt | Hge];
      [| apply Hfull; [assumption | lia]].
    inversion Hall as [| ? ? Hp Hps]; subst.
    unfold contributions in *. cbn [map concat app] in *.
    rewrite len_app in Hroom.
    destruct (quiet_step f s p Hwf Hlt Htr Hp) as (s1 & E & W & T & O & A).
    pose proof (len_nonneg (contribution p)).
    pose proof (len_nonneg (concat (map contribution pkts))).
    destruct (IH s1 W T Hps) as (b' & rest' & R1 & R2); [lia |].
    exists b', rest'. rewrite read_loop_cons, E by assumption.
    split; [exact R1 |].
    rewrite R2, A, firstn_firstn_app, app_assoc. reflexivity.
Qed.

End StreamFacts.

Import Stream.

(** X1.  Whatever the USB side delivers, a call that returns gives back
    -1 or a length between 0 and the budget, leaves the length of the
    destination and every byte at or beyond the budget as they were, and
    has consumed a prefix of the events. *)
Theorem read_frame_stays_in_budget :
  forall (bufsz : Z) (evs : list event) (b : list byte)
         (r : Z) (b' : list byte) (rest : list event),
    0 <= bufsz <= len b ->
    read_frame bufsz evs b = Some (r, b', rest) ->
    (r = -1 \/ 0 <= r <= bufsz)
    /\ length b' = length b
    /\ skipn (Z.to_nat bufsz) b' = skipn (Z.to_nat bufsz) b
    /\ exists used, evs = used ++ rest.
Proof.
  intros bufsz evs b r b' rest Hb Hrun.
  apply (read_loop_tail bufsz b evs (mkState b 0 (-1))); try reflexivity.
  - unfold well_formed. cbn [off buf]. lia.
  - exact Hrun.
Qed.

Lemma read_frame_stays_in_budget_witness :
  (0 <= 4 <= len (repeat x00 6)
   /\ read_frame 4
        [Timeout; Data [x02; x00; xaa; xbb; xcc]; Data [x09; x09; x09]; Cancel]
        (repeat x00 6)
      = Some (4, [xaa; xbb; xcc; x09; x00; x00], [Cancel]))
  /\ ((4 = -1 \/ 0 <= 4 <= 4)
      /\ length [xaa; xbb; xcc; x09; x00; x00] = length (repeat x00 6)
      /\ skipn (Z.to_nat 4) [xaa; xbb; xcc; x09; x00; x00]
         = skipn (Z.to_nat 4) (repeat x00 6)
      /\ exists used,
           [Timeout; Data [x02; x00; xaa; xbb; xcc]; Data [x09; x09; x09]; Cancel]
           = used ++ [Cancel]).
Proof.
  assert (H1 : 0 <= 4 <= len (repeat x00 6)) by by_evaluation.
  assert (H2 : read_frame 4
                 [Timeout; Data [x02; x00; xaa; xbb; xcc]; Data [x09; x09; x09];
                  Cancel]
                 (repeat x00 6)
               = Some (4, [xaa; xbb; xcc; x09; x00; x00], [Cancel])).
  { reflexivity. }
  split; [split; assumption |].
  exact (read_frame_stays_in_budget 4 _ _ _ _ _ H1 H2).
Defined.

(** X2.  Timeouts, overflows and transfers of fewer than 2 bytes have no
    influence on the frame: the call returns the same length and the
    same bytes as on the stream without them. *)
Theorem idle_events_do_not_change_the_frame :
  forall (bufsz : Z) (evs : list event) (b : list byte),
    frame_of (read_frame bufsz evs b)
    = frame_of (read_frame bufsz (filter (fun e => negb (idle e)) evs) b).
Proof.
  intros bufsz evs b. unfold read_frame. apply read_loop_skip_idle.
Qed.

(** X3.  A frame made of headerless packets, runts and framed packets of
    one identity, closed by a framed packet with the end-of-frame bit:
    when it fits the budget, the call returns after the closing packet
    and the frame is the contributions in order (whole headerless
    packets, payloads of framed ones, nothing for runts) followed by the
    payload of the closing packet. *)
Theorem read_frame_mixed_stream :
  forall (bufsz f : Z) (pkts : list (list byte)) (last : list byte)
         (rest : list event) (b : list byte),
    bufsz <= len b ->
    Forall (quiet f) pkts -> framed f true last ->
    len (contributions pkts) < bufsz ->
    len (contributions pkts) + len (payload last) <= bufsz ->
    exists b',
      read_frame bufsz (map Data (pkts ++ [last]) ++ rest) b
      = Some (len (contributions pkts) + len (payload last), b', rest)
      /\ prefix (len (contributions pkts) + len (payload last)) b'
         = contributions pkts ++ payload last.
Proof.
  intros bufsz f pkts last rest b Hb Hall Hlast Hlt Hfit.
  pose proof (len_nonneg (contributions pkts)) as Hnn.
  assert (Hwf : well_formed bufsz (mkState b 0 (-1))).
  { unfold well_formed. cbn [off buf]. lia. }
  assert (Htr : tracks f (mkState b 0 (-1))) by (left; cbn [fid]; lia).
  destruct (read_loop_absorbs bufsz f (Data last :: rest) pkts _ Hwf Htr Hall)
    as (s' & E & W & T & O & A); [cbn [off]; lia |].
  cbn [off] in O. rewrite Z.add_0_l in O.
  unfold acc at 2 in A. cbn [off buf] in A.
  change (prefix 0 b) with (@nil byte) in A. cbn [app] in A.
  destruct (read_loop_framed bufsz f true last rest s' W) as (_ & _ & F3 & F4 & F5);
    try assumption; [lia | lia |].
  exists (buf (append bufsz s' (payload last) f)).
  unfold read_frame. rewrite map_app, <- app_assoc. cbn [map app].
  rewrite E, F5, F3, O. split; [reflexivity |].
  rewrite <- O, <- F3. fold (acc (append bufsz s' (payload last) f)).
  rewrite F4, A. reflexivity.
Qed.

Lemma read_frame_mixed_stream_witness :
  (8 <= len (repeat x00 8)
   /\ Forall (quiet 1) [[x07]; [x09; x10; x11]; [x02; x01; xaa]]
   /\ framed 1 true [x02; x03; xbb]
   /\ len (contributions [[x07]; [x09; x10; x11]; [x02; x01; xaa]]) < 8
   /\ len (contributions [[x07]; [x09; x10; x11]; [x02; x01; xaa]])
      + len (payload [x02; x03; xbb]) <= 8)
  /\ exists b',
       read_frame 8
         (map Data ([[x07]; [x09; x10; x11]; [x02; x01; xaa]] ++ [[x02; x03; xbb]])
            ++ [])
         (repeat x00 8)
       = Some (len (contributions [[x07]; [x09; x10; x11]; [x02; x01; xaa]])
               + len (payload [x02; x03; xbb]), b', [])
       /\ prefix (len (contributions [[x07]; [x09; x10; x11]; [x02; x01; xaa]])
                  + len (payload [x02; x03; xbb])) b'
          = contributions [[x07]; [x09; x10; x11]; [x02; x01; xaa]]
            ++ payload [x02; x03; xbb].
Proof.
  assert (H1 : 8 <= len (repeat x00 8)) by by_evaluation.
  assert (H2 : Forall (quiet 1) [[x07]; [x09; x10; x11]; [x02; x01; xaa]]).
  { constructor; [left; by_evaluation |].
    constructor; [right; left; unfold valid_header; by_evaluation |].
    constructor; [right; right; unfold framed, valid_header; by_evaluation |].
    constructor. }
  assert (H3 : framed 1 true [x02; x03; xbb])
    by (unfold framed, valid_header; by_evaluation).
  assert (H4 : len (contributions [[x07]; [x09; x10; x11]; [x02; x01; xaa]]) < 8)
    by by_evaluation.
  assert (H5 : len (contributions [[x07]; [x09; x10; x11]; [x02; x01; xaa]])
               + len (payload [x02; x03; xbb]) <= 8) by by_evaluation.
  split; [tauto |].
  exact (read_frame_mixed_stream 8 1 _ _ [] _ H1 H2 H3 H4 H5).
Defined.

(** X4.  Packets that neither seal nor reset the frame and together
    bring at least the budget: the call returns exactly the budget, and
    the frame is the first [bufsz] bytes of their contributions; what
    lies beyond is dropped. *)
Theorem read_frame_truncates_at_budget :
  forall (bufsz f : Z) (pkts : list (list byte)) (rest : list event)
         (b : list byte),
    0 <= bufsz <= len b ->
    Forall (quiet f) pkts ->
    bufsz <= len (contributions pkts) ->
    exists b' rest',
      read_frame bufsz (map Data pkts ++ rest) b = Some (bufsz, b', rest')
      /\ prefix bufsz b' = firstn (Z.to_nat bufsz) (contributions pkts).
Proof.
  intros bufsz f pkts rest b Hb Hall Hfill.
  assert (Hwf : well_formed bufsz (mkState b 0 (-1))).
  { unfold well_formed. cbn [off buf]. lia. }
  assert (Htr : tracks f (mkState b 0 (-1))) by (left; cbn [fid]; lia).
  destruct (read_loop_truncates bufsz f rest pkts _ Hwf Htr Hall)
    as (b' & rest' & R1 & R2); [cbn [off]; lia |].
  exists b', rest'. split; [exact R1 |]. exact R2.
Qed.

Lemma read_frame_truncates_at_budget_witness :
  (0 <= 4 <= len (repeat x00 4)
   /\ Forall (quiet 0) [[x02; x00; xaa; xbb; xcc]; [x09; x10; x11]]
   /\ 4 <= len (contributions [[x02; x00; xaa; xbb; xcc]; [x09; x10; x11]]))
  /\ exists b' rest',
       read_frame 4 (map Data [[x02; x00; xaa; xbb; xcc]; [x09; x10; x11]] ++ [])
         (repeat x00 4)
       = Some (4, b', rest')
       /\ prefix 4 b'
          = firstn (Z.to_nat 4)
              (contributions [[x02; x00; xaa; xbb; xcc]; [x09; x10; x11]]).
Proof.
  assert (H1 : 0 <= 4 <= len (repeat x00 4)) by by_evaluation.
  assert (H2 : Forall (quiet 0) [[x02; x00; xaa; xbb; xcc]; [x09; x10; x11]]).
  { constructor; [right; right; unfold framed, valid_header; by_evaluation |].
    constructor; [right; left; unfold valid_header; by_evaluation |].
    constructor. }
  assert (H3 : 4 <= len (contributions [[x02; x00; xaa; xbb; xcc]; [x09; x10; x11]]))
    by by_evaluation.
  split; [tauto |].
  exact (read_frame_truncates_at_budget 4 0 _ [] _ H1 H2 H3).
Defined.

(** X5.  A valid-header packet without error bit that carries the
    end-of-frame bit always ends the call, and the call consumes nothing
    after it.  If its identity bit differs from the tracked one while
    bytes are accumulated, the call returns the previous accumulation
    and the packet's payload is not stored; otherwise the payload is
    appended, cut at the budget, and the new length is returned. *)
Theorem end_of_frame_always_returns :
  forall (bufsz : Z) (s : state) (pkt : list byte) (rest : list event),
    well_formed bufsz s -> off s < bufsz ->
    valid_header pkt -> flag BFH_ERR pkt = false -> flag BFH_EOF pkt = true ->
    exists r b',
      read_loop bufsz (Data pkt :: rest) s = Some (r, b', rest)
      /\ ((0 <= fid s /\ fid_bit pkt <> fid s /\ 0 < off s
           /\ r = off s /\ b' = buf s)
          \/ ((fid s < 0 \/ fid_bit pkt = fid s \/ off s <= 0)
              /\ r = Z.min bufsz (off s + len (payload pkt))
              /\ prefix r b' = firstn (Z.to_nat bufsz) (acc s ++ payload pkt))).
Proof.
  intros bufsz s pkt rest Hwf Hlt Hv He Heof.
  rewrite read_loop_cons by assumption.
  destruct (data_cases s pkt) as [H | [[H1 H2] | [[H1 H2] | [H | H]]]].
  - unfold valid_header in Hv. lia.
  - contradiction.
  - congruence.
  - destruct H as (_ & _ & H3 & H4 & H5).
    rewrite on_event_flip by assumption.
    exists (off s), (buf s). split; [reflexivity |]. left. auto.
  - destruct H as (_ & _ & H3).
    rewrite on_event_payload by assumption. cbv zeta. rewrite Heof.
    destruct (append_spec bufsz s (payload pkt) (fid_bit pkt) Hwf Hlt)
      as (A1 & A2 & A3 & A4).
    eexists _, _. split; [reflexivity |]. right.
    split; [assumption |]. split; [exact A3 | exact A4].
Qed.

Lemma end_of_frame_always_returns_witness :
  let s := mkState (xaa :: repeat x00 7) 1 0 in
  let pkt := [x02; x03; xbb] in
  exists r b',
    read_loop 8 (Data pkt :: []) s = Some (r, b', [])
    /\ ((0 <= fid s /\ fid_bit pkt <> fid s /\ 0 < off s
         /\ r = off s /\ b' = buf s)
        \/ ((fid s < 0 \/ fid_bit pkt = fid s \/ off s <= 0)
            /\ r = Z.min 8 (off s + len (payload pkt))
            /\ prefix r b' = firstn (Z.to_nat 8) (acc s ++ payload pkt))).
Proof.
  intros s pkt.
  apply (end_of_frame_always_returns 8 s pkt []).
  - unfold well_formed. by_evaluation.
  - reflexivity.
  - unfold valid_header. by_evaluation.
  - reflexivity.
  - reflexivity.
Defined.

(** ** Classifier on two-level inputs *)

Section LevelFacts.

Import Levels.

Lemma level_row_nth (c : Z) :
  forall (n : nat) (k : Z) (i : nat),
    (i < n)%nat ->
    nth i (level_row c n k) 0%float
    = (double_of (c * (k + Z.of_nat i)) / double_of (k + Z.of_nat i))%float.
Proof.
  induction n as [| n IH]; intros k i Hi; [lia |].
  destruct i as [| i]; cbn [level_row nth].
  - rewrite Z.add_0_r. reflexivity.
  - rewrite IH by lia. rewrite Nat2Z.inj_succ.
    replace (k + 1 + Z.of_nat i) with (k + Z.succ (Z.of_nat i)) by lia.
    reflexivity.
Qed.

Lemma level_rows_nth :
  forall (m : nat) (c : Z) (j : nat),
    (j < m)%nat ->
    nth j (level_rows m c) [] = level_row (c + Z.of_nat j) 3999 1.
Proof.
  induction m as [| m IH]; intros c j Hj; [lia |].
  destruct j as [| j]; cbn [level_rows nth].
  - rewrite Z.add_0_r. reflexivity.
  - rewrite IH by lia. f_equal. lia.
Qed.

Lemma level_consts_nth :
  forall (m : nat) (c : Z) (j : nat),
    (j < m)%nat ->
    nth j (level_consts m c) [] = repeat (double_of (c + Z.of_nat j)) 3999.
Proof.
  induction m as [| m IH]; intros c j Hj; [lia |].
  destruct j as [| j]; cbn [level_consts nth].
  - rewrite Z.add_0_r. reflexivity.
  - rewrite IH by lia. do 2 f_equal. lia.
Qed.

Lemma level_labels_nth :
  forall (m : nat) (c : Z) (j : nat),
    (j < m)%nat ->
    nth j (level_labels m c) false = is_interleaved (double_of (c + Z.of_nat j)).
Proof.
  induction m as [| m IH]; intros c j Hj; [lia |].
  destruct j as [| j]; cbn [level_labels nth].
  - rewrite Z.add_0_r. reflexivity.
  - rewrite IH by lia. do 2 f_equal. lia.
Qed.

Lemma level_tests_nth :
  forall (m : nat) (c : Z) (j : nat),
    (j < m)%nat ->
    nth j (level_tests m c) false = (25 <? c + Z.of_nat j).
Proof.
  induction m as [| m IH]; intros c j Hj; [lia |].
  destruct j as [| j]; cbn [level_tests nth].
  - rewrite Z.add_0_r. reflexivity.
  - rewrite IH by lia. f_equal. lia.
Qed.

(** Binary64 division of [c k] by [k] gives [c] for every level
    difference and every divisor the function can use; by evaluation of
    the 256 x 3999 quotients. *)
Lemma level_table : level_rows 256 0 = level_consts 256 0.
Proof. vm_compute. reflexivity. Qed.

Lemma level_label_table : level_labels 256 0 = level_tests 256 0.
Proof. vm_compute. reflexivity. Qed.

Lemma level_quotient (c d : Z) :
  0 <= c <= 255 -> 1 <= d <= 3999 ->
  (double_of (c * d) / double_of d = double_of c)%float
  /\ is_interleaved (double_of c) = (25 <? c).
Proof.
  intros Hc Hd. split.
  - pose proof (level_row_nth c 3999 1 (Z.to_nat (d - 1))) as Hrow.
    replace (1 + Z.of_nat (Z.to_nat (d - 1))) with d in Hrow by lia.
    rewrite <- Hrow by lia.
    pose proof (level_rows_nth 256 0 (Z.to_nat c)) as Hrows.
    rewrite Z.add_0_l, Z2Nat.id in Hrows by lia.
    rewrite <- Hrows by lia. rewrite level_table.
    rewrite level_consts_nth by lia.
    rewrite Z.add_0_l, Z2Nat.id by lia.
    rewrite (nth_indep _ 0%float (double_of c)) by (rewrite repeat_length; lia).
    apply nth_repeat.
  - pose proof (level_labels_nth 256 0 (Z.to_nat c)) as Hl.
    pose proof (level_tests_nth 256 0 (Z.to_nat c)) as Ht.
    rewrite Z.add_0_l, Z2Nat.id in Hl, Ht by lia.
    rewrite <- Hl, <- Ht by lia. rewrite level_label_table. reflexivity.
Qed.

Lemma neighbor_sum_levels (a b : byte) (n : nat) (check : Z) :
  1 <= check <= Z.of_nat n ->
  neighbor_sum (alternating a b n) check = Z.abs (u8 a - u8 b) * (check - 1).
Proof.
  intros H. unfold neighbor_sum.
  rewrite (fold_range_sum_const
             (fun i => Z.abs (byte_at (alternating a b n) i
                              - byte_at (alternating a b n) (i - 1)))
             (Z.abs (u8 a - u8 b))).
  - rewrite Z2Nat.id by lia. ring.
  - intros j Hj. unfold byte_at.
    replace (Z.to_nat j) with (S (Z.to_nat (j - 1))) by lia.
    destruct (nth_alternating x00 n a b (Z.to_nat (j - 1))) as [[-> ->] | [-> ->]];
      lia.
Qed.

End LevelFacts.

(** X6.  On an input of length at least 2 that alternates between two
    byte values [a] and [b], [neighbor_diff] is exactly [|a - b|], and
    the input is labeled interleaved exactly when the two values differ
    by more than 25. *)
Theorem two_level_input_is_classified_by_its_step :
  forall (a b : byte) (n : nat),
    (2 <= n)%nat ->
    neighbor_diff (alternating a b n) (len (alternating a b n))
    = double_of (Z.abs (u8 a - u8 b))
    /\ is_interleaved
         (neighbor_diff (alternating a b n) (len (alternating a b n)))
       = (25 <? Z.abs (u8 a - u8 b)).
Proof.
  intros a b n Hn. unfold neighbor_diff, len. rewrite length_alternating.
  destruct (Z.ltb_spec (Z.of_nat n) 2) as [H | H]; [lia |].
  destruct (check_of_range (Z.of_nat n) H) as [Hc Hn'].
  rewrite neighbor_sum_levels by lia.
  pose proof (u8_range a). pose proof (u8_range b).
  destruct (level_quotient (Z.abs (u8 a - u8 b)) (check_of (Z.of_nat n) - 1))
    as [Q1 Q2]; [lia | lia |].
  rewrite Q1. split; [reflexivity | exact Q2].
Qed.

Lemma two_level_input_is_classified_by_its_step_witness :
  (2 <= 5)%nat
  /\ neighbor_diff (alternating x10 x29 5) (len (alternating x10 x29 5))
     = double_of (Z.abs (u8 x10 - u8 x29))
  /\ is_interleaved
       (neighbor_diff (alternating x10 x29 5) (len (alternating x10 x29 5)))
     = (25 <? Z.abs (u8 x10 - u8 x29)).
Proof.
  assert (H : (2 <= 5)%nat) by lia.
  split; [exact H |].
  exact (two_level_input_is_classified_by_its_step x10 x29 5%nat H).
Defined.

(** ** Gates of the viewer loop, frame by frame *)

(** Splits [filter_frame] along its gates, in the order of the loop:
    no frame, fragment, (gate open: stripe, size, dark, jump, display,
    zero divisor), stitching. *)
Ltac run_gates st fbuf got :=
  unfold filter_frame; cbv zeta;
  destruct (Z.leb_spec got 0) as [Hgot0 | Hgot0];
  [ | destruct (Z.ltb_spec got 100) as [Hgot | Hgot];
      [ | destruct (accumulation_gate (negotiated_frame_size st) (accum_st st)
                      (snd (strip_meta_header (mkView fbuf 0 got))))
            as [[v' |] a'] eqn:Egate;
          [ destruct (stripe_filter st
                      && is_interleaved (neighbor_diff (data v') (pixlen v')))
              eqn:Estripe;
            [ | destruct (size_band_reject (frame_hold (hold_st st))
                            (locked_size (hold_st st)) (pixlen v')) eqn:Esize;
                [ | destruct (qavg_of v') as [q' |] eqn:Eavg;
                    [ destruct (Z.ltb_spec q' (bright_thresh st)) as [Hdark | Hdark];
                      [ | destruct (frame_hold (hold_st st)
                                    && (last_avg (hold_st st) >=? 0)
                                    && (Z.abs (q' - last_avg (hold_st st))
                                        >? avg_tolerance)) eqn:Ejump ]
                    | ] ] ]
          | ] ] ].

Section GateFacts.

Lemma fold_range_sum_bounds (f : Z -> Z) (lo hi : Z) :
  forall (n : nat) (i a : Z),
    (forall j, i <= j < i + Z.of_nat n -> lo <= f j <= hi) ->
    a + lo * Z.of_nat n <= fold_range n i (fun j s => s + f j) a
    <= a + hi * Z.of_nat n.
Proof.
  induction n as [| n IH]; intros i a H; cbn [fold_range].
  - cbn. lia.
  - specialize (IH (i + 1) (a + f i)).
    assert (Hi : lo <= f i <= hi) by (apply H; lia).
    assert (Hrest : forall j, i + 1 <= j < i + 1 + Z.of_nat n -> lo <= f j <= hi)
      by (intros j Hj; apply H; lia).
    specialize (IH Hrest). rewrite Nat2Z.inj_succ. lia.
Qed.

Lemma qsum_of_bounds (p : list byte) (qn : Z) :
  0 <= qn -> 0 <= qsum_of p qn <= 255 * qn.
Proof.
  intros H. unfold qsum_of.
  pose proof (fold_range_sum_bounds (fun i => byte_at p i) 0 255
                (Z.to_nat qn) 0 0) as B.
  rewrite Z2Nat.id in B by lia.
  apply B. intros j _. apply byte_at_range.
Qed.

Lemma qn_of_bounds (pixlen : Z) :
  qn_of pixlen <= 4000 /\ qn_of pixlen <= pixlen
  /\ (0 < pixlen -> 0 < qn_of pixlen).
Proof. unfold qn_of. destruct (Z.ltb_spec pixlen 4000); lia. Qed.

(** The brightness is the integer mean of the first [qn] bytes. *)
Lemma qavg_of_mean (v : view) (q : Z) :
  qavg_of v = Some q ->
  0 <= q <= 255
  /\ (0 < pixlen v ->
      q * qn_of (pixlen v) <= qsum_of (data v) (qn_of (pixlen v))
      < (q + 1) * qn_of (pixlen v)).
Proof.
  unfold qavg_of, cdiv. intros H.
  destruct (Z.eqb_spec (qn_of (pixlen v)) 0) as [Hz | Hz]; [discriminate |].
  inversion H as [Hq]; clear H.
  destruct (qn_of_bounds (pixlen v)) as (B1 & B2 & B3).
  destruct (Z_lt_dec (qn_of (pixlen v)) 0) as [Hneg | Hpos].
  - assert (Hs : qsum_of (data v) (qn_of (pixlen v)) = 0).
    { unfold qsum_of. replace (Z.to_nat (qn_of (pixlen v))) with 0%nat by lia.
      reflexivity. }
    rewrite Hs. rewrite Z.quot_0_l by lia.
    change (to_int 0) with 0. split; [lia | intros Hp; lia].
  - assert (Hqn : 0 < qn_of (pixlen v)) by lia.
    pose proof (qsum_of_bounds (data v) (qn_of (pixlen v))) as Hs.
    assert (Hs' : 0 <= qsum_of (data v) (qn_of (pixlen v))
                  <= 255 * qn_of (pixlen v)) by (apply Hs; lia).
    rewrite Z.quot_div_nonneg by lia.
    set (qs := qsum_of (data v) (qn_of (pixlen v))) in *.
    set (qn := qn_of (pixlen v)) in *.
    assert (Hd0 : 0 <= qs / qn) by (apply Z.div_pos; lia).
    assert (Hd1 : qs / qn <= 255)
      by (apply Z.div_le_upper_bound; lia).
    rewrite to_int_small by (unfold INT_MAX; lia).
    split; [lia |]. intros _.
    pose proof (Z.mul_div_le qs qn Hqn).
    pose proof (Z.mul_succ_div_gt qs qn Hqn). lia.
Qed.

(** The size-band test in plain integers, for a lock an [int] product
    with 120 can hold. *)
Lemma size_band_reject_iff (L pixlen : Z) :
  0 < L -> L * 120 <= INT_MAX ->
  size_band_reject true L pixlen = false
  <-> L * 80 ÷ 100 <= pixlen <= L * 120 ÷ 100.
Proof.
  intros HL Hmax. unfold size_band_reject, size_tolerance. cbn [andb].
  destruct (Z.gtb_spec L 0) as [_ | H]; [| lia].
  unfold INT_MAX in Hmax.
  rewrite !to_int_small by (unfold INT_MAX; lia).
  change (100 - 20) with 80. change (100 + 20) with 120.
  rewrite orb_false_iff, Z.ltb_ge, Z.gtb_ltb, Z.ltb_ge. tauto.
Qed.

End GateFacts.

(** X7.  The brightness of a frame is the integer mean of its first
    [qn = min(pixlen, 4000)] bytes, a value from 0 to 255.  So with the
    floor lowered to 0 no frame is skipped as dark, and with a floor above
    255 no frame is shown. *)
Theorem brightness_is_a_byte_mean :
  (forall (v : view) (q : Z),
      qavg_of v = Some q ->
      0 <= q <= 255
      /\ (0 < pixlen v ->
          q * qn_of (pixlen v) <= qsum_of (data v) (qn_of (pixlen v))
          < (q + 1) * qn_of (pixlen v)))
  /\ (forall (st : stab) (fbuf : list byte) (got : Z),
         bright_thresh st <= 0 -> fst (filter_frame st fbuf got) <> Dark)
  /\ (forall (st : stab) (fbuf : list byte) (got : Z) (v : view) (q : Z)
             (nd : float),
         255 < bright_thresh st ->
         fst (filter_frame st fbuf got) <> Display v q nd).
Proof.
  split; [exact qavg_of_mean |]. split.
  - intros st fbuf got Hb.
    run_gates st fbuf got; cbn [fst]; try discriminate.
    destruct (qavg_of_mean v' q' Eavg) as [Hq _]. lia.
  - intros st fbuf got v q nd Hb.
    run_gates st fbuf got; cbn [fst]; try discriminate.
    destruct (qavg_of_mean v' q' Eavg) as [Hq _]. lia.
Qed.

Lemma brightness_is_a_byte_mean_witness :
  let st := mkStab 0 true 0 (mkHold true 0 (-1) [] 0 false)
              (mkAccum false [] 0) (mkCounters 0 0 0 0 0 0) in
  bright_thresh st <= 0
  /\ fst (filter_frame st (repeat x01 100) 100) <> Dark.
Proof.
  intros st.
  assert (H : bright_thresh st <= 0) by by_evaluation.
  split; [exact H |].
  exact (proj1 (proj2 brightness_is_a_byte_mean) st (repeat x01 100) 100 H).
Defined.

(** X8.  A frame is shown only if it passed every gate: it has at least
    100 bytes; with the stripe filter on it is not labeled interleaved;
    with frame-hold on and a size lock [L] its length lies in
    [[L * 80 / 100, L * 120 / 100]]; its brightness is not below the
    floor; and with frame-hold on and a previous brightness, the two
    differ by at most 40.  The values reported with it are those of the
    frame itself. *)
Theorem shown_frames_passed_every_gate :
  forall (st st' : stab) (fbuf : list byte) (got : Z) (v : view) (q : Z)
         (nd : float),
    filter_frame st fbuf got = (Display v q nd, st') ->
    100 <= got
    /\ nd = neighbor_diff (data v) (pixlen v)
    /\ qavg_of v = Some q
    /\ (stripe_filter st = true -> is_interleaved nd = false)
    /\ (frame_hold (hold_st st) = true ->
        0 < locked_size (hold_st st) ->
        locked_size (hold_st st) * 120 <= INT_MAX ->
        locked_size (hold_st st) * 80 ÷ 100 <= pixlen v
        <= locked_size (hold_st st) * 120 ÷ 100)
    /\ bright_thresh st <= q
    /\ (frame_hold (hold_st st) = true -> 0 <= last_avg (hold_st st) ->
        Z.abs (q - last_avg (hold_st st)) <= 40)
    /\ frames (cnt st') = frames (cnt st) + 1.
Proof.
  intros st st' fbuf got v q nd.
  run_gates st fbuf got; intros Heq; try discriminate Heq.
  injection Heq as Hv Hq Hnd Hst. subst v q nd st'. cbn [cnt frames].
  split; [assumption |]. split; [reflexivity |]. split; [assumption |].
  split.
  { intros Hs. rewrite Hs in Estripe. exact Estripe. }
  split.
  { intros Hh HL Hmax. rewrite Hh in Esize.
    apply size_band_reject_iff; assumption. }
  split; [lia |]. split; [| reflexivity].
  intros Hh Hl. rewrite Hh in Ejump. cbn [andb] in Ejump.
  destruct (Z.geb_spec (last_avg (hold_st st)) 0) as [_ | Hneg]; [| lia].
  cbn [andb] in Ejump. unfold avg_tolerance in Ejump.
  destruct (Z.gtb_spec (Z.abs (q' - last_avg (hold_st st))) 40); [discriminate | lia].
Qed.

Lemma shown_frames_passed_every_gate_witness :
  let st := mkStab 0 true 15 (mkHold true 0 (-1) (repeat x00 100) 0 false)
              (mkAccum false [] 0) (mkCounters 0 0 0 0 0 0) in
  let fbuf := repeat x80 100 in
  let v := mkView fbuf 0 100 in
  filter_frame st fbuf 100
  = (Display v 128 0%float, snd (filter_frame st fbuf 100))
  /\ 100 <= 100
  /\ qavg_of v = Some 128
  /\ bright_thresh st <= 128.
Proof.
  intros st fbuf v.
  assert (H : filter_frame st fbuf 100
              = (Display v 128 0%float, snd (filter_frame st fbuf 100))).
  { vm_compute. reflexivity. }
  split; [exact H |].
  destruct (shown_frames_passed_every_gate st _ fbuf 100 v 128 0%float H)
    as (A & _ & B & _ & _ & C & _).
  auto.
Defined.


Import Session Controls.

Section SessionFacts.





End SessionFacts.



Section HoldFacts.

(** The hold state after one frame, by whether the frame was shown. *)
Lemma filter_frame_hold (st : stab) (fbuf : list byte) (got : Z) :
  (exists v q nd,
      filter_frame st fbuf got
      = (Display v q nd,
         mkStab (negotiated_frame_size st) (stripe_filter st) (bright_thresh st)
           (accept (hold_st st)
              (mkCounters (frames (cnt st)) (all_frames (cnt st) + 1)
                 (skip_stripe (cnt st)) (skip_dark (cnt st))
                 (skip_size (cnt st)) (skip_bright (cnt st)))
              v q)
           (accum_st (snd (filter_frame st fbuf got)))
           (cnt (snd (filter_frame st fbuf got))))
      /\ qavg_of v = Some q
      /\ size_band_reject (frame_hold (hold_st st)) (locked_size (hold_st st))
           (pixlen v) = false
      /\ (frame_hold (hold_st st) && (last_avg (hold_st st) >=? 0)
          && (Z.abs (q - last_avg (hold_st st)) >? avg_tolerance)) = false)
  \/ ((forall v q nd, fst (filter_frame st fbuf got) <> Display v q nd)
      /\ hold_st (snd (filter_frame st fbuf got)) = hold_st st).
Proof.
  run_gates st fbuf got; cbn [fst snd]; unfold with_cnt; cbn [hold_st];
    try (right; split; [intros; discriminate | reflexivity]).
  left. exists v', q', (neighbor_diff (data v') (pixlen v')).
  cbn [accum_st cnt]. auto.
Qed.

(** A cleared lock in a session that has shown a frame stays cleared. *)
Lemma size_lock_is_cleared (st : stab) (fbuf : list byte) (got : Z) :
  locked_size (hold_st st) = 0 -> frames (cnt st) <> 0 ->
  locked_size (hold_st (snd (filter_frame st fbuf got))) = 0.
Proof.
  intros HL Hf.
  destruct (filter_frame_hold st fbuf got) as [(v & q & nd & E & _) | [Hn Hh]].
  - rewrite E. cbn [snd hold_st]. unfold accept. cbn [frames].
    destruct (frame_hold (hold_st st)); [| exact HL].
    cbn [locked_size].
    destruct (Z.eqb_spec (frames (cnt st)) 0); [contradiction |].
    rewrite andb_false_r. exact HL.
  - rewrite Hh. exact HL.
Qed.

End HoldFacts.



(** X12.  With frame-hold on, a shown frame is kept: the hold buffer then
    starts with exactly the bytes of the frame, [hold_len] is its length,
    the brightness baseline is its brightness, and pressing L afterwards
    locks the size band to that length. *)
Theorem shown_frame_is_held :
  forall (st st' : stab) (fbuf : list byte) (got : Z) (v : view) (q : Z)
         (nd : float),
    filter_frame st fbuf got = (Display v q nd, st') ->
    frame_hold (hold_st st) = true ->
    0 <= pixlen v <= len (hold_buf (hold_st st)) ->
    pixlen v <= len (data v) ->
    hold_valid (hold_st st') = true
    /\ hold_len (hold_st st') = pixlen v
    /\ last_avg (hold_st st') = q
    /\ prefix (hold_len (hold_st st')) (hold_buf (hold_st st')) = bytes v
    /\ length (hold_buf (hold_st st')) = length (hold_buf (hold_st st))
    /\ locked_size (hold_st (key_l st')) = pixlen v.
Proof.
  intros st st' fbuf got v q nd E Hh Hp Hd.
  destruct (filter_frame_hold st fbuf got) as [(v0 & q0 & nd0 & E0 & Hq & _) | [Hn _]].
  - rewrite E in E0. injection E0 as Ev Eq End Est. subst v0 q0 nd0.
    assert (Hpos : 0 < pixlen v).
    { unfold qavg_of, cdiv in Hq.
      destruct (Z.eqb_spec (qn_of (pixlen v)) 0) as [Hz | Hz]; [discriminate |].
      unfold qn_of in Hz. destruct (Z.ltb_spec (pixlen v) 4000); lia. }
    assert (Hhold : hold_st st'
                    = mkHold true
                        (if (locked_size (hold_st st) =? 0) && (frames (cnt st) =? 0)
                         then pixlen v else locked_size (hold_st st))
                        q (memcpy (hold_buf (hold_st st)) 0 (data v) (pixlen v))
                        (pixlen v) true).
    { rewrite Est. cbn [hold_st]. unfold accept. rewrite Hh. reflexivity. }
    unfold key_l. cbn [hold_st]. rewrite Hhold.
    cbn [hold_valid hold_len last_avg hold_buf locked_size frame_hold].
    split; [reflexivity |]. split; [reflexivity |]. split; [reflexivity |].
    split; [| split].
    + change (pixlen v) with (0 + pixlen v) at 1.
      rewrite prefix_memcpy by lia. reflexivity.
    + apply length_memcpy; lia.
    + destruct (Z.gtb_spec (pixlen v) 0); [reflexivity | lia].
  - exfalso. apply (Hn v q nd). rewrite E. reflexivity.
Qed.

Lemma shown_frame_is_held_witness :
  let st := mkStab 0 true 15 (mkHold true 0 (-1) (repeat x00 100) 0 false)
              (mkAccum false [] 0) (mkCounters 0 0 0 0 0 0) in
  let fbuf := repeat x80 100 in
  let v := mkView fbuf 0 100 in
  let st' := snd (filter_frame st fbuf 100) in
  (filter_frame st fbuf 100 = (Display v 128 0%float, st')
   /\ frame_hold (hold_st st) = true
   /\ 0 <= pixlen v <= len (hold_buf (hold_st st))
   /\ pixlen v <= len (data v))
  /\ hold_len (hold_st st') = pixlen v
  /\ prefix (hold_len (hold_st st')) (hold_buf (hold_st st')) = bytes v
  /\ locked_size (hold_st (key_l st')) = pixlen v.
Proof.
  intros st fbuf v st'.
  assert (H1 : filter_frame st fbuf 100 = (Display v 128 0%float, st'))
    by (vm_compute; reflexivity).
  assert (H2 : frame_hold (hold_st st) = true) by reflexivity.
  assert (H3 : 0 <= pixlen v <= len (hold_buf (hold_st st))) by by_evaluation.
  assert (H4 : pixlen v <= len (data v)) by by_evaluation.
  split; [tauto |].
  destruct (shown_frame_is_held st st' fbuf 100 v 128 0%float H1 H2 H3 H4)
    as (_ & A & _ & B & _ & C).
  auto.
Defined.

(** X13.  Accumulation mode with a target [T] (the negotiated size,
    positive as an [int]) and an offset below it: a fragment that does
    not reach the target is appended whole and no frame is handed on; a
    fragment that reaches it is appended only up to the target, the frame
    handed on has exactly [T] bytes (what was accumulated, then the first
    [T - offset] bytes of the fragment), the rest of the fragment is
    dropped and the offset returns to 0. *)
Theorem accumulation_hands_on_exactly_the_target :
  forall (T : Z) (a : accum) (v : view),
    accumulate a = true ->
    0 < T <= INT_MAX -> 0 <= accum_off a < T -> T <= len (accum_buf a) ->
    0 <= pixlen v <= INT_MAX -> pixlen v <= len (data v) ->
    let r := accumulation_gate T a v in
    accumulate (snd r) = true
    /\ 0 <= accum_off (snd r) < T
    /\ length (accum_buf (snd r)) = length (accum_buf a)
    /\ (accum_off a + pixlen v < T ->
        fst r = None
        /\ accum_off (snd r) = accum_off a + pixlen v
        /\ prefix (accum_off (snd r)) (accum_buf (snd r))
           = prefix (accum_off a) (accum_buf a) ++ bytes v)
    /\ (T <= accum_off a + pixlen v ->
        exists out,
          fst r = Some out
          /\ pix out = 0 /\ pixlen out = T
          /\ bytes out
             = prefix (accum_off a) (accum_buf a)
               ++ firstn (Z.to_nat (T - accum_off a)) (bytes v)
          /\ accum_off (snd r) = 0).
Proof.
  intros T a v Ha HT Ho Hb Hp Hd r. subst r.
  unfold accumulation_gate, INT_MAX in *. rewrite Ha. cbn [andb].
  destruct (Z.gtb_spec T 0) as [_ | H]; [| lia].
  rewrite (to_int_small T) by (unfold INT_MAX; lia).
  rewrite (to_int_small (T - accum_off a)) by (unfold INT_MAX; lia).
  assert (Hbytes : forall n, 0 <= n <= pixlen v ->
                             firstn (Z.to_nat n) (data v)
                             = firstn (Z.to_nat n) (bytes v)).
  { intros n Hn. unfold bytes. rewrite firstn_firstn. f_equal. lia. }
  destruct (Z.ltb_spec (pixlen v) (T - accum_off a)) as [Hlt | Hge].
  - (* the fragment fits below the target *)
    destruct (Z.gtb_spec (pixlen v) 0) as [Hpos | Hzero].
    + cbn [accum_off accum_buf accumulate].
      rewrite (to_int_small (accum_off a + pixlen v)) by (unfold INT_MAX; lia).
      destruct (Z.ltb_spec (accum_off a + pixlen v) T) as [_ | H]; [| lia].
      cbn [fst snd accum_off accum_buf accumulate].
      split; [reflexivity |]. split; [lia |].
      split; [apply length_memcpy; lia |]. split; [| intros; lia].
      intros _. split; [reflexivity |]. split; [reflexivity |].
      rewrite prefix_memcpy by lia. reflexivity.
    + assert (Hz : pixlen v = 0) by lia.
      destruct (Z.ltb_spec (accum_off a) T) as [_ | H]; [| lia].
      cbn [fst snd]. split; [assumption |]. split; [lia |].
      split; [reflexivity |]. split; [| intros; lia].
      intros _. split; [reflexivity |]. split; [lia |].
      unfold bytes. rewrite Hz. cbn [Z.to_nat firstn]. rewrite app_nil_r.
      reflexivity.
  - (* the fragment reaches the target *)
    destruct (Z.gtb_spec (T - accum_off a) 0) as [_ | H]; [| lia].
    cbn [accum_off accum_buf accumulate].
    replace (accum_off a + (T - accum_off a)) with T by lia.
    rewrite (to_int_small T) by (unfold INT_MAX; lia).
    rewrite Z.ltb_irrefl. cbn [fst snd accum_off accum_buf accumulate].
    split; [reflexivity |]. split; [lia |].
    split; [apply length_memcpy; lia |]. split; [intros; lia |].
    intros _. eexists. split; [reflexivity |]. cbn [pix pixlen].
    split; [reflexivity |]. split; [reflexivity |]. split; [| reflexivity].
    unfold bytes at 1, data at 1. cbn [base pix pixlen Z.to_nat skipn].
    change (prefix T (memcpy (accum_buf a) (accum_off a) (data v)
                        (T - accum_off a))
            = prefix (accum_off a) (accum_buf a)
              ++ firstn (Z.to_nat (T - accum_off a)) (bytes v)).
    replace T with (accum_off a + (T - accum_off a)) at 1 by lia.
    rewrite prefix_memcpy by lia. f_equal.
    apply Hbytes. lia.
Qed.

Lemma accumulation_hands_on_exactly_the_target_witness :
  let a := mkAccum true (xaa :: xbb :: repeat x00 6) 2 in
  let v := mkView [x01; x02; x03; x04; x05] 0 5 in
  (accumulate a = true /\ 0 < 4 <= INT_MAX /\ 0 <= accum_off a < 4
   /\ 4 <= len (accum_buf a) /\ 0 <= pixlen v <= INT_MAX
   /\ pixlen v <= len (data v) /\ 4 <= accum_off a + pixlen v)
  /\ exists out,
       fst (accumulation_gate 4 a v) = Some out
       /\ pix out = 0 /\ pixlen out = 4
       /\ bytes out
          = prefix (accum_off a) (accum_buf a)
            ++ firstn (Z.to_nat (4 - accum_off a)) (bytes v)
       /\ accum_off (snd (accumulation_gate 4 a v)) = 0.
Proof.
  intros a v.
  assert (H1 : accumulate a = true) by reflexivity.
  assert (H2 : 0 < 4 <= INT_MAX) by by_evaluation.
  assert (H3 : 0 <= accum_off a < 4) by by_evaluation.
  assert (H4 : 4 <= len (accum_buf a)) by by_evaluation.
  assert (H5 : 0 <= pixlen v <= INT_MAX) by by_evaluation.
  assert (H6 : pixlen v <= len (data v)) by by_evaluation.
  assert (H7 : 4 <= accum_off a + pixlen v) by by_evaluation.
  split; [tauto |].
  exact (proj2 (proj2 (proj2 (proj2
           (accumulation_hands_on_exactly_the_target 4 a v H1 H2 H3 H4 H5 H6))))
           H7).
Defined.

(** X14.  With frame-hold off, no frame is skipped for its size or for a
    brightness jump, and frames leave the hold state alone.  Switching
    frame-hold off clears the lock, the brightness baseline and the held
    frame, so that L then clears the lock as well; after switching it on
    again in a session that has already shown a frame, the next frame is
    not skipped for size or jump and the lock stays cleared. *)
Theorem frame_hold_toggle_clears_the_lock :
  (forall (st : stab) (fbuf : list byte) (got : Z),
      frame_hold (hold_st st) = false ->
      fst (filter_frame st fbuf got) <> OffSize
      /\ fst (filter_frame st fbuf got) <> Jump
      /\ hold_st (snd (filter_frame st fbuf got)) = hold_st st)
  /\ (forall st : stab,
         frame_hold (hold_st st) = true ->
         frame_hold (hold_st (key_h st)) = false
         /\ locked_size (hold_st (key_h st)) = 0
         /\ last_avg (hold_st (key_h st)) = -1
         /\ hold_valid (hold_st (key_h st)) = false
         /\ locked_size (hold_st (key_l (key_h st))) = 0)
  /\ (forall (st : stab) (fbuf : list byte) (got : Z),
         frame_hold (hold_st st) = true -> frames (cnt st) <> 0 ->
         let st2 := key_h (key_h st) in
         frame_hold (hold_st st2) = true
         /\ fst (filter_frame st2 fbuf got) <> OffSize
         /\ fst (filter_frame st2 fbuf got) <> Jump
         /\ locked_size (hold_st (snd (filter_frame st2 fbuf got))) = 0).
Proof.
  split; [| split].
  - intros st fbuf got Hh.
    run_gates st fbuf got; cbn [fst snd]; unfold with_cnt; cbn [hold_st];
      try (split; [discriminate | split; [discriminate | reflexivity]]).
    + rewrite Hh in Esize. discriminate Esize.
    + rewrite Hh in Ejump. discriminate Ejump.
    + unfold accept. rewrite Hh.
      split; [discriminate | split; [discriminate | reflexivity]].
  - intros st Hh. unfold key_l, key_h. cbn [hold_st]. rewrite Hh.
    cbn [negb frame_hold locked_size last_avg hold_valid andb]. auto.
  - intros st fbuf got Hh Hf st2.
    assert (E2 : hold_st st2
                 = mkHold true 0 (-1) (hold_buf (hold_st st))
                     (hold_len (hold_st st)) false).
    { subst st2. unfold key_h. cbn [hold_st]. rewrite Hh.
      cbn [negb frame_hold locked_size last_avg hold_valid hold_buf hold_len].
      reflexivity. }
    assert (Ec : cnt st2 = cnt st) by reflexivity.
    split; [rewrite E2; reflexivity |].
    assert (B : locked_size (hold_st (snd (filter_frame st2 fbuf got))) = 0)
      by (apply size_lock_is_cleared;
          [rewrite E2; reflexivity | rewrite Ec; exact Hf]).
    split; [| split]; [| | exact B].
    + run_gates st2 fbuf got; cbn [fst]; try discriminate.
      rewrite E2 in Esize. cbn in Esize. discriminate Esize.
    + run_gates st2 fbuf got; cbn [fst]; try discriminate.
      rewrite E2 in Ejump. cbn in Ejump. discriminate Ejump.
Qed.

(** ** The accumulation buffer over a whole run of the viewer *)

Section RunFacts.

Import Session Controls.

Lemma stripped_in_buffer (fbuf : list byte) (got : Z) :
  0 <= got <= len fbuf ->
  let v := snd (strip_meta_header (mkView fbuf 0 got)) in
  pixlen v <= len (data v).
Proof.
  intros Hg v. subst v. unfold strip_meta_header, has_meta.
  destruct (Z.gtb_spec (pixlen (mkView fbuf 0 got)) 12) as [H12 | H12];
    cbn [andb].
  - destruct (_ && _ && _); unfold data, len in *;
      cbn [snd base pix pixlen Z.add] in *; rewrite length_skipn; lia.
  - unfold data, len in *. cbn [snd base pix pixlen] in *.
    rewrite length_skipn. lia.
Qed.

Lemma accumulation_gate_ok (T : Z) (a : accum) (v : view) :
  T <= MAX_FRAME_SIZE ->
  len (accum_buf a) = MAX_FRAME_SIZE -> 0 <= accum_off a < T ->
  pixlen v <= len (data v) ->
  len (accum_buf (snd (accumulation_gate T a v))) = MAX_FRAME_SIZE
  /\ 0 <= accum_off (snd (accumulation_gate T a v)) < T.
Proof.
  intros T_fits Hb Ho Hd. unfold MAX_FRAME_SIZE in *.
  unfold accumulation_gate.
  destruct (accumulate a && (T >? 0)); [| cbn [snd]; auto].
  rewrite (to_int_small T) by (unfold INT_MAX; lia).
  rewrite (to_int_small (T - accum_off a)) by (unfold INT_MAX; lia).
  set (copy := if pixlen v <? T - accum_off a then pixlen v
               else T - accum_off a).
  assert (Hc : copy <= T - accum_off a /\ copy <= pixlen v)
    by (subst copy; destruct (Z.ltb_spec (pixlen v) (T - accum_off a)); lia).
  destruct (Z.gtb_spec copy 0) as [Hpos | Hnon].
  - cbn [accum_off accum_buf accumulate].
    rewrite (to_int_small (accum_off a + copy)) by (unfold INT_MAX; lia).
    assert (Hl : len (memcpy (accum_buf a) (accum_off a) (data v) copy)
                 = 1024 * 1024).
    { unfold len at 1. rewrite length_memcpy by lia. exact Hb. }
    destruct (Z.ltb_spec (accum_off a + copy) T);
      cbn [snd accum_off accum_buf]; split; (exact Hl || lia).
  - destruct (Z.ltb_spec (accum_off a) T); [| lia].
    cbn [snd]. auto.
Qed.

Lemma filter_frame_accum (st : stab) (fbuf : list byte) (got : Z) :
  negotiated_frame_size (snd (filter_frame st fbuf got))
  = negotiated_frame_size st
  /\ (accum_st (snd (filter_frame st fbuf got)) = accum_st st
      \/ (100 <= got
          /\ accum_st (snd (filter_frame st fbuf got))
             = snd (accumulation_gate (negotiated_frame_size st) (accum_st st)
                      (snd (strip_meta_header (mkView fbuf 0 got)))))).
Proof.
  run_gates st fbuf got; cbn [snd]; unfold with_cnt;
    cbn [negotiated_frame_size accum_st];
    (split; [reflexivity |]); try (left; reflexivity);
    right; (split; [lia | reflexivity]).
Qed.

Lemma react_ok (T : Z) (st : stab) (i : input) :
  T <= MAX_FRAME_SIZE ->
  in_buffer i -> accum_ok T st -> accum_ok T (react st i).
Proof.
  intros T_fits Hi (Hn & Hb & Ho). unfold accum_ok.
  destruct i as [| | | | | fbuf got]; cbn [react].
  - unfold key_a. cbn [negotiated_frame_size accum_st accum_buf accum_off].
    split; [exact Hn |]. split; [exact Hb | lia].
  - unfold key_b. cbn [negotiated_frame_size accum_st]. auto.
  - unfold key_h. cbn [negotiated_frame_size accum_st]. auto.
  - unfold key_l. cbn [negotiated_frame_size accum_st]. auto.
  - unfold key_s. cbn [negotiated_frame_size accum_st]. auto.
  - cbn [in_buffer] in Hi.
    destruct (filter_frame_accum st fbuf got) as [Hneg [Hsame | [H100 Hgate]]].
    + rewrite Hneg, Hsame. auto.
    + rewrite Hneg, Hgate, Hn. split; [reflexivity |].
      apply accumulation_gate_ok; [exact T_fits | exact Hb | exact Ho |].
      apply stripped_in_buffer. lia.
Qed.

Lemma viewer_run_ok (T : Z) (inputs : list input) :
  T <= MAX_FRAME_SIZE ->
  forall st : stab,
    Forall in_buffer inputs -> accum_ok T st ->
    accum_ok T (viewer_run st inputs).
Proof.
  intros T_fits.
  induction inputs as [| i inputs IH]; intros st Hin Hst; [exact Hst |].
  inversion Hin; subst.
  change (viewer_run st (i :: inputs)) with (viewer_run (react st i) inputs).
  apply IH; [assumption |]. apply react_ok; assumption.
Qed.

Lemma initial_ok (T : Z) : 0 < T -> accum_ok T (initial T).
Proof.
  intros T_pos. unfold accum_ok, initial.
  cbn [negotiated_frame_size accum_st accum_buf accum_off].
  split; [reflexivity |]. split; [| lia].
  unfold len. rewrite repeat_length. apply Z2Nat.id.
  unfold MAX_FRAME_SIZE. lia.
Qed.

End RunFacts.

Import Session Controls.

(** X15.  With a negotiated size [T] from 1 to the 1 MiB of the buffers,
    whatever keys are pressed and whatever frames [read_frame] returns,
    every iteration of the viewer finds the accumulation offset in
    [0 .. T - 1] and the accumulation buffer at its full length; so the
    copy of a fragment of any length [pixlen >= 0] starts and ends inside
    the buffer, and never passes the target. *)
Theorem accumulation_stays_inside_its_buffer :
  forall (T : Z) (inputs : list input),
    0 < T <= MAX_FRAME_SIZE ->
    Forall in_buffer inputs ->
    let st := viewer_run (initial T) inputs in
    let a := accum_st st in
    negotiated_frame_size st = T
    /\ len (accum_buf a) = MAX_FRAME_SIZE
    /\ 0 <= accum_off a < T
    /\ forall pixlen : Z,
         0 <= pixlen ->
         0 <= accum_copy T a pixlen <= pixlen
         /\ accum_off a + accum_copy T a pixlen <= T
         /\ accum_off a + accum_copy T a pixlen <= len (accum_buf a).
Proof.
  intros T inputs [HT0 HT1] Hin st a.
  destruct (viewer_run_ok T inputs HT1 (initial T) Hin (initial_ok T HT0))
    as (Hn & Hb & Ho).
  fold st in Hn, Hb, Ho. fold a in Hb, Ho.
  split; [exact Hn |]. split; [exact Hb |]. split; [exact Ho |].
  intros pixlen Hp. unfold accum_copy. unfold MAX_FRAME_SIZE in *.
  rewrite (to_int_small T) by (unfold INT_MAX; lia).
  rewrite (to_int_small (T - accum_off a)) by (unfold INT_MAX; lia).
  destruct (Z.ltb_spec pixlen (T - accum_off a)); lia.
Qed.

Lemma accumulation_stays_inside_its_buffer_witness :
  let inputs := [Key_a; Frame (repeat x01 120) 120; Key_s;
                 Frame (repeat x02 150) 150] in
  (0 < 200 <= MAX_FRAME_SIZE /\ Forall in_buffer inputs)
  /\ negotiated_frame_size (viewer_run (initial 200) inputs) = 200
  /\ 0 <= accum_off (accum_st (viewer_run (initial 200) inputs)) < 200.
Proof.
  intros inputs.
  assert (H1 : 0 < 200 <= MAX_FRAME_SIZE) by by_evaluation.
  assert (H2 : Forall in_buffer inputs).
  { repeat constructor; vm_compute; congruence. }
  split; [tauto |].
  destruct (accumulation_stays_inside_its_buffer 200 inputs H1 H2)
    as (A & _ & B & _).
  split; [exact A | exact B].
Defined.

(** ** Rendering: what the contrast stretch computes *)

Section StretchFacts.

Import Decoded.

(** The first loop finds the least and the greatest sample. *)
Lemma scan_extrema (sample : Z -> option Z) (f : Z -> Z) (mn0 limit : Z) :
  (forall i, 0 <= i < limit -> sample i = Some (f i)) ->
  (forall i, 0 <= i < limit -> 0 <= f i <= mn0) ->
  0 < limit ->
  exists mn mx,
    scan sample mn0 limit = Some (mn, mx)
    /\ (forall i, 0 <= i < limit -> mn <= f i <= mx)
    /\ (exists i, 0 <= i < limit /\ f i = mn)
    /\ (exists i, 0 <= i < limit /\ f i = mx).
Proof.
  intros Hs Hf Hl. unfold scan.
  destruct (for_upto_inv
              (fun j (s : Z * Z) =>
                 (j = 0 /\ s = (mn0, 0))
                 \/ (0 < j
                     /\ (forall i, 0 <= i < j -> fst s <= f i <= snd s)
                     /\ (exists i, 0 <= i < j /\ f i = fst s)
                     /\ (exists i, 0 <= i < j /\ f i = snd s)))
              (fun i '(mn, mx) =>
                 match sample i with
                 | Some b => Some (if b <? mn then b else mn,
                                   if b >? mx then b else mx)
                 | None => None
                 end)
              (Z.to_nat limit) 0 (mn0, 0)) as ([mn mx] & Hrun & Hinv).
  - left. auto.
  - intros j [mn mx] Hj Hinv. rewrite (Hs j) by lia.
    eexists. split; [reflexivity |]. right. split; [lia |].
    pose proof (Hf j ltac:(lia)) as Hfj. cbn [fst snd].
    destruct Hinv as [[Hz Heq] | (Hp & Hall & (a & Ha & Ea) & (b & Hb & Eb))].
    + inversion Heq; subst mn mx j.
      assert (E1 : (if f 0 <? mn0 then f 0 else mn0) = f 0)
        by (destruct (Z.ltb_spec (f 0) mn0); lia).
      assert (E2 : (if f 0 >? 0 then f 0 else 0) = f 0)
        by (destruct (Z.gtb_spec (f 0) 0); lia).
      rewrite E1, E2. split; [| split].
      * intros i Hi. assert (i = 0) by lia. subst i. lia.
      * exists 0. split; [lia | reflexivity].
      * exists 0. split; [lia | reflexivity].
    + cbn [fst snd] in *. split; [| split].
      * intros i Hi.
        assert (Hc : i < j \/ i = j) by lia. destruct Hc as [Hc | Hc].
        -- specialize (Hall i ltac:(lia)).
           destruct (Z.ltb_spec (f j) mn), (Z.gtb_spec (f j) mx); lia.
        -- subst i.
           destruct (Z.ltb_spec (f j) mn), (Z.gtb_spec (f j) mx); lia.
      * destruct (Z.ltb_spec (f j) mn).
        -- exists j. split; [lia | reflexivity].
        -- exists a. split; [lia | exact Ea].
      * destruct (Z.gtb_spec (f j) mx).
        -- exists j. split; [lia | reflexivity].
        -- exists b. split; [lia | exact Eb].
  - exists mn, mx. split; [exact Hrun |].
    rewrite Z.add_0_l, Z2Nat.id in Hinv by lia.
    destruct Hinv as [[Hz _] | (_ & Hall & Hmin & Hmax)]; [lia |].
    cbn [fst snd] in *. auto.
Qed.

(** Between the extremes the stretched value needs no clamping. *)
Lemma stretched_range (mn mx b : Z) :
  mn <= b <= mx -> 0 <= stretched mn mx b <= 255.
Proof.
  intros Hb. unfold stretched, contrast_range.
  destruct (Z.gtb_spec (mx - mn) 0) as [Hpos | Hz].
  - rewrite Z.quot_div_nonneg by lia. split.
    + apply Z.div_pos; lia.
    + apply Z.div_le_upper_bound; [lia |]. nia.
  - assert (b = mn) by lia. subst b. rewrite Z.sub_diag. cbn. lia.
Qed.

Lemma stretched_mono (mn mx a b : Z) :
  mn <= a -> a <= b ->
  stretched mn mx a <= stretched mn mx b.
Proof.
  intros Ha Hab. unfold stretched.
  pose proof (contrast_range_pos mn mx) as Hr.
  rewrite !Z.quot_div_nonneg by nia.
  apply Z.div_le_mono; [lia | nia].
Qed.

Lemma stretched_ends (mn mx : Z) :
  stretched mn mx mn = 0 /\ (mn < mx -> stretched mn mx mx = 255).
Proof.
  unfold stretched, contrast_range. rewrite Z.sub_diag. split.
  - apply Z.quot_0_l. destruct (Z.gtb_spec (mx - mn) 0); lia.
  - intros H. destruct (Z.gtb_spec (mx - mn) 0); [| lia].
    rewrite Z.mul_comm. apply Z.quot_mul. lia.
Qed.

Lemma clamp_id (s : Z) : 0 <= s <= 255 -> clamp s = s.
Proof.
  intros H. unfold clamp.
  destruct (Z.ltb_spec s 0); [lia |]. destruct (Z.gtb_spec s 255); [lia |].
  apply Z.mod_small. lia.
Qed.

(** Both loops on samples [f 0 .. f (limit - 1)]. *)
Lemma stretch_exact (sample : Z -> option Z) (f : Z -> Z) (mn0 limit : Z)
  (d0 : list Z) :
  (forall i, 0 <= i < limit -> sample i = Some (f i)) ->
  (forall i, 0 <= i < limit -> 0 <= f i <= mn0) ->
  0 < limit <= len d0 ->
  exists mn mx dst',
    stretch sample mn0 limit d0 = Some dst'
    /\ (forall k, 0 <= k < limit -> mn <= f k <= mx)
    /\ (exists k, 0 <= k < limit /\ f k = mn)
    /\ (exists k, 0 <= k < limit /\ f k = mx)
    /\ (forall k, 0 <= k < limit ->
                  pixel dst' k = argb (stretched mn mx (f k))).
Proof.
  intros Hs Hf Hl. unfold stretch.
  destruct (scan_extrema sample f mn0 limit Hs Hf)
    as (mn & mx & Hscan & Hall & Hmin & Hmax); [lia |].
  rewrite Hscan.
  pose proof (contrast_range_pos mn mx) as Hr.
  destruct (paint_spec sample mn (contrast_range mn mx) limit d0)
    as (dst' & Hp & _ & Hpx & _).
  - intros i Hi. rewrite Hs by assumption. discriminate.
  - lia.
  - lia.
  - exists mn, mx, dst'. repeat (split; [assumption |]).
    intros k Hk. destruct (Hpx k Hk) as (b & Hb & Hval).
    rewrite Hs in Hb by assumption. inversion Hb; subst b.
    rewrite Hval. f_equal. apply clamp_id.
    apply (stretched_range mn mx (f k)). apply Hall. exact Hk.
Qed.

End StretchFacts.

Import Decoded.

(** X16.  A call that decodes at least one pixel, in any of the four
    modes: the first loop finds the least and the greatest sample, each
    attained; every decoded pixel is the grey level
    [(sample - min) * 255 / range], which lies in 0..255 without
    clamping; the least sample is drawn black and, when the samples
    differ, the greatest one white; a greater sample is never drawn
    darker. *)
Theorem render_frame_stretches_between_the_extremes :
  forall (src : list byte) (dst : list Z) (width height mode : Z),
    0 <= width -> 0 <= height ->
    width * height * 4 <= INT_MAX -> width * height <= len dst ->
    0 <= mode <= 3 ->
    let n := decoded (len src) (width * height) mode in
    0 < n ->
    exists mn mx dst',
      render_frame src dst width height mode = Some dst'
      /\ (forall k, 0 <= k < n -> mn <= sample_value src mode k <= mx)
      /\ (exists k, 0 <= k < n /\ sample_value src mode k = mn)
      /\ (exists k, 0 <= k < n /\ sample_value src mode k = mx)
      /\ (forall k, 0 <= k < n ->
            pixel dst' k = argb (stretched mn mx (sample_value src mode k))
            /\ 0 <= stretched mn mx (sample_value src mode k) <= 255)
      /\ (forall k, 0 <= k < n -> sample_value src mode k = mn ->
                    pixel dst' k = argb 0)
      /\ (mn < mx ->
          forall k, 0 <= k < n -> sample_value src mode k = mx ->
                    pixel dst' k = argb 255)
      /\ (forall j k, 0 <= j < n -> 0 <= k < n ->
            sample_value src mode j <= sample_value src mode k ->
            stretched mn mx (sample_value src mode j)
            <= stretched mn mx (sample_value src mode k)).
Proof.
  intros src dst width height mode Hw Hh Hmax Hlen Hmode n Hn.
  set (npix := width * height) in *.
  assert (Hnp : 0 <= npix) by (apply Z.mul_nonneg_nonneg; assumption).
  destruct (memset_px_spec dst npix Hnp Hmax Hlen) as (d0 & Hm & Hl0 & _ & _).
  pose proof (len_nonneg src) as Hsrc.
  pose proof (limit_raw_bounds (len src) npix Hsrc Hnp) as Braw.
  pose proof (fun start H => limit_deint_bounds start (len src) npix H Hsrc Hnp)
    as Bde.
  pose proof (limit_16_bounds (len src) npix Hsrc Hnp) as [B16 B16'].
  assert (Fin :
    forall (sample : Z -> option Z) (mn0 : Z),
      (forall i, 0 <= i < n -> sample i = Some (sample_value src mode i)) ->
      (forall i, 0 <= i < n -> 0 <= sample_value src mode i <= mn0) ->
      n <= npix ->
      exists mn mx dst',
        stretch sample mn0 n d0 = Some dst'
        /\ (forall k, 0 <= k < n -> mn <= sample_value src mode k <= mx)
        /\ (exists k, 0 <= k < n /\ sample_value src mode k = mn)
        /\ (exists k, 0 <= k < n /\ sample_value src mode k = mx)
        /\ (forall k, 0 <= k < n ->
              pixel dst' k = argb (stretched mn mx (sample_value src mode k))
              /\ 0 <= stretched mn mx (sample_value src mode k) <= 255)
        /\ (forall k, 0 <= k < n -> sample_value src mode k = mn ->
                      pixel dst' k = argb 0)
        /\ (mn < mx ->
            forall k, 0 <= k < n -> sample_value src mode k = mx ->
                      pixel dst' k = argb 255)
        /\ (forall j k, 0 <= j < n -> 0 <= k < n ->
              sample_value src mode j <= sample_value src mode k ->
              stretched mn mx (sample_value src mode j)
              <= stretched mn mx (sample_value src mode k))).
  { intros sample mn0 Hs Hf Hle.
    destruct (stretch_exact sample (sample_value src mode) mn0 n d0 Hs Hf)
      as (mn & mx & dst' & E & Hall & Hmin & Hmax' & Hpx); [lia |].
    exists mn, mx, dst'. split; [exact E |]. split; [exact Hall |].
    split; [exact Hmin |]. split; [exact Hmax' |].
    split; [| split; [| split]].
    - intros k Hk. split; [apply Hpx; exact Hk |].
      apply stretched_range, Hall, Hk.
    - intros k Hk Ek. rewrite Hpx, Ek by exact Hk.
      rewrite (proj1 (stretched_ends mn mx)). reflexivity.
    - intros Hlt k Hk Ek. rewrite Hpx, Ek by exact Hk.
      rewrite (proj2 (stretched_ends mn mx) Hlt). reflexivity.
    - intros j k Hj Hk Hjk. apply stretched_mono; [apply Hall, Hj | exact Hjk]. }
  revert Fin. subst n. unfold decoded, render_frame, sample_value.
  fold npix. rewrite to_int_small by (unfold INT_MAX in *; lia). rewrite Hm.
  revert Hn. unfold decoded.
  destruct (Z.ltb_spec (len src) 2) as [Hshort | Hlong]; [intros; lia |].
  destruct (Z.eqb_spec mode MODE_RAW) as [Hraw | Hnraw].
  { intros Hn Fin. apply (Fin (sample_raw src) 255); [| | lia].
    - intros i Hi. apply load_in. lia.
    - intros i Hi. pose proof (byte_at_range src i). lia. }
  destruct (Z.eqb_spec mode MODE_DEINT_EVEN) as [Hev | Hnev].
  { cbn [orb]. subst mode. change (MODE_DEINT_EVEN =? MODE_DEINT_ODD) with false.
    cbv iota. intros Hn Fin.
    destruct (Bde 0 ltac:(lia)) as [Bd0 Bd1].
    apply (Fin (sample_deint src 0) 255); [| | lia].
    - intros i Hi. apply load_in. apply Bd1. exact Hi.
    - intros i Hi. pose proof (byte_at_range src (0 + i * 2)). lia. }
  destruct (Z.eqb_spec mode MODE_DEINT_ODD) as [Hodd | Hnodd].
  { cbn [orb]. intros Hn Fin.
    destruct (Bde 1 ltac:(lia)) as [Bd0 Bd1].
    apply (Fin (sample_deint src 1) 255); [| | lia].
    - intros i Hi. apply load_in. apply Bd1. exact Hi.
    - intros i Hi. pose proof (byte_at_range src (1 + i * 2)). lia. }
  cbn [orb].
  destruct (Z.eqb_spec mode MODE_16BIT_LE) as [H16 | Hn16].
  { intros Hn Fin. apply (Fin (sample_16 src) 65535); [| | lia].
    - intros i Hi. destruct (B16' i Hi). apply sample_16_in; assumption.
    - intros i Hi.
      pose proof (Z.mod_pos_bound
                    (Z.lor (byte_at src (i * 2))
                       (Z.shiftl (byte_at src (i * 2 + 1)) 8)) 65536).
      lia. }
  unfold MODE_RAW, MODE_DEINT_EVEN, MODE_DEINT_ODD, MODE_16BIT_LE in *.
  intros; lia.
Qed.

Lemma render_frame_stretches_between_the_extremes_witness :
  let src := [x0a; x14; x1e; x14] in
  let dst := repeat 7 4 in
  (0 <= 2 /\ 0 <= 2 /\ 2 * 2 * 4 <= INT_MAX /\ 2 * 2 <= len dst
   /\ 0 <= MODE_RAW <= 3 /\ 0 < decoded (len src) (2 * 2) MODE_RAW)
  /\ exists mn mx dst',
       render_frame src dst 2 2 MODE_RAW = Some dst'
       /\ (forall k, 0 <= k < 4 ->
             pixel dst' k = argb (stretched mn mx (sample_value src MODE_RAW k))
             /\ 0 <= stretched mn mx (sample_value src MODE_RAW k) <= 255).
Proof.
  intros src dst.
  assert (H1 : 0 <= 2) by lia.
  assert (H2 : 2 * 2 * 4 <= INT_MAX) by by_evaluation.
  assert (H3 : 2 * 2 <= len dst) by by_evaluation.
  assert (H4 : 0 <= MODE_RAW <= 3) by by_evaluation.
  assert (H5 : 0 < decoded (len src) (2 * 2) MODE_RAW) by by_evaluation.
  split; [tauto |].
  destruct (render_frame_stretches_between_the_extremes src dst 2 2 MODE_RAW
              H1 H1 H2 H3 H4 H5) as (mn & mx & dst' & E & _ & _ & _ & Hpx & _).
  exists mn, mx, dst'. split; [exact E |].
  intros k Hk. apply Hpx. exact Hk.
Defined.

(** ** Display keys and the render call of the viewer loop *)

Section ControlFacts.

Import Controls.

Lemma press_keeps_range (k : key) (d : display) :
  10 <= dw d <= tex_w -> 0 <= display_mode d <= 3 ->
  10 <= dw (press k d) <= tex_w /\ 0 <= display_mode (press k d) <= 3.
Proof.
  intros Hw Hm. unfold tex_w in *.
  destruct k as [| shift | shift |]; cbn [press dw display_mode].
  - split; [assumption |].
    rewrite to_int_small by (unfold INT_MAX; lia). unfold MODE_COUNT.
    pose proof (Z.rem_bound_pos (display_mode d + 1) 4). lia.
  - split; [| assumption].
    rewrite to_int_small by (unfold INT_MAX; destruct shift; lia).
    unfold tex_w. destruct shift;
      match goal with |- context [?a >? ?b] => destruct (Z.gtb_spec a b) end;
      lia.
  - split; [| assumption].
    rewrite to_int_small by (unfold INT_MAX; destruct shift; lia).
    destruct shift;
      match goal with |- context [?a <? ?b] => destruct (Z.ltb_spec a b) end;
      lia.
  - unfold FRAME_W_DEFAULT. split; [lia | assumption].
Qed.

Lemma presses_keep_range (ks : list key) :
  forall d : display,
    10 <= dw d <= tex_w -> 0 <= display_mode d <= 3 ->
    10 <= dw (presses ks d) <= tex_w /\ 0 <= display_mode (presses ks d) <= 3.
Proof.
  induction ks as [| k ks IH]; intros d Hw Hm; [cbn; auto |].
  change (presses (k :: ks) d) with (presses ks (press k d)).
  destruct (press_keeps_range k d Hw Hm). apply IH; assumption.
Qed.

(** [render_frame] runs to its end on an area that fits the destination. *)
Lemma render_frame_runs (src : list byte) (dst : list Z)
  (width height mode : Z) :
  0 <= width -> 0 <= height ->
  width * height * 4 <= INT_MAX -> width * height <= len dst ->
  exists dst',
    render_frame src dst width height mode = Some dst' /\ len dst' = len dst.
Proof.
  intros Hw Hh Hmax Hlen.
  set (npix := width * height) in *.
  assert (Hnp : 0 <= npix) by (apply Z.mul_nonneg_nonneg; assumption).
  destruct (memset_px_spec dst npix Hnp Hmax Hlen) as (d0 & Hm & Hl0 & Hz & Hr).
  pose proof (len_nonneg src) as Hsrc.
  pose proof (limit_raw_bounds (len src) npix Hsrc Hnp) as Braw.
  pose proof (fun start H => limit_deint_bounds start (len src) npix H Hsrc Hnp)
    as Bde.
  pose proof (limit_16_bounds (len src) npix Hsrc Hnp) as [B16 B16'].
  assert (Case : forall (sample : Z -> option Z) (mn0 limit : Z),
             (forall i, 0 <= i < limit -> sample i <> None) ->
             0 <= limit <= npix ->
             exists dst', stretch sample mn0 limit d0 = Some dst'
                          /\ len dst' = len dst).
  { intros sample mn0 limit Ht Hl.
    destruct (stretch_spec sample mn0 limit npix dst d0 Ht Hl)
      as (dst' & S1 & S2 & _); try assumption; [lia |].
    exists dst'. auto. }
  unfold render_frame. fold npix.
  rewrite to_int_small by (unfold INT_MAX in *; lia). rewrite Hm.
  destruct (len src <? 2); [exists d0; auto |].
  destruct (mode =? MODE_RAW).
  { apply Case; [| lia]. intros i Hi. unfold sample_raw.
    rewrite load_in by lia. discriminate. }
  destruct (Z.eqb_spec mode MODE_DEINT_EVEN) as [Hev | Hnev].
  { cbn [orb]. subst mode. change (MODE_DEINT_EVEN =? MODE_DEINT_ODD) with false.
    cbv iota. destruct (Bde 0 ltac:(lia)) as [Bd0 Bd1].
    apply Case; [| lia]. intros i Hi. unfold sample_deint.
    rewrite load_in by (apply Bd1; exact Hi). discriminate. }
  destruct (Z.eqb_spec mode MODE_DEINT_ODD) as [Hodd | Hnodd].
  { cbn [orb]. destruct (Bde 1 ltac:(lia)) as [Bd0 Bd1].
    apply Case; [| lia]. intros i Hi. unfold sample_deint.
    rewrite load_in by (apply Bd1; exact Hi). discriminate. }
  cbn [orb].
  destruct (mode =? MODE_16BIT_LE); [| exists d0; auto].
  apply Case; [| lia]. intros i Hi. destruct (B16' i Hi).
  rewrite sample_16_in by assumption. discriminate.
Qed.

End ControlFacts.

Import Controls.

(** X17.  Whatever display keys (M, +, -, with or without Shift, R) were
    pressed since the start, the width stays within 10..1284 and the mode
    within the four modes, so the render call of the viewer loop, on the
    1284 x 480 pixel buffer and at height 480, runs without a fault for
    every frame; R returns the width to 642 and four presses of M return
    to the same mode. *)
Theorem display_keys_keep_the_render_call_safe :
  forall (ks : list key) (src : list byte) (dst : list Z),
    len dst = tex_w * tex_h ->
    let d := presses ks display0 in
    10 <= dw d <= tex_w
    /\ 0 <= display_mode d <= 3
    /\ (exists dst',
           render_frame src dst (dw d) FRAME_H_DEFAULT (display_mode d)
           = Some dst'
           /\ len dst' = len dst)
    /\ dw (press KeyR d) = FRAME_W_DEFAULT
    /\ presses [KeyM; KeyM; KeyM; KeyM] d = d.
Proof.
  intros ks src dst Hlen d.
  destruct (presses_keep_range ks display0) as [Hw Hm];
    [unfold display0, tex_w, FRAME_W_DEFAULT; cbn; lia
    | unfold display0, MODE_RAW; cbn; lia |].
  fold d in Hw, Hm. unfold tex_w, tex_h, FRAME_H_DEFAULT in *.
  split; [exact Hw |]. split; [exact Hm |]. split; [| split].
  - apply render_frame_runs; unfold INT_MAX; lia.
  - reflexivity.
  - destruct d as [w m]. cbn [dw display_mode] in *.
    assert (Hc : m = 0 \/ m = 1 \/ m = 2 \/ m = 3) by lia.
    destruct Hc as [-> | [-> | [-> | ->]]]; reflexivity.
Qed.

Lemma display_keys_keep_the_render_call_safe_witness :
  let ks := [KeyPlus true; KeyM; KeyMinus false; KeyM] in
  let dst := repeat 7 (Z.to_nat (tex_w * tex_h)) in
  len dst = tex_w * tex_h
  /\ dw (presses ks display0) = 651
  /\ display_mode (presses ks display0) = MODE_DEINT_ODD
  /\ exists dst',
       render_frame [x01; x02; x03] dst (dw (presses ks display0))
         FRAME_H_DEFAULT (display_mode (presses ks display0))
       = Some dst'
       /\ len dst' = len dst.
Proof.
  intros ks dst.
  assert (H : len dst = tex_w * tex_h).
  { unfold dst, len. rewrite repeat_length. apply Z2Nat.id.
    vm_compute. congruence. }
  split; [exact H |]. split; [reflexivity |]. split; [reflexivity |].
  exact (proj1 (proj2 (proj2
           (display_keys_keep_the_render_call_safe ks [x01; x02; x03] dst H)))).
Defined.

(** ** Rendering: what the four modes read *)

Section SampleFacts.

Import Decoded.

(** A byte pair read as [lo | (hi << 8)] is [lo + 256 * hi]; the
    conversion to 16 bits changes nothing. *)
Lemma pair_value (lo hi : Z) :
  0 <= lo < 256 -> 0 <= hi < 256 ->
  Z.lor lo (Z.shiftl hi 8) mod 65536 = lo + 256 * hi.
Proof.
  intros Hlo Hhi.
  assert (Hland : Z.land lo (Z.shiftl hi 8) = 0).
  { apply Z.bits_inj'. intros n Hn. rewrite Z.land_spec, Z.bits_0.
    destruct (Z.ltb_spec n 8) as [Hlt | Hge].
    - rewrite (Z.shiftl_spec_low hi 8 n) by lia. apply andb_false_r.
    - rewrite <- (Z.mod_small lo (2 ^ 8)) by (change (2 ^ 8) with 256; lia).
      rewrite Z.mod_pow2_bits_high by lia. reflexivity. }
  pose proof (Z.add_lor_land lo (Z.shiftl hi 8)) as Hadd.
  rewrite Hland, Z.add_0_r, Z.shiftl_mul_pow2 in Hadd by lia.
  change (2 ^ 8) with 256 in Hadd.
  rewrite Z.shiftl_mul_pow2 by lia. change (2 ^ 8) with 256.
  rewrite Hadd, Z.mod_small by lia. lia.
Qed.

End SampleFacts.

Import Decoded.

(** X18.  On a source of at least two bytes that fits the pixel area:
    the raw mode decodes every byte; the even and the odd mode share the
    bytes between them, byte [i] being sample [i / 2] of the mode of its
    parity, and together decode as many pixels as the source has bytes;
    the 16-bit mode decodes one pixel per whole pair, and its sample is
    the even sample plus 256 times the odd one, so a last unpaired byte
    is not read. *)
Theorem decoders_share_the_source :
  forall (src : list byte) (npix : Z),
    2 <= len src -> len src <= npix ->
    decoded (len src) npix MODE_RAW = len src
    /\ decoded (len src) npix MODE_DEINT_EVEN
       + decoded (len src) npix MODE_DEINT_ODD = len src
    /\ (forall i, 0 <= i < len src ->
          i / 2 < decoded (len src) npix (1 + i mod 2)
          /\ sample_value src (1 + i mod 2) (i / 2) = byte_at src i)
    /\ 2 * decoded (len src) npix MODE_16BIT_LE <= len src
       < 2 * decoded (len src) npix MODE_16BIT_LE + 2
    /\ (forall k, 0 <= k ->
          sample_value src MODE_16BIT_LE k
          = sample_value src MODE_DEINT_EVEN k
            + 256 * sample_value src MODE_DEINT_ODD k
          /\ 0 <= sample_value src MODE_16BIT_LE k <= 65535).
Proof.
  intros src npix H2 Hn.
  assert (Hev : decoded (len src) npix MODE_DEINT_EVEN = (len src + 1) / 2).
  { unfold decoded, limit_deint.
    destruct (Z.ltb_spec (len src) 2); [lia |].
    cbn [Z.eqb MODE_DEINT_EVEN MODE_RAW Pos.eqb].
    change (1 =? 0) with false. change (1 =? 1) with true. cbv iota.
    rewrite Z.quot_div_nonneg by lia. rewrite Z.sub_0_r.
    pose proof (Z.mul_div_le (len src + 1) 2 ltac:(lia)).
    destruct (Z.ltb_spec ((len src + 1) / 2) npix); lia. }
  assert (Hod : decoded (len src) npix MODE_DEINT_ODD = len src / 2).
  { unfold decoded, limit_deint.
    destruct (Z.ltb_spec (len src) 2); [lia |].
    change (MODE_DEINT_ODD =? MODE_RAW) with false.
    change (MODE_DEINT_ODD =? MODE_DEINT_EVEN) with false.
    change (MODE_DEINT_ODD =? MODE_DEINT_ODD) with true. cbv iota.
    rewrite Z.quot_div_nonneg by lia.
    replace (len src - 1 + 1) with (len src) by lia.
    pose proof (Z.mul_div_le (len src) 2 ltac:(lia)).
    destruct (Z.ltb_spec (len src / 2) npix); lia. }
  assert (H16 : decoded (len src) npix MODE_16BIT_LE = len src / 2).
  { unfold decoded, limit_16.
    destruct (Z.ltb_spec (len src) 2); [lia |].
    change (MODE_16BIT_LE =? MODE_RAW) with false.
    change (MODE_16BIT_LE =? MODE_DEINT_EVEN) with false.
    change (MODE_16BIT_LE =? MODE_DEINT_ODD) with false.
    change (MODE_16BIT_LE =? MODE_16BIT_LE) with true. cbv iota.
    rewrite Z.quot_div_nonneg by lia.
    pose proof (Z.mul_div_le (len src) 2 ltac:(lia)).
    destruct (Z.gtb_spec (len src / 2) npix); lia. }
  pose proof (Z.div_mod (len src) 2 ltac:(lia)) as Hdm.
  pose proof (Z.mod_pos_bound (len src) 2 ltac:(lia)) as Hmb.
  split; [| split; [| split; [| split]]].
  - unfold decoded, limit_raw.
    destruct (Z.ltb_spec (len src) 2); [lia |].
    change (MODE_RAW =? MODE_RAW) with true. cbv iota.
    destruct (Z.ltb_spec (len src) npix); lia.
  - rewrite Hev, Hod.
    pose proof (Z.div_mod (len src + 1) 2 ltac:(lia)).
    pose proof (Z.mod_pos_bound (len src + 1) 2 ltac:(lia)).
    assert (Hpar : (len src + 1) mod 2 = 1 - len src mod 2).
    { rewrite Z.add_mod by lia.
      assert (Hc : len src mod 2 = 0 \/ len src mod 2 = 1) by lia.
      destruct Hc as [-> | ->]; reflexivity. }
    lia.
  - intros i Hi.
    pose proof (Z.div_mod i 2 ltac:(lia)) as Hi2.
    pose proof (Z.mod_pos_bound i 2 ltac:(lia)) as Hib.
    assert (Hc : i mod 2 = 0 \/ i mod 2 = 1) by lia.
    destruct Hc as [Hc | Hc]; rewrite Hc.
    + change (1 + 0) with MODE_DEINT_EVEN. rewrite Hev. split.
      * apply Z.div_lt_upper_bound; [lia |].
        pose proof (Z.mul_div_le (len src + 1) 2 ltac:(lia)).
        pose proof (Z.mod_pos_bound (len src + 1) 2 ltac:(lia)).
        pose proof (Z.div_mod (len src + 1) 2 ltac:(lia)). lia.
      * unfold sample_value.
        change (MODE_DEINT_EVEN =? MODE_RAW) with false.
        change (MODE_DEINT_EVEN =? MODE_DEINT_EVEN) with true. cbv iota.
        f_equal. lia.
    + change (1 + 1) with MODE_DEINT_ODD. rewrite Hod. split.
      * apply Z.div_lt_upper_bound; [lia |]. lia.
      * unfold sample_value.
        change (MODE_DEINT_ODD =? MODE_RAW) with false.
        change (MODE_DEINT_ODD =? MODE_DEINT_EVEN) with false.
        change (MODE_DEINT_ODD =? MODE_DEINT_ODD) with true. cbv iota.
        f_equal. lia.
  - rewrite H16. lia.
  - intros k Hk. unfold sample_value.
    change (MODE_16BIT_LE =? MODE_RAW) with false.
    change (MODE_16BIT_LE =? MODE_DEINT_EVEN) with false.
    change (MODE_16BIT_LE =? MODE_DEINT_ODD) with false.
    change (MODE_DEINT_EVEN =? MODE_RAW) with false.
    change (MODE_DEINT_EVEN =? MODE_DEINT_EVEN) with true.
    change (MODE_DEINT_ODD =? MODE_RAW) with false.
    change (MODE_DEINT_ODD =? MODE_DEINT_EVEN) with false.
    change (MODE_DEINT_ODD =? MODE_DEINT_ODD) with true. cbv iota.
    pose proof (byte_at_range src (k * 2)) as Hlo.
    pose proof (byte_at_range src (k * 2 + 1)) as Hhi.
    rewrite pair_value by lia.
    replace (0 + k * 2) with (k * 2) by lia.
    replace (1 + k * 2) with (k * 2 + 1) by lia. lia.
Qed.

Lemma decoders_share_the_source_witness :
  let src := [x10; x20; x30; x40; x50] in
  (2 <= len src /\ len src <= 8)
  /\ decoded (len src) 8 MODE_DEINT_EVEN = 3
  /\ decoded (len src) 8 MODE_DEINT_ODD = 2
  /\ decoded (len src) 8 MODE_DEINT_EVEN + decoded (len src) 8 MODE_DEINT_ODD
     = len src
  /\ sample_value src MODE_16BIT_LE 1 = 0x4030.
Proof.
  intros src.
  assert (H1 : 2 <= len src) by by_evaluation.
  assert (H2 : len src <= 8) by by_evaluation.
  split; [tauto |]. split; [reflexivity |]. split; [reflexivity |].
  split; [| reflexivity].
  exact (proj1 (proj2 (decoders_share_the_source src 8 H1 H2))).
Defined.

(** ** Text dump and raw dump *)

Section DumpFacts.

Import Dump.

Lemma fold_range_inv {S : Type} (I : Z -> S -> Prop) (body : Z -> S -> S) :
  forall (n : nat) (i : Z) (s : S),
    I i s ->
    (forall j t, i <= j < i + Z.of_nat n -> I j t -> I (j + 1) (body j t)) ->
    I (i + Z.of_nat n) (fold_range n i body s).
Proof.
  induction n as [| n IH]; intros i s Hi Hstep; cbn [fold_range].
  - rewrite Z.add_0_r. exact Hi.
  - replace (i + Z.of_nat (Datatypes.S n)) with (i + 1 + Z.of_nat n) by lia.
    apply IH.
    + apply Hstep; [lia | exact Hi].
    + intros j t Hj. apply Hstep. lia.
Qed.

(** The statistics loop after [got] bytes. *)
Lemma frame_stats_upto (fbuf : list byte) (got : Z) :
  0 < got ->
  exists mn mx sum,
    frame_stats fbuf got = (mn, mx, sum)
    /\ (forall i, 0 <= i < got -> mn <= byte_at fbuf i <= mx)
    /\ (exists i, 0 <= i < got /\ byte_at fbuf i = mn)
    /\ (exists i, 0 <= i < got /\ byte_at fbuf i = mx)
    /\ got * mn <= sum <= got * mx.
Proof.
  intros Hg. unfold frame_stats.
  set (stats_upto := fun (j : Z) (s : Z * Z * Z) =>
    let '(mn, mx, sum) := s in
    (j = 0 /\ s = (255, 0, 0))
    \/ (0 < j
        /\ (forall i, 0 <= i < j -> mn <= byte_at fbuf i <= mx)
        /\ (exists i, 0 <= i < j /\ byte_at fbuf i = mn)
        /\ (exists i, 0 <= i < j /\ byte_at fbuf i = mx)
        /\ j * mn <= sum <= j * mx)).
  pose proof (fold_range_inv stats_upto
                (fun i '(mn, mx, sum) =>
                   let b := byte_at fbuf i in
                   (if b <? mn then b else mn, if b >? mx then b else mx,
                    sum + b))
                (Z.to_nat got) 0 (255, 0, 0)) as H.
  rewrite Z.add_0_l, Z2Nat.id in H by lia.
  match goal with |- context [fold_range ?n ?i ?b ?s] =>
    set (r := fold_range n i b s) in * end.
  assert (Hr : stats_upto got r); [apply H; clear H | clear H].
  3: { destruct r as [[mn mx] sum]. exists mn, mx, sum.
       split; [reflexivity |]. unfold stats_upto in Hr.
       destruct Hr as [[Hz _] | (_ & Hr)]; [lia | exact Hr]. }
  - left. auto.
  - intros j [[mn mx] sum] Hj Hinv. cbv zeta. unfold stats_upto in *.
    pose proof (byte_at_range fbuf j) as Hb.
    set (b := byte_at fbuf j) in *.
    right. split; [lia |].
    destruct Hinv as [[Hz Heq] | (Hp & Hall & (a & Ha & Ea) & (c & Hc & Ec) & Hs)].
    + inversion Heq; subst mn mx sum j.
      assert (E1 : (if b <? 255 then b else 255) = b)
        by (destruct (Z.ltb_spec b 255); lia).
      assert (E2 : (if b >? 0 then b else 0) = b)
        by (destruct (Z.gtb_spec b 0); lia).
      rewrite E1, E2. split; [| split; [| split]].
      * intros i Hi. assert (i = 0) by lia. subst i. fold b. lia.
      * exists 0. split; [lia | reflexivity].
      * exists 0. split; [lia | reflexivity].
      * lia.
    + split; [| split; [| split]].
      * intros i Hi.
        assert (Hcase : i < j \/ i = j) by lia. destruct Hcase as [Hlt | ->].
        -- specialize (Hall i ltac:(lia)).
           destruct (Z.ltb_spec b mn), (Z.gtb_spec b mx); lia.
        -- fold b. destruct (Z.ltb_spec b mn), (Z.gtb_spec b mx); lia.
      * destruct (Z.ltb_spec b mn).
        -- exists j. split; [lia | reflexivity].
        -- exists a. split; [lia | exact Ea].
      * destruct (Z.gtb_spec b mx).
        -- exists j. split; [lia | reflexivity].
        -- exists c. split; [lia | exact Ec].
      * destruct (Z.ltb_spec b mn), (Z.gtb_spec b mx); nia.
Qed.

(** *** The raw dump file *)

Lemma u8_byte_of (z : Z) : u8 (byte_of z) = z mod 256.
Proof.
  unfold u8, byte_of.
  pose proof (Z.mod_pos_bound z 256 ltac:(lia)) as Hm.
  destruct (Byte.of_N (Z.to_N (z mod 256))) as [b |] eqn:E.
  - apply Byte.to_of_N in E. rewrite E. lia.
  - apply Byte.of_N_None_iff in E. lia.
Qed.

Lemma le32_value_le32 (z : Z) :
  0 <= z < 4294967296 -> le32_value (le32 z) = z.
Proof.
  intros Hz. unfold le32_value, le32. cbn [nth]. rewrite !u8_byte_of.
  pose proof (Z.div_mod z 256 ltac:(lia)).
  pose proof (Z.div_mod (z / 256) 256 ltac:(lia)).
  pose proof (Z.div_mod (z / 256 / 256) 256 ltac:(lia)).
  assert (E2 : z / 65536 = z / 256 / 256) by (rewrite Z.div_div by lia; reflexivity).
  assert (E3 : z / 16777216 = z / 256 / 256 / 256)
    by (rewrite !Z.div_div by lia; reflexivity).
  rewrite E2, E3.
  assert (H3 : 0 <= z / 256 / 256 / 256 < 256).
  { split.
    - repeat apply Z.div_pos; lia.
    - rewrite !Z.div_div by lia. apply Z.div_lt_upper_bound; lia. }
  rewrite (Z.mod_small (z / 256 / 256 / 256)) by lia. lia.
Qed.

Lemma length_record (pkt : list byte) :
  len (record pkt) = 4 + len pkt.
Proof. unfold record, len. rewrite length_app. cbn [le32 length]. lia. Qed.

Lemma len_records_app (ps qs : list (list byte)) :
  records (ps ++ qs) = records ps ++ records qs.
Proof. unfold records. rewrite map_app, concat_app. reflexivity. Qed.

Lemma app_same_length {A} :
  forall (a b r s : list A),
    length a = length b -> a ++ r = b ++ s -> a = b /\ r = s.
Proof.
  induction a as [| x a IH]; intros [| y b] r s Hl E; cbn in *;
    try discriminate; [auto |].
  inversion E; subst. destruct (IH b r s) as [-> ->]; [lia | assumption |].
  auto.
Qed.

Lemma record_split (p q : list byte) (r s : list byte) :
  len p < 4294967296 -> len q < 4294967296 ->
  record p ++ r = record q ++ s -> p = q /\ r = s.
Proof.
  intros Hp Hq E. unfold record in E.
  pose proof (len_nonneg p) as Hp0. pose proof (len_nonneg q) as Hq0.
  rewrite !Z.mod_small in E by lia.
  assert (Hlen : len p = len q).
  { rewrite <- (le32_value_le32 (len p)), <- (le32_value_le32 (len q)) by lia.
    unfold le32 in *. cbn [app] in E. inversion E as [[E0 E1 E2 E3 E4]].
    unfold le32_value. cbn [nth]. rewrite E0, E1, E2, E3. reflexivity. }
  rewrite Hlen in E. rewrite <- !app_assoc in E. apply app_inv_head in E.
  apply app_same_length; [unfold len in Hlen; lia | exact E].
Qed.

End DumpFacts.

Section RawDumpFacts.

Import Dump.

Lemma packets_of_app (a b : list event) :
  packets_of (a ++ b) = packets_of a ++ packets_of b.
Proof.
  induction a as [| ev a IH]; [reflexivity |].
  destruct ev as [| | | | pkt]; cbn [app packets_of]; try exact IH.
  destruct (len pkt <? 1); [exact IH | cbn [app]; rewrite IH; reflexivity].
Qed.

Lemma len_records_cons (p : list byte) (ps : list (list byte)) :
  len (records (p :: ps)) = 4 + len p + len (records ps).
Proof.
  unfold records. cbn [map concat]. rewrite len_app, length_record.
  reflexivity.
Qed.

(** The capture loop from any point of a run: [total] is the length of
    the file and bounds [npkts]. *)
Lemma rawdump_loop_spec :
  forall (evs : list event) (file : list byte) (total npkts : Z)
         (file' : list byte) (total' npkts' : Z) (rest : list event),
    Forall sized evs ->
    total = len file -> 0 <= npkts <= total ->
    total < RAWDUMP_LIMIT + 65540 ->
    rawdump_loop evs file total npkts = Some (file', total', npkts', rest) ->
    exists used,
      evs = used ++ rest
      /\ file' = file ++ records (packets_of used)
      /\ total' = len file'
      /\ npkts' = npkts + len (packets_of used)
      /\ 0 <= npkts' <= total'
      /\ total' < RAWDUMP_LIMIT + 65540.
Proof.
  induction evs as [| ev evs IH];
    intros file total npkts file' total' npkts' rest Hs Ht Hn Hcap Hrun.
  - cbn [rawdump_loop] in Hrun.
    destruct (total <? RAWDUMP_LIMIT); [discriminate |].
    inversion Hrun; subst. exists [].
    cbn [app packets_of records map concat]. rewrite app_nil_r.
    change (len (@nil (list byte))) with 0.
    repeat (split; [reflexivity || lia |]). lia.
  - cbn [rawdump_loop] in Hrun.
    assert (Stop : forall evs0,
               Some (file, total, npkts, evs0) = Some (file', total', npkts', rest) ->
               forall used, ev :: evs = used ++ evs0 -> packets_of used = [] ->
               exists used,
                 ev :: evs = used ++ rest
                 /\ file' = file ++ records (packets_of used)
                 /\ total' = len file'
                 /\ npkts' = npkts + len (packets_of used)
                 /\ 0 <= npkts' <= total'
                 /\ total' < RAWDUMP_LIMIT + 65540).
    { intros evs0 E used Hu Hp. inversion E; subst. exists used.
      rewrite Hp. cbn [records map concat]. rewrite app_nil_r.
      change (len (@nil (list byte))) with 0.
      repeat (split; [reflexivity || assumption || lia |]). lia. }
    destruct (Z.ltb_spec total RAWDUMP_LIMIT) as [Hlt | Hge];
      [| apply (Stop _ Hrun []); reflexivity].
    inversion Hs as [| ? ? Hev Hs']; subst.
    assert (Skip : rawdump_loop evs file (len file) npkts
                   = Some (file', total', npkts', rest) ->
                   packets_of [ev] = [] ->
                   exists used,
                     ev :: evs = used ++ rest
                     /\ file' = file ++ records (packets_of used)
                     /\ total' = len file'
                     /\ npkts' = npkts + len (packets_of used)
                     /\ 0 <= npkts' <= total'
                     /\ total' < RAWDUMP_LIMIT + 65540).
    { intros Hr Hp.
      destruct (IH _ _ _ _ _ _ _ Hs' eq_refl Hn Hcap Hr)
        as (used & E & F & T & N & B & Cp).
      exists (ev :: used). rewrite E.
      change (ev :: used) with ([ev] ++ used).
      rewrite packets_of_app, Hp. cbn [app].
      split; [reflexivity | tauto]. }
    destruct ev as [| | | | pkt].
    + apply (Stop _ Hrun [Cancel]); reflexivity.
    + apply Skip; [exact Hrun | reflexivity].
    + apply (Stop _ Hrun [Overflow]); reflexivity.
    + apply (Stop _ Hrun [Failure]); reflexivity.
    + destruct (Z.ltb_spec (len pkt) 1) as [Hempty | Hdata].
      * apply Skip; [exact Hrun |]. cbn [packets_of].
        destruct (Z.ltb_spec (len pkt) 1); [reflexivity | lia].
      * cbn [sized] in Hev. unfold RAWDUMP_LIMIT in *.
        rewrite (to_int_small (len file + (4 + len pkt))) in Hrun
          by (unfold INT_MAX; lia).
        rewrite (to_int_small (npkts + 1)) in Hrun by (unfold INT_MAX; lia).
        destruct (IH (file ++ record pkt) (len file + (4 + len pkt)) (npkts + 1)
                    file' total' npkts' rest Hs')
          as (used & E & F & T & N & B & Cp);
          [rewrite len_app, length_record; lia | lia | lia | exact Hrun |].
        exists (Data pkt :: used). rewrite E.
        change (Data pkt :: used) with ([Data pkt] ++ used).
        rewrite packets_of_app. cbn [packets_of].
        destruct (Z.ltb_spec (len pkt) 1); [lia |].
        cbn [app]. split; [reflexivity |].
        split.
        { rewrite F. unfold records. cbn [map concat].
          rewrite <- app_assoc. reflexivity. }
        split; [exact T |]. split; [| split; [exact B | exact Cp]].
        rewrite N. unfold len. cbn [length]. lia.
Qed.

(** A stop request ends the capture. *)
Lemma rawdump_loop_stops :
  forall (evs : list event) (file : list byte) (total npkts : Z),
    In Cancel evs -> rawdump_loop evs file total npkts <> None.
Proof.
  induction evs as [| ev evs IH]; intros file total npkts Hin;
    [destruct Hin |].
  cbn [rawdump_loop]. destruct (total <? RAWDUMP_LIMIT); [| discriminate].
  destruct ev as [| | | | pkt]; try discriminate.
  - apply IH. destruct Hin as [H | H]; [discriminate H | exact H].
  - destruct Hin as [H | H]; [discriminate H |].
    destruct (len pkt <? 1); apply IH; exact H.
Qed.

Lemma records_inj :
  forall ps qs : list (list byte),
    Forall (fun p => len p < 4294967296) ps ->
    Forall (fun p => len p < 4294967296) qs ->
    records ps = records qs -> ps = qs.
Proof.
  induction ps as [| p ps IH]; intros [| q qs] Hp Hq E.
  - reflexivity.
  - exfalso. unfold records, record in E. cbn in E. discriminate E.
  - exfalso. unfold records, record in E. cbn in E. discriminate E.
  - inversion Hp; inversion Hq; subst.
    unfold records in E. cbn [map concat] in E.
    apply record_split in E; [| assumption | assumption].
    destruct E as [-> E]. f_equal. apply IH; assumption.
Qed.

Lemma firstn_split {A} :
  forall (a b : nat) (l : list A),
    firstn (a + b) l = firstn a l ++ firstn b (skipn a l).
Proof.
  induction a as [| a IH]; intros b l; [reflexivity |].
  destruct l as [| x l]; [cbn; rewrite firstn_nil; reflexivity |].
  cbn [Nat.add firstn skipn app]. rewrite IH. reflexivity.
Qed.

End RawDumpFacts.

Import Dump.

(** X19.  The statistics loop of the text dump (and of the comparison
    tool) over a frame of [got > 0] bytes: [mn] and [mx] are the least
    and the greatest byte of the frame, each attained; [sum] lies between
    [got * mn] and [got * mx], so it cannot overflow a [long], and the
    integer average lies between [mn] and [mx]. *)
Theorem dump_statistics_are_the_extremes :
  forall (fbuf : list byte) (got : Z),
    0 < got -> got <= len fbuf ->
    exists mn mx sum,
      frame_stats fbuf got = (mn, mx, sum)
      /\ (forall i, 0 <= i < got -> mn <= byte_at fbuf i <= mx)
      /\ (exists i, 0 <= i < got /\ byte_at fbuf i = mn)
      /\ (exists i, 0 <= i < got /\ byte_at fbuf i = mx)
      /\ 0 <= mn <= mx /\ mx <= 255
      /\ got * mn <= sum <= got * mx
      /\ mn <= sum ÷ got <= mx.
Proof.
  intros fbuf got Hg _.
  destruct (frame_stats_upto fbuf got Hg)
    as (mn & mx & sum & E & Hall & (a & Ha & Ea) & (b & Hb & Eb) & Hs).
  exists mn, mx, sum. split; [exact E |]. split; [exact Hall |].
  split; [exists a; auto |]. split; [exists b; auto |].
  pose proof (byte_at_range fbuf a). pose proof (byte_at_range fbuf b).
  pose proof (Hall a Ha).
  split; [lia |]. split; [lia |]. split; [exact Hs |].
  rewrite Z.quot_div_nonneg by nia. split.
  - apply Z.div_le_lower_bound; lia.
  - apply Z.div_le_upper_bound; lia.
Qed.

Lemma dump_statistics_are_the_extremes_witness :
  (0 < 4 /\ 4 <= len [x05; x09; x02; x07; xff])
  /\ exists mn mx sum,
       frame_stats [x05; x09; x02; x07; xff] 4 = (mn, mx, sum)
       /\ mn = 2 /\ mx = 9 /\ sum = 23.
Proof.
  assert (H1 : 0 < 4) by lia.
  assert (H2 : 4 <= len [x05; x09; x02; x07; xff]) by by_evaluation.
  split; [tauto |].
  destruct (dump_statistics_are_the_extremes [x05; x09; x02; x07; xff] 4 H1 H2)
    as (mn & mx & sum & E & _).
  exists mn, mx, sum. split; [exact E |].
  vm_compute in E. inversion E. auto.
Defined.

(** X20.  The raw dump, when no transfer delivers more than the 65536
    bytes of the packet buffer: a stop request among the events ends the
    capture; when it ends, the file holds one record per non-empty packet
    read, in order and nothing else; [total] is the length of the file,
    [npkts] the number of records; [total] stays below 2 MiB + 65540, so
    neither counter wraps. *)
Theorem rawdump_writes_one_record_per_packet :
  forall evs : list event,
    Forall sized evs ->
    (In Cancel evs -> rawdump evs <> None)
    /\ (forall (file : list byte) (total npkts : Z) (rest : list event),
           rawdump evs = Some (file, total, npkts, rest) ->
           exists used,
             evs = used ++ rest
             /\ file = records (packets_of used)
             /\ total = len file
             /\ npkts = len (packets_of used)
             /\ total < RAWDUMP_LIMIT + 65540).
Proof.
  intros evs Hs. split; [apply rawdump_loop_stops |].
  intros file total npkts rest Hrun. unfold rawdump in Hrun.
  destruct (rawdump_loop_spec evs [] 0 0 file total npkts rest Hs)
    as (used & E & F & T & N & _ & Cp);
    [reflexivity | lia | unfold RAWDUMP_LIMIT; lia | exact Hrun |].
  exists used. cbn [app] in F. rewrite Z.add_0_l in N. auto.
Qed.

Lemma rawdump_writes_one_record_per_packet_witness :
  let evs := [Data [x01; x02]; Timeout; Data []; Data [x03]; Cancel; Data [x04]] in
  Forall sized evs
  /\ rawdump evs
     = Some ([x02; x00; x00; x00; x01; x02; x01; x00; x00; x00; x03],
             11, 2, [Data [x04]])
  /\ exists used,
       evs = used ++ [Data [x04]]
       /\ [x02; x00; x00; x00; x01; x02; x01; x00; x00; x00; x03]
          = records (packets_of used).
Proof.
  intros evs.
  assert (Hs : Forall sized evs).
  { repeat constructor; vm_compute; congruence. }
  split; [exact Hs |]. split; [reflexivity |].
  destruct (proj2 (rawdump_writes_one_record_per_packet evs Hs)
              [x02; x00; x00; x00; x01; x02; x01; x00; x00; x00; x03]
              11 2 [Data [x04]] eq_refl)
    as (used & E & F & _).
  exists used. auto.
Defined.

(** X21.  The raw dump format can be read back in one way only: two
    lists of packets (each shorter than 4 GiB, as every transfer is) that
    give the same file are the same list; and the four size bytes of a
    record hold the length of its packet. *)
Theorem raw_dump_file_determines_its_packets :
  forall ps qs : list (list byte),
    Forall (fun p => len p < 4294967296) ps ->
    Forall (fun p => len p < 4294967296) qs ->
    records ps = records qs ->
    ps = qs
    /\ Forall (fun p => le32_value (firstn 4 (record p)) = len p
                        /\ skipn 4 (record p) = p) ps.
Proof.
  intros ps qs Hp Hq E. split; [apply records_inj; assumption |].
  apply Forall_forall. intros p Hin.
  rewrite Forall_forall in Hp. specialize (Hp p Hin).
  pose proof (len_nonneg p). unfold record.
  rewrite Z.mod_small by lia. split.
  - change (firstn 4 (le32 (len p) ++ p)) with (le32 (len p)).
    apply le32_value_le32. lia.
  - reflexivity.
Qed.

Lemma raw_dump_file_determines_its_packets_witness :
  let ps := [[x01; x02]; [x03]] in
  (Forall (fun p => len p < 4294967296) ps /\ records ps = records ps)
  /\ Forall (fun p => le32_value (firstn 4 (record p)) = len p
                      /\ skipn 4 (record p) = p) ps.
Proof.
  intros ps.
  assert (Hp : Forall (fun p => len p < 4294967296) ps).
  { repeat constructor; vm_compute; congruence. }
  split; [split; [exact Hp | reflexivity] |].
  exact (proj2 (raw_dump_file_determines_its_packets ps ps Hp Hp eq_refl)).
Defined.

(** X22.  The preview line of the text dump prints [min(got, 32)] bytes
    from the pixel pointer, all inside the frame buffer.  They are the
    first bytes of the frame's pixel data when no header was stripped or
    the frame has at least 42 bytes; after a header was stripped from a
    shorter frame, the line goes on past the end of the frame, by up to
    10 bytes of whatever the buffer holds there.  The preview line of the
    viewer, bounded by [pixlen], never leaves the pixel data. *)
Theorem dump_preview_of_a_short_frame_runs_past_it :
  forall (fbuf : list byte) (got : Z),
    0 < got -> got <= len fbuf -> 42 <= len fbuf ->
    let w := mkView fbuf 0 got in
    let v := snd (strip_meta_header w) in
    let n := if got <? 32 then got else 32 in
    len (dump_preview fbuf got) = n
    /\ (has_meta w = false \/ 42 <= got ->
        dump_preview fbuf got = firstn (Z.to_nat n) (bytes v))
    /\ (has_meta w = true -> got < 42 ->
        0 < n - pixlen v <= 10
        /\ dump_preview fbuf got
           = bytes v
             ++ firstn (Z.to_nat (n - pixlen v)) (skipn (Z.to_nat got) fbuf))
    /\ viewer_preview v = firstn 20 (bytes v).
Proof.
  intros fbuf got Hg Hl Hbuf w v n.
  assert (Hn : 0 < n <= 32 /\ n <= got)
    by (subst n; destruct (Z.ltb_spec got 32); lia).
  assert (Hv : (has_meta w = false /\ v = w)
               \/ (has_meta w = true /\ 12 < got
                   /\ v = mkView fbuf 10 (got - 10))).
  { subst v. unfold strip_meta_header.
    destruct (has_meta w) eqn:Hm; [right | left; auto].
    split; [reflexivity |]. split; [| reflexivity].
    unfold has_meta in Hm. cbn [pixlen w] in Hm.
    destruct (Z.gtb_spec got 12); [lia | discriminate Hm]. }
  assert (Hview : viewer_preview v = firstn 20 (bytes v)).
  { unfold viewer_preview, hexdump, bytes. rewrite firstn_firstn.
    destruct (Z.ltb_spec (pixlen v) 20) as [Hs | Hs].
    - f_equal. lia.
    - f_equal. lia. }
  unfold dump_preview, hexdump. fold w v n. unfold len in *.
  split; [| split; [| split; [| exact Hview]]].
  - destruct Hv as [[_ ->] | (_ & _ & ->)]; unfold data; cbn [base pix w];
      rewrite length_firstn, ?length_skipn; lia.
  - intros Hc. unfold bytes. rewrite firstn_firstn. f_equal.
    destruct Hv as [[_ ->] | (Hm & _ & ->)]; cbn [pixlen w]; [lia |].
    destruct Hc as [Hc | Hc]; [congruence | lia].
  - intros Hm Hshort.
    destruct Hv as [[Hm' _] | (_ & H12 & ->)]; [congruence |].
    cbn [pixlen]. split; [subst n; destruct (Z.ltb_spec got 32); lia |].
    unfold bytes, data. cbn [base pix pixlen].
    replace (Z.to_nat n)
      with (Z.to_nat (got - 10) + Z.to_nat (n - (got - 10)))%nat
      by (subst n; destruct (Z.ltb_spec got 32); lia).
    rewrite firstn_split, skipn_skipn. do 3 f_equal. lia.
Qed.

Lemma dump_preview_of_a_short_frame_runs_past_it_witness :
  let fbuf := [x07; x00; xe8; x03; x00; x00; x0d; x00; x00; x00;
               xa1; xa2; xa3] ++ repeat xee 30 in
  (0 < 13 /\ 13 <= len fbuf /\ 42 <= len fbuf
   /\ has_meta (mkView fbuf 0 13) = true /\ 13 < 42)
  /\ dump_preview fbuf 13 = [xa1; xa2; xa3] ++ repeat xee 10.
Proof.
  intros fbuf.
  assert (H1 : 0 < 13) by lia.
  assert (H2 : 13 <= len fbuf) by by_evaluation.
  assert (H3 : 42 <= len fbuf) by by_evaluation.
  assert (H4 : has_meta (mkView fbuf 0 13) = true) by reflexivity.
  assert (H5 : 13 < 42) by lia.
  split; [tauto |].
  rewrite (proj2 (proj1 (proj2 (proj2
             (dump_preview_of_a_short_frame_runs_past_it fbuf 13 H1 H2 H3)))
             H4 H5)).
  reflexivity.
Defined.
